(** * The session multiplexer of the A2D2 ROS data node

    A shallow embedding of [a2d2/src/ros_data_node.py] (class [RosDataNode]):
    the round-robin dispatcher, the flusher and the per-sensor workers,
    written as functions over an explicit node state in a state-and-exception
    monad, followed by the properties of the specification. *)

From Stdlib Require Import ZArith Lia Ascii.
From Stdlib Require Import Floats.SpecFloat.
From stdpp Require Import base option list gmap strings fin_maps.

(** ** Python exceptions and fallible results *)

(** The exceptions the node can see.  [Failure] stands for any [Exception]
    raised by a collaborator (manifest, storage reader, converter);
    [Interrupt] for a [BaseException] that is not an [Exception]
    (KeyboardInterrupt, SystemExit). *)
Inductive Exn :=
| KeyError
| AttributeError
| IndexError
| Failure (what : string)
| Interrupt.

(** [isinstance(e, Exception)] *)
Definition is_Exception (e : Exn) : bool :=
  match e with
  | Interrupt => false
  | _ => true
  end.

Inductive Result (A : Type) :=
| Ok (a : A)
| Raise (e : Exn).
Arguments Ok {A} a.
Arguments Raise {A} e.

Definition is_Ok {A} (r : Result A) : bool :=
  match r with
  | Ok _ => true
  | Raise _ => false
  end.

(** [d[k]] on a dict: KeyError when the key is absent. *)
Definition getitem {V} (d : gmap string V) (k : string) : Result V :=
  match d !! k with
  | Some v => Ok v
  | None => Raise KeyError
  end.

(** ** Messages *)

Record Header := { stamp : Z; hdr_frame_id : string }.

(** The three message classes the node publishes.  [Image] and [PointCloud2]
    carry the slots of sensor_msgs. *)
Inductive RosMsg :=
| Image (header : Header) (height width : Z) (encoding : string)
        (is_bigendian : Z) (step : Z) (data : list Z)
| PointCloud2 (header : Header) (height width : Z) (fields : list string)
        (is_bigendian : bool) (point_step row_step : Z) (data : list Z)
        (is_dense : bool)
| Bus (header : Header) (signals : list Z).

(** Python values reachable from a message by attribute access. *)
Inductive PyVal :=
| PyBool (b : bool)
| PyInt (z : Z)
| PyStr (s : string)
| PyBytes (bs : list Z)
| PyStrs (l : list string)
| PyInts (l : list Z)
| PyHeader (h : Header)
| PyMsg (m : RosMsg).

(** The attributes ([__slots__]) of a message object.
    Modelled from the spec: the declaration of a2d2_msgs/Bus is not among the
    sources; the spec describes it as a telemetry record, timestamped and
    frame-tagged, hence a header and the telemetry signals. *)
Definition slots (m : RosMsg) : list (string * PyVal) :=
  match m with
  | Image h ht w enc be st d =>
      [("header", PyHeader h); ("height", PyInt ht); ("width", PyInt w);
       ("encoding", PyStr enc); ("is_bigendian", PyInt be); ("step", PyInt st);
       ("data", PyBytes d)]
  | PointCloud2 h ht w fs be ps rs d dn =>
      [("header", PyHeader h); ("height", PyInt ht); ("width", PyInt w);
       ("fields", PyStrs fs); ("is_bigendian", PyBool be);
       ("point_step", PyInt ps); ("row_step", PyInt rs); ("data", PyBytes d);
       ("is_dense", PyBool dn)]
  | Bus h sg => [("header", PyHeader h); ("signals", PyInts sg)]
  end.

Fixpoint assoc (name : string) (l : list (string * PyVal)) : option PyVal :=
  match l with
  | [] => None
  | (k, v) :: l' => if String.eqb k name then Some v else assoc name l'
  end.

(** [obj.name]: AttributeError when the object has no such attribute. *)
Definition getattr (obj : RosMsg) (name : string) : Result PyVal :=
  match assoc name (slots obj) with
  | Some v => Ok v
  | None => Raise AttributeError
  end.

(** Python truthiness. A message object defines neither [__bool__] nor
    [__len__], so it is always true. *)
Definition truthy (v : PyVal) : bool :=
  match v with
  | PyBool b => b
  | PyInt z => negb (z =? 0)%Z
  | PyStr s => negb (String.eqb s EmptyString)
  | PyBytes bs => negb (bool_decide (bs = []))
  | PyStrs l => negb (bool_decide (l = []))
  | PyInts l => negb (bool_decide (l = []))
  | PyHeader _ => true
  | PyMsg _ => true
  end.

(** ** Requests and manifests *)

Definition BUS_DATA_TYPE : string := "a2d2_msgs/Bus".

Record Request := {
  sensor_id : list string;
  ros_topic : gmap string string;
  data_type : gmap string string;
  frame_id : gmap string string;
  image : option string;
  lidar_view : option string;
  preview : bool
}.

(** A manifest row: a storage locator and a timestamp (for the bus, the
    telemetry row itself). *)
Record Row := { bucket : string; key : string; ts : Z; payload : list Z }.

(** Modelled from the spec: the manifest class lives in [util], which is not
    among the sources.  The spec gives it as an ordered, resumable cursor:
    [is_open()] tells whether there is possibly more data, [fetch()] returns
    the next batch, which may be empty while the cursor is open.  The cursor
    is the list of the outcomes of the fetches still to come; it is open
    while that list is not empty. *)
Definition Manifest := list (Result (list Row)).

(** ** Configuration and calibration data *)

Definition Matrix := list (list spec_float).

(** An entry of [cal_json['cameras']]. *)
Record Camera := {
  CamMatrix : Matrix;
  CamMatrixOriginal : Matrix;
  Distortion : Matrix;
  Lens : string;
  view : Matrix
}.

(** What [__init__] reads once: [config['data_store']['input']] and the
    calibration document ([cal_json['cameras']], [cal_json['vehicle']['view']]). *)
Record Config := {
  data_store_input : string;
  cal_cameras : gmap string Camera;
  cal_vehicle_view : option Matrix
}.

(** ** The node state *)

Record Node := {
  manifests : gmap string Manifest;
  sensor_dict : gmap string (list RosMsg);
  sensor_list : list string;
  sensor_active : gmap string bool;
  sensor_index : nat;
  round_robin : list string;
  request : Request;
  ros_publishers : gmap string string;
  config : Config;
  (* the publish sink: what each sensor's publisher was handed, in order *)
  published : list (string * PyVal);
  (* ghost: the calls that entered the dispatch entry point, in order *)
  submitted : list (string * RosMsg)
}.

Definition set_manifests (f : gmap string Manifest → gmap string Manifest) (st : Node) : Node :=
  {| manifests := f (manifests st); sensor_dict := sensor_dict st;
     sensor_list := sensor_list st; sensor_active := sensor_active st;
     sensor_index := sensor_index st; round_robin := round_robin st;
     request := request st; ros_publishers := ros_publishers st;
     config := config st; published := published st;
     submitted := submitted st |}.

Definition set_sensor_dict (f : gmap string (list RosMsg) → gmap string (list RosMsg)) (st : Node) : Node :=
  {| manifests := manifests st; sensor_dict := f (sensor_dict st);
     sensor_list := sensor_list st; sensor_active := sensor_active st;
     sensor_index := sensor_index st; round_robin := round_robin st;
     request := request st; ros_publishers := ros_publishers st;
     config := config st; published := published st;
     submitted := submitted st |}.

Definition set_sensor_list (f : list string → list string) (st : Node) : Node :=
  {| manifests := manifests st; sensor_dict := sensor_dict st;
     sensor_list := f (sensor_list st); sensor_active := sensor_active st;
     sensor_index := sensor_index st; round_robin := round_robin st;
     request := request st; ros_publishers := ros_publishers st;
     config := config st; published := published st;
     submitted := submitted st |}.

Definition set_sensor_active (f : gmap string bool → gmap string bool) (st : Node) : Node :=
  {| manifests := manifests st; sensor_dict := sensor_dict st;
     sensor_list := sensor_list st; sensor_active := f (sensor_active st);
     sensor_index := sensor_index st; round_robin := round_robin st;
     request := request st; ros_publishers := ros_publishers st;
     config := config st; published := published st;
     submitted := submitted st |}.

Definition set_sensor_index (f : nat → nat) (st : Node) : Node :=
  {| manifests := manifests st; sensor_dict := sensor_dict st;
     sensor_list := sensor_list st; sensor_active := sensor_active st;
     sensor_index := f (sensor_index st); round_robin := round_robin st;
     request := request st; ros_publishers := ros_publishers st;
     config := config st; published := published st;
     submitted := submitted st |}.

Definition set_round_robin (f : list string → list string) (st : Node) : Node :=
  {| manifests := manifests st; sensor_dict := sensor_dict st;
     sensor_list := sensor_list st; sensor_active := sensor_active st;
     sensor_index := sensor_index st; round_robin := f (round_robin st);
     request := request st; ros_publishers := ros_publishers st;
     config := config st; published := published st;
     submitted := submitted st |}.

Definition set_request (f : Request → Request) (st : Node) : Node :=
  {| manifests := manifests st; sensor_dict := sensor_dict st;
     sensor_list := sensor_list st; sensor_active := sensor_active st;
     sensor_index := sensor_index st; round_robin := round_robin st;
     request := f (request st); ros_publishers := ros_publishers st;
     config := config st; published := published st;
     submitted := submitted st |}.

Definition set_ros_publishers (f : gmap string string → gmap string string) (st : Node) : Node :=
  {| manifests := manifests st; sensor_dict := sensor_dict st;
     sensor_list := sensor_list st; sensor_active := sensor_active st;
     sensor_index := sensor_index st; round_robin := round_robin st;
     request := request st; ros_publishers := f (ros_publishers st);
     config := config st; published := published st;
     submitted := submitted st |}.

Definition set_published (f : list (string * PyVal) → list (string * PyVal)) (st : Node) : Node :=
  {| manifests := manifests st; sensor_dict := sensor_dict st;
     sensor_list := sensor_list st; sensor_active := sensor_active st;
     sensor_index := sensor_index st; round_robin := round_robin st;
     request := request st; ros_publishers := ros_publishers st;
     config := config st; published := f (published st);
     submitted := submitted st |}.

Definition set_submitted (f : list (string * RosMsg) → list (string * RosMsg)) (st : Node) : Node :=
  {| manifests := manifests st; sensor_dict := sensor_dict st;
     sensor_list := sensor_list st; sensor_active := sensor_active st;
     sensor_index := sensor_index st; round_robin := round_robin st;
     request := request st; ros_publishers := ros_publishers st;
     config := config st; published := published st;
     submitted := f (submitted st) |}.

(** ** The monad of the node's methods

    A method reads and mutates [self] and either returns or raises; the
    mutations made before an exception stay. *)
Definition M (A : Type) : Type := Node → Result A * Node.

Definition ret {A} (a : A) : M A := λ st, (Ok a, st).

Definition bind {A B} (m : M A) (k : A → M B) : M B := λ st,
  match m st with
  | (Ok a, st') => k a st'
  | (Raise e, st') => (Raise e, st')
  end.

Notation "'let*' x ':=' m 'in' k" := (bind m (λ x, k))
  (at level 10, x name, m at level 100, k at level 200, only parsing).
Notation "'let*' ' pat ':=' m 'in' k" := (bind m (λ x, match x with pat => k end))
  (at level 10, pat pattern, m at level 100, k at level 200, only parsing).

Definition raise {A} (e : Exn) : M A := λ st, (Raise e, st).
Definition lift {A} (r : Result A) : M A := λ st, (r, st).
Definition gets {A} (f : Node → A) : M A := λ st, (Ok (f st), st).
Definition modify (f : Node → Node) : M unit := λ st, (Ok tt, f st).

(** [self.field[k]] *)
Definition lookup_in {V} (field : Node → gmap string V) (k : string) : M V :=
  λ st, (getitem (field st) k, st).

(** [try: body except Exception: log; raise] -- the handler logs and
    re-raises, so the outcome is the body's. *)
Definition try_log_raise {A} (body : M A) : M A := λ st,
  match body st with
  | (Raise e, st') => (Raise e, st')
  | r => r
  end.

(** [try: body except BaseException: log] -- every exception is swallowed. *)
Definition try_log_all (body : M unit) : M unit := λ st,
  match body st with
  | (Raise _, st') => (Ok tt, st')
  | r => r
  end.

(** [try: body except Exception: log] -- only an [Exception] is swallowed. *)
Definition try_log (body : M unit) : M unit := λ st,
  match body st with
  | (Raise e, st') => if is_Exception e then (Ok tt, st') else (Raise e, st')
  | r => r
  end.

(** A list comprehension [[k for k in ks if cond(k)]] whose condition may
    raise. *)
Fixpoint comprehension (cond : string → M bool) (ks : list string) : M (list string) :=
  match ks with
  | [] => ret []
  | k :: ks' =>
      let* b := cond k in
      let* r := comprehension cond ks' in
      ret (if b then k :: r else r)
  end.

(** [d.keys()]; every use below takes the length of a comprehension over
    the keys or asks whether it is empty, so their order is immaterial. *)
Definition keys {V} (d : gmap string V) : list string := (map_to_list d).*1.

Definition nonempty {A} (l : list A) : bool :=
  match l with
  | [] => false
  | _ :: _ => true
  end.

(** ** The dispatcher *)

(** [__is_sensor_alive]: [self.sensor_dict[sensor] or self.sensor_active[sensor]] *)
Definition is_sensor_alive (sensor : string) : M bool :=
  let* q := lookup_in sensor_dict sensor in
  if nonempty q then ret true
  else lookup_in sensor_active sensor.

(** [__is_bus_sensor] *)
Definition is_bus_sensor (sensor : string) : M bool :=
  let* t := lookup_in (λ st, data_type (request st)) sensor in
  ret (String.eqb t BUS_DATA_TYPE).

(** The skip test of the scan:
    [_sensor in self.round_robin and any([True for k in
     self.sensor_active.keys() if k not in self.round_robin and
     self.__is_sensor_alive(k)])] *)
Definition skip_test (_sensor : string) : M bool :=
  let* rr := gets round_robin in
  if bool_decide (_sensor ∈ rr) then
    let* ks := gets (λ st, keys (sensor_active st)) in
    let* hits := comprehension
              (λ k, if bool_decide (k ∈ rr) then ret false else is_sensor_alive k)
              ks in
    ret (nonempty hits)
  else ret false.

(** [self.sensor_index = (self.sensor_index + 1) % _nsensors;
     _sensor = self.sensor_list[self.sensor_index]] *)
Definition next_sensor (_nsensors : nat) : M string :=
  let* _ := modify (set_sensor_index (λ i, (i + 1) mod _nsensors)) in
  let* o := gets (λ st, sensor_list st !! sensor_index st) in
  match o with
  | None => raise IndexError
  | Some _sensor => ret _sensor
  end.

(** The [for _ in self.sensor_list] loop of [__round_robin_sensor]; the list
    is not mutated by the loop, so the body runs once per element. *)
Fixpoint scan (_nsensors : nat) (iters : list string) : M (option string * option RosMsg) :=
  match iters with
  | [] => ret (None, None)
  | _ :: iters' =>
      let* _sensor := next_sensor _nsensors in
      let* skip := skip_test _sensor in
      if skip then scan _nsensors iters'
      else
        let* q := lookup_in sensor_dict _sensor in
        match q with
        | msg :: rest =>
            let* _ := modify (set_sensor_dict <[_sensor := rest]>) in
            ret (Some _sensor, Some msg)
        | [] => scan _nsensors iters'
        end
  end.

(** [__round_robin_sensor] *)
Definition round_robin_sensor (sensor : string) (msg : RosMsg)
  : M (option string * option RosMsg) :=
  let* q := lookup_in sensor_dict sensor in
  let* _ := modify (set_sensor_dict <[sensor := q ++ [msg] ]>) in
  let* sl := gets sensor_list in
  scan (length sl) sl.

(** [self.ros_publishers[sensor].publish(msg)] *)
Definition publish (sensor : string) (msg : PyVal) : M unit :=
  let* _ := lookup_in ros_publishers sensor in
  modify (set_published (λ l, l ++ [(sensor, msg)])).

(** [if sensor and msg: self.ros_publishers[sensor].publish(msg)], where
    each of the two locals is [None] or a value. *)
Definition publish_if_set (sensor : option string) (msg : option PyVal) : M unit :=
  match sensor, msg with
  | Some s, Some v => if truthy (PyStr s) && truthy v then publish s v else ret tt
  | _, _ => ret tt
  end.

(** [__publish_ros_msg] *)
Definition publish_ros_msg (sensor : string) (msg : RosMsg) : M unit :=
  let* _ := modify (set_submitted (λ l, l ++ [(sensor, msg)])) in
  try_log_raise (
    let* '(sensor', msg') := round_robin_sensor sensor msg in
    let* _ := publish_if_set sensor' (PyMsg <$> msg') in
    let* ks := gets (λ st, keys (sensor_active st)) in
    let* sensors := comprehension
                 (λ k, let* b := is_bus_sensor k in
                       if b then ret false else is_sensor_alive k)
                 ks in
    let* rr := gets round_robin in
    if (length sensors <=? length rr) && nonempty rr
    then modify (set_round_robin (drop 1))
    else ret tt).

(** ** The flusher *)

(** The [for _ in range(_nsensors)] loop of [__flush_sensors], with the
    locals [msg], [sensor] and [_nsensors_flushed] that live across the
    iterations. *)
Fixpoint flush_loop (_nsensors iters : nat) (msg : option PyVal)
    (sensor : option string) (_nsensors_flushed : nat) : M unit :=
  match iters with
  | O => ret tt
  | S iters' =>
      let* _sensor := next_sensor _nsensors in
      let* q := lookup_in sensor_dict _sensor in
      let* '(msg1, sensor1, flushed1) :=
        match q with
        | front :: rest =>
            let* _ := modify (set_sensor_dict <[_sensor := rest]>) in
            let* v := lift (getattr front "msg") in
            ret (Some v, Some _sensor, _nsensors_flushed)
        | [] => ret (msg, sensor, S _nsensors_flushed)
        end in
      let* _ := publish_if_set sensor1 msg1 in
      if _nsensors =? flushed1 then ret tt
      else flush_loop _nsensors iters' msg1 sensor1 flushed1
  end.

(** [__flush_sensors] *)
Definition flush_sensors : M unit :=
  try_log_raise (
    let* _nsensors := gets (λ st, length (sensor_list st)) in
    flush_loop _nsensors _nsensors None None 0).

(** ** The sensor workers *)

(** Decoded data: an image matrix, a loaded point-cloud archive, the parsed
    points (rows of coordinates) and their reflectance. *)
Definition Mat := list (list Z).
Definition Npz := list Z.
Definition Points := list (list spec_float).
Definition Reflectance := list spec_float.

(** [lens, dist_parms, intr_mat_dist, intr_mat_undist] *)
Definition CameraInfo : Type := string * Matrix * Matrix * Matrix.

(** The collaborators of the node whose code is outside this module
    ([util], [view], [ros_util], [s3_reader], OpenCV, NumPy, [os]).  Each is
    a function that returns or raises.  The object-store prefetch pipeline
    (request queue, reader process, response queue) is represented by
    [s3_get]: the scratch path answering the next locator of the batch, that
    is [resp.get(block=True).split(" ", 1)[0]].  [cv2_imread] stands for
    [cv2.imread]; the module never imports [cv2], so there the call raises,
    which is one of the behaviours the parameter covers. *)
Class Collaborators := {
  create_manifest : Request → string → Result Manifest;
  get_data_class : string → Result unit;
  read_images_from_fs : list Row → Result (list (Mat * Z));
  read_pcl_from_fs : list Row → Result (list (Npz * Z));
  s3_get : Row → Result string;
  cv2_imread : string → Result Mat;
  np_load : string → Result Npz;
  os_remove : string → Result unit;
  undistort_image : Mat → CameraInfo → Result Mat;
  cv2_to_imgmsg : Mat → Result RosMsg;
  set_ros_msg_header : RosMsg → Z → string → Result RosMsg;
  transform_from_to : Matrix → Matrix → Result Matrix;
  parse_pcl_npz : Npz → string → option Matrix → Result (Points * Reflectance);
  pcl_dense_msg : Points → Reflectance → Z → string → Result RosMsg;
  bus_msg : Row → string → Result RosMsg
}.

(** [np.isnan(points).any()] *)
Definition is_nan (x : spec_float) : bool :=
  match x with
  | S754_nan => true
  | _ => false
  end.

Definition isnan_any (points : Points) : bool := existsb (existsb is_nan) points.

(** [sensor.rsplit("/", 1)[1]]: the part after the last slash; IndexError
    when the name has no slash. *)
Fixpoint after_last_slash (s : string) : option string :=
  match s with
  | EmptyString => None
  | String c s' =>
      match after_last_slash s' with
      | Some t => Some t
      | None => if Ascii.eqb c "/"%char then Some s' else None
      end
  end.

Definition rsplit_1 (sensor : string) : Result string :=
  match after_last_slash sensor with
  | Some t => Ok t
  | None => Raise IndexError
  end.

(** A [for x in xs] loop whose body may raise. *)
Fixpoint for_each {A} (body : A → M unit) (xs : list A) : M unit :=
  match xs with
  | [] => ret tt
  | x :: xs' => let* _ := body x in for_each body xs'
  end.

(** The loop every worker runs over its manifest:
    [[
    while True:
        files = None
        while not files and manifest.is_open():
            files = manifest.fetch()
        if not files:
            break
        <process files>
        if self.request['preview']:
            break
    ]]
    The cursor [manifest] is the object stored at [self.manifests[sensor]];
    a fetch consumes its head and the store sees it.  A closed cursor leaves
    [files] empty and ends the loop; an empty batch from an open cursor makes
    the inner loop fetch again; a batch with rows is processed and, unless
    the request is a preview, the outer loop starts over. *)
Fixpoint manifest_loop (process : list Row → M unit) (sensor : string)
    (manifest : Manifest) : M unit :=
  match manifest with
  | [] => ret tt
  | outcome :: rest =>
      let* _ := modify (set_manifests <[sensor := rest]>) in
      let* files := lift outcome in
      if nonempty files then
        let* _ := process files in
        let* p := gets (λ st, preview (request st)) in
        if p then ret tt else manifest_loop process sensor rest
      else manifest_loop process sensor rest
  end.

Section Workers.
Context `{Collaborators}.

(** [__publish_image_msg] *)
Definition publish_image_msg (sensor : string) (image : Mat) (image_ts : Z)
    (frame : string) : M unit :=
  try_log_all (
    let* ros_image_msg := lift (cv2_to_imgmsg image) in
    let* ros_image_msg := lift (set_ros_msg_header ros_image_msg image_ts frame) in
    publish_ros_msg sensor ros_image_msg).

(** [__get_camera_info] *)
Definition get_camera_info (sensor : string) : M CameraInfo :=
  let* cam_name := lift (rsplit_1 sensor) in
  let* cam := lookup_in (λ st, cal_cameras (config st)) cam_name in
  ret (Lens cam, Distortion cam, CamMatrixOriginal cam, CamMatrix cam).

(** [RosUtil.undistort_image(...) if image_request == "undistorted" else
    image_data]; the camera parameters are bound exactly when the request
    asks for undistorted images. *)
Definition requested_image (info : option CameraInfo) (image_data : Mat) : M Mat :=
  match info with
  | Some i => lift (undistort_image image_data i)
  | None => ret image_data
  end.

(** The camera parameters, fetched once per sensor when
    [self.request.get("image", "original") == "undistorted"]. *)
Definition camera_info_if_undistorted (sensor : string) : M (option CameraInfo) :=
  let* image_request := gets (λ st, default "original" (image (request st))) in
  if String.eqb image_request "undistorted"
  then let* i := get_camera_info sensor in ret (Some i)
  else ret None.

(** [__publish_images_from_fs] *)
Definition publish_images_from_fs (manifest : Manifest) (sensor frame : string) : M unit :=
  let* info := camera_info_if_undistorted sensor in
  let* _ := manifest_loop (λ files,
      let* images := lift (read_images_from_fs files) in
      for_each (λ '(image_data, image_ts),
          let* image := requested_image info image_data in
          publish_image_msg sensor image image_ts frame) images)
    sensor manifest in
  modify (set_sensor_active <[sensor := false]>).

(** [__process_s3_image_files] *)
Definition process_s3_image_files (sensor : string) (files : list Row)
    (frame : string) (info : option CameraInfo) : M unit :=
  for_each (λ f,
    try_log_all (
      let* path := lift (s3_get f) in
      let* image_data := lift (cv2_imread path) in
      let* image := requested_image info image_data in
      let* _ := publish_image_msg sensor image (ts f) frame in
      lift (os_remove path))) files.

(** [__publish_images_from_s3] *)
Definition publish_images_from_s3 (manifest : Manifest) (sensor frame : string) : M unit :=
  let* info := camera_info_if_undistorted sensor in
  let* _ := manifest_loop (λ files,
      process_s3_image_files sensor files frame info)
    sensor manifest in
  modify (set_sensor_active <[sensor := false]>).

(** [__publish_pcl_msg] *)
Definition publish_pcl_msg (sensor : string) (points : Points)
    (reflectance : Reflectance) (pcl_ts : Z) (frame : string) : M unit :=
  try_log_all (
    let* ros_pcl_msg := lift (pcl_dense_msg points reflectance pcl_ts frame) in
    publish_ros_msg sensor ros_pcl_msg).

(** [__sensor_to_vehicle_matrix] *)
Definition sensor_to_vehicle_matrix (sensor : string) : M Matrix :=
  let* cam_name := lift (rsplit_1 sensor) in
  let* cam := lookup_in (λ st, cal_cameras (config st)) cam_name in
  let* vehicle := gets (λ st, cal_vehicle_view (config st)) in
  match vehicle with
  | Some v => lift (transform_from_to (view cam) v)
  | None => raise KeyError
  end.

(** [lidar_view = self.request.get("lidar_view", "camera")] and
    [vehicle_transform_matrix = self.__sensor_to_vehicle_matrix(sensor) if
     lidar_view == "vehicle" else None] *)
Definition lidar_view_and_matrix (sensor : string) : M (string * option Matrix) :=
  let* lv := gets (λ st, default "camera" (lidar_view (request st))) in
  if String.eqb lv "vehicle"
  then let* m := sensor_to_vehicle_matrix sensor in ret (lv, Some m)
  else ret (lv, None).

(** The NaN policy shared by both point-cloud paths:
    [if not np.isnan(points).any(): self.__publish_pcl_msg(...)] *)
Definition publish_pcl_unless_nan (sensor : string) (points : Points)
    (reflectance : Reflectance) (pcl_ts : Z) (frame : string) : M unit :=
  if negb (isnan_any points)
  then publish_pcl_msg sensor points reflectance pcl_ts frame
  else ret tt.

(** The body of the per-file loop of [__process_s3_pcl_files], inside its
    [try]. *)
Definition s3_pcl_record (sensor : string) (f : Row) (frame lv : string)
    (vehicle_transform_matrix : option Matrix) : M unit :=
  let* path := lift (s3_get f) in
  let* npz := lift (np_load path) in
  let* '(points, reflectance) := lift (parse_pcl_npz npz lv vehicle_transform_matrix) in
  let* _ := publish_pcl_unless_nan sensor points reflectance (ts f) frame in
  lift (os_remove path).

(** [__process_s3_pcl_files] *)
Definition process_s3_pcl_files (sensor : string) (files : list Row)
    (frame lv : string) (vehicle_transform_matrix : option Matrix) : M unit :=
  for_each (λ f,
    try_log_all (s3_pcl_record sensor f frame lv vehicle_transform_matrix)) files.

(** [__publish_pcl_from_s3] *)
Definition publish_pcl_from_s3 (manifest : Manifest) (sensor frame : string) : M unit :=
  let* '(lv, vehicle_transform_matrix) := lidar_view_and_matrix sensor in
  let* _ := manifest_loop (λ files,
      process_s3_pcl_files sensor files frame lv vehicle_transform_matrix)
    sensor manifest in
  modify (set_sensor_active <[sensor := false]>).

(** The body of the per-cloud loop of [__publish_pcl_from_fs]; no [try]
    surrounds it. *)
Definition fs_pcl_record (sensor : string) (npz : Npz) (pcl_ts : Z)
    (frame lv : string) (vehicle_transform_matrix : option Matrix) : M unit :=
  let* '(points, reflectance) := lift (parse_pcl_npz npz lv vehicle_transform_matrix) in
  publish_pcl_unless_nan sensor points reflectance pcl_ts frame.

(** [__publish_pcl_from_fs] *)
Definition publish_pcl_from_fs (manifest : Manifest) (sensor frame : string) : M unit :=
  let* '(lv, vehicle_transform_matrix) := lidar_view_and_matrix sensor in
  let* _ := manifest_loop (λ files,
      let* clouds := lift (read_pcl_from_fs files) in
      for_each (λ '(npz, pcl_ts),
          fs_pcl_record sensor npz pcl_ts frame lv vehicle_transform_matrix) clouds)
    sensor manifest in
  modify (set_sensor_active <[sensor := false]>).

(** [__publish_images] *)
Definition publish_images (manifest : Manifest) (sensor frame : string) : M unit :=
  let* input := gets (λ st, data_store_input (config st)) in
  if negb (String.eqb input "s3")
  then publish_images_from_fs manifest sensor frame
  else publish_images_from_s3 manifest sensor frame.

(** [__publish_pcl] *)
Definition publish_pcl (manifest : Manifest) (sensor frame : string) : M unit :=
  let* input := gets (λ st, data_store_input (config st)) in
  if negb (String.eqb input "s3")
  then publish_pcl_from_fs manifest sensor frame
  else publish_pcl_from_s3 manifest sensor frame.

(** [__publish_bus] *)
Definition publish_bus (manifest : Manifest) (sensor frame : string) : M unit :=
  let* _ := manifest_loop (λ rows,
      for_each (λ row,
        try_log_all (
          let* ros_msg := lift (bus_msg row frame) in
          publish_ros_msg sensor ros_msg)) rows)
    sensor manifest in
  modify (set_sensor_active <[sensor := false]>).

(** [__publish_sensor], the target of a sensor's thread *)
Definition publish_sensor (manifest : Manifest) (sensor frame : string) : M unit :=
  try_log (
    let* t := lookup_in (λ st, data_type (request st)) sensor in
    if String.eqb t "sensor_msgs/Image" then publish_images manifest sensor frame
    else if String.eqb t "sensor_msgs/PointCloud2" then publish_pcl manifest sensor frame
    else if String.eqb t BUS_DATA_TYPE then publish_bus manifest sensor frame
    else ret tt).

(** ** The session controller *)

(** The body of [for sensor in sensors] in [init_request]. *)
Definition init_sensor (req : Request) (sensor : string) : M unit :=
  let* m := lift (create_manifest req sensor) in
  let* _ := modify (set_manifests <[sensor := m]>) in
  let* _ := modify (set_sensor_dict <[sensor := []]>) in
  let* _ := modify (set_sensor_list (λ l, l ++ [sensor])) in
  modify (set_sensor_active <[sensor := true]>).

(** [init_request] *)
Definition init_request (req : Request) : M unit :=
  let* _ := modify (set_manifests (λ _, ∅)) in
  let* _ := modify (set_sensor_dict (λ _, ∅)) in
  let* _ := modify (set_sensor_list (λ _, [])) in
  let* _ := modify (set_sensor_active (λ _, ∅)) in
  let* _ := modify (set_sensor_index (λ _, 0)) in
  let* _ := modify (set_round_robin (λ _, [])) in
  let* _ := modify (set_request (λ _, req)) in
  let* _ := for_each (init_sensor req) (sensor_id req) in
  modify (set_ros_publishers (λ _, ∅)).

(** The body of the first loop of [__handle_request]: the lookups of the
    sensor's manifest, data type and topic, and the creation of its
    publisher; the sensor's thread is started at the end of the body. *)
Definition start_sensor (req : Request) (sensor : string) : M unit :=
  let* _ := lookup_in manifests sensor in
  let* t := lift (getitem (data_type req) sensor) in
  let* topic := lift (getitem (ros_topic req) sensor) in
  let* _ := lift (get_data_class t) in
  modify (set_ros_publishers <[sensor := topic]>).

Definition start_sensors : M unit :=
  let* req := gets request in
  for_each (start_sensor req) (sensor_id req).

(** What a worker thread does to the node, one atomic step at a time: it
    fetches from its manifest, it submits a message through the dispatch
    entry point (always from inside a [try ... except BaseException] of the
    caller), and it marks its sensor inactive. *)
Inductive Step :=
| Fetched (sensor : string) (rest : Manifest)
| Submit (sensor : string) (msg : RosMsg)
| Inactive (sensor : string).

Definition step_sensor (s : Step) : string :=
  match s with
  | Fetched sensor _ => sensor
  | Submit sensor _ => sensor
  | Inactive sensor => sensor
  end.

Definition run_step (s : Step) : M unit :=
  match s with
  | Fetched sensor rest => modify (set_manifests <[sensor := rest]>)
  | Submit sensor msg => try_log_all (publish_ros_msg sensor msg)
  | Inactive sensor => modify (set_sensor_active <[sensor := false]>)
  end.

(** The messages a schedule submits, in order. *)
Fixpoint submissions (schedule : list Step) : list (string * RosMsg) :=
  match schedule with
  | [] => []
  | Submit sensor msg :: rest => (sensor, msg) :: submissions rest
  | _ :: rest => submissions rest
  end.

(** [__handle_request], with the worker threads serialized: between their
    start and the join of the last one the node goes through [schedule], an
    interleaving of the steps of all workers.  Every publisher is created
    before the schedule runs; in the source a thread starts right after its
    own publisher exists, and a sensor has queued messages only once its
    thread has started. *)
Definition handle_request (req : Request) (schedule : list Step) : M unit :=
  try_log (
    let* _ := init_request req in
    let* _ := start_sensors in
    let* _ := for_each run_step schedule in
    flush_sensors).

End Workers.

(** ** Specification-side definitions *)

(** A sensor is alive iff it has queued messages or its active flag is
    true. *)
Definition alive_b (st : Node) (k : string) : bool :=
  match sensor_dict st !! k with
  | Some (_ :: _) => true
  | _ => default false (sensor_active st !! k)
  end.

(** A sensor is a telemetry (bus) sensor iff its requested data type is the
    bus type. *)
Definition bus_b (st : Node) (k : string) : bool :=
  match data_type (request st) !! k with
  | Some t => String.eqb t BUS_DATA_TYPE
  | None => false
  end.



(** ** Concrete data for the examples *)

Definition hdr0 : Header := {| stamp := 0; hdr_frame_id := "map" |}.
Definition img_a : RosMsg := Image hdr0 1 1 "bgr8" 0 3 [1; 2; 3]%Z.
Definition img_b : RosMsg := Image hdr0 1 1 "bgr8" 0 3 [4; 5; 6]%Z.
Definition bus_a : RosMsg := Bus hdr0 [7]%Z.

Definition req_cam_bus : Request :=
  {| sensor_id := ["cam/front"; "bus"];
     ros_topic := {["cam/front" := "/a2d2/cam"; "bus" := "/a2d2/bus"]};
     data_type := {["cam/front" := "sensor_msgs/Image"; "bus" := BUS_DATA_TYPE]};
     frame_id := ∅; image := None; lidar_view := None; preview := false |}.

Definition cfg_fs : Config :=
  {| data_store_input := "fs"; cal_cameras := ∅; cal_vehicle_view := None |}.

(** A node before any request. *)
Definition node0 : Node :=
  {| manifests := ∅; sensor_dict := ∅; sensor_list := []; sensor_active := ∅;
     sensor_index := 0; round_robin := []; request := req_cam_bus;
     ros_publishers := ∅; config := cfg_fs; published := []; submitted := [] |}.


(** Plain cursor-order selection: advance the cursor once per sensor slot
    and take the oldest message of the first sensor whose queue is not
    empty; no skip rule. *)
Fixpoint plain_scan (_nsensors : nat) (iters : list string)
  : M (option string * option RosMsg) :=
  match iters with
  | [] => ret (None, None)
  | _ :: iters' =>
      let* _sensor := next_sensor _nsensors in
      let* q := lookup_in sensor_dict _sensor in
      match q with
      | msg :: rest =>
          let* _ := modify (set_sensor_dict <[_sensor := rest]>) in
          ret (Some _sensor, Some msg)
      | [] => plain_scan _nsensors iters'
      end
  end.

(** A property of the node state that a method keeps, whether it returns or
    raises. *)
Definition preserves (P : Node → Prop) {A} (m : M A) : Prop :=
  ∀ st, P st → P (snd (m st)).

(** The dispatcher states of a session: the state [init_request] leaves
    (from whatever the node held before, and even when it raises half way),
    and every state reached from there by the methods of the node. *)
Inductive reachable `{Collaborators} : Node → Prop :=
| reach_init req st0 :
    reachable (snd (init_request req st0))
| reach_start st :
    reachable st → reachable (snd (start_sensors st))
| reach_step s st :
    reachable st → reachable (snd (run_step s st))
| reach_scan sensor msg st :
    reachable st → reachable (snd (round_robin_sensor sensor msg st))
| reach_submit sensor msg st :
    reachable st → reachable (snd (publish_ros_msg sensor msg st))
| reach_worker manifest sensor frame st :
    reachable st → reachable (snd (publish_sensor manifest sensor frame st))
| reach_flush st :
    reachable st → reachable (snd (flush_sensors st)).

(** Rows, clouds and collaborators for the examples.  A point-cloud archive
    is decoded from its content: an empty archive is corrupt and its parse
    raises, an archive starting with 0 holds a NaN coordinate, any other
    holds one finite point.  The first row points to a corrupt archive, the
    second to a cloud with a NaN, the third to a clean cloud. *)
Definition row1 : Row := {| bucket := "b"; key := "k1"; ts := 1; payload := [] |}.
Definition row2 : Row := {| bucket := "b"; key := "k2"; ts := 2; payload := [0]%Z |}.
Definition row3 : Row := {| bucket := "b"; key := "k3"; ts := 3; payload := [1]%Z |}.

Definition one : spec_float := S754_finite false 1 0.

Definition example_parse (npz : Npz) : Result (Points * Reflectance) :=
  match npz with
  | [] => Raise (Failure "corrupt archive")
  | 0%Z :: _ => Ok ([[one; S754_nan; one]], [one])
  | _ => Ok ([[one; one; one]], [one])
  end.

Definition cloud_msg (pcl_ts : Z) (frame : string) : RosMsg :=
  PointCloud2 {| stamp := pcl_ts; hdr_frame_id := frame |} 1 1 ["x"; "y"; "z"; "r"]
    false 16 16 [1; 1; 1; 1]%Z true.

Definition telemetry_msg (row : Row) (frame : string) : RosMsg :=
  Bus {| stamp := ts row; hdr_frame_id := frame |} (payload row).

Definition example_manifest : Manifest :=
  [Ok []; Ok [row1; row2; row3]; Ok []; Ok [row3]].

(** A manifest whose second fetch fails. *)
Definition failing_manifest : Manifest :=
  [Ok [row3]; Raise (Failure "database"); Ok [row3]].

Definition example_collaborators : Collaborators :=
  {| create_manifest := λ _ _, Ok example_manifest;
     get_data_class := λ _, Ok tt;
     read_images_from_fs := λ files, Ok ((λ f, ([payload f], ts f)) <$> files);
     read_pcl_from_fs := λ files, Ok ((λ f, (payload f, ts f)) <$> files);
     s3_get := λ f, Ok ("/tmp/" +:+ key f);
     cv2_imread := λ _, Ok [[0%Z]];
     np_load := λ path,
       if String.eqb path "/tmp/k1" then Ok []
       else if String.eqb path "/tmp/k2" then Ok [0%Z]
       else Ok [1%Z];
     os_remove := λ _, Ok tt;
     undistort_image := λ m _, Ok m;
     cv2_to_imgmsg := λ m, Ok (Image hdr0 1 1 "bgr8" 0 1 (concat m));
     set_ros_msg_header := λ m _ _, Ok m;
     transform_from_to := λ _ _, Ok [];
     parse_pcl_npz := λ npz _ _, example_parse npz;
     pcl_dense_msg := λ _ _ pcl_ts frame, Ok (cloud_msg pcl_ts frame);
     bus_msg := λ row frame, Ok (telemetry_msg row frame) |}.

(** A lidar request, and the node right after its session has started, for
    a given storage mode. *)
Definition req_lidar : Request :=
  {| sensor_id := ["lidar/front"];
     ros_topic := {["lidar/front" := "/a2d2/lidar"]};
     data_type := {["lidar/front" := "sensor_msgs/PointCloud2"]};
     frame_id := ∅; image := None; lidar_view := None; preview := false |}.

Definition req_lidar_preview : Request :=
  {| sensor_id := ["lidar/front"];
     ros_topic := {["lidar/front" := "/a2d2/lidar"]};
     data_type := {["lidar/front" := "sensor_msgs/PointCloud2"]};
     frame_id := ∅; image := None; lidar_view := None; preview := true |}.

Definition started (req : Request) (input : string) : Node :=
  snd ((let* _ := @init_request example_collaborators req in
        @start_sensors example_collaborators)
       {| manifests := ∅; sensor_dict := ∅; sensor_list := []; sensor_active := ∅;
          sensor_index := 0; round_robin := []; request := req;
          ros_publishers := ∅;
          config := {| data_store_input := input; cal_cameras := ∅;
                       cal_vehicle_view := None |};
          published := []; submitted := [] |}).

(** The state of a running session between two serialized dispatch calls:
    the skip set is empty, every queue is empty, every listed sensor has a
    queue, a publisher and a data type, and every flagged sensor is listed. *)
Record session_inv (st : Node) : Prop := {
  inv_skip_set : round_robin st = [];
  inv_queues_empty : ∀ k q, sensor_dict st !! k = Some q → q = [];
  inv_listed : ∀ s, s ∈ sensor_list st →
    is_Some (sensor_dict st !! s) ∧ is_Some (ros_publishers st !! s) ∧
    is_Some (data_type (request st) !! s);
  inv_flagged : ∀ k, is_Some (sensor_active st !! k) → k ∈ sensor_list st
}.

(** What a submitted message looks like in the publish sink. *)
Definition as_published (sm : string * RosMsg) : string * PyVal :=
  (sm.1, PyMsg sm.2).

(** The number of messages waiting in the queues of the listed sensors. *)
Definition queued (st : Node) : nat :=
  map_fold (λ _ q n, length q + n) 0 (sensor_dict st).

Definition skip_set_empty (st : Node) : Prop := round_robin st = [].

(** A state property that the writes of the dispatcher and of the flusher
    keep: the cursor, the queues, the sink and the pop of the skip set. *)
Record dispatch_stable (P : Node → Prop) : Prop := {
  stable_index : ∀ f st, P st → P (set_sensor_index f st);
  stable_dict : ∀ f st, P st → P (set_sensor_dict f st);
  stable_published : ∀ f st, P st → P (set_published f st);
  stable_pop : ∀ st, P st → P (set_round_robin (drop 1) st)
}.

(** What the loop of [init_request] keeps true while it builds the
    per-sensor state for the request [req]. *)
Record init_inv (req : Request) (log : list (string * PyVal)) (st : Node) : Prop := {
  init_skip_set : round_robin st = [];
  init_queues_empty : ∀ k q, sensor_dict st !! k = Some q → q = [];
  init_listed : ∀ s, s ∈ sensor_list st → is_Some (sensor_dict st !! s);
  init_flagged : ∀ k, is_Some (sensor_active st !! k) → k ∈ sensor_list st;
  init_request_eq : request st = req;
  init_published : published st = log
}.

(** The session starts: [init_request] and the publisher loop of
    [__handle_request] return without raising. *)
Definition session_starts `{Collaborators} (req : Request) (st0 : Node) : bool :=
  is_Ok (fst ((let* _ := init_request req in start_sensors) st0)).

(** The state of a session after its start and a serialized schedule of
    worker steps. *)
Definition session_state `{Collaborators} (req : Request) (schedule : list Step)
    (st0 : Node) : Node :=
  snd ((let* _ := init_request req in
        let* _ := start_sensors in
        for_each run_step schedule) st0).

(** A method acts on the node like a sequence of steps of one sensor's
    worker. *)
Definition stepwise (sensor : string) {A} (m : M A) : Prop :=
  ∀ st, ∃ steps, Forall (λ s, step_sensor s = sensor) steps ∧
                 snd (m st) = snd (for_each run_step steps st).

Definition example_schedule : list Step :=
  [Submit "cam/front" img_a; Fetched "bus" []; Submit "bus" bus_a;
   Submit "cam/front" img_b; Inactive "bus"; Inactive "cam/front"].

(** A node at flush time with two images still queued for the camera. *)
Definition node_two_queued : Node :=
  {| manifests := ∅;
     sensor_dict := {["cam/front" := [img_a; img_b]; "bus" := []]};
     sensor_list := ["cam/front"; "bus"];
     sensor_active := {["cam/front" := false; "bus" := false]};
     sensor_index := 0; round_robin := []; request := req_cam_bus;
     ros_publishers := {["cam/front" := "/a2d2/cam"; "bus" := "/a2d2/bus"]};
     config := cfg_fs; published := []; submitted := [] |}.

(** The fetch outcomes that are batches with rows: the batches a worker
    processes. *)
Definition has_rows (outcome : Result (list Row)) : bool :=
  match outcome with
  | Ok (_ :: _) => true
  | _ => false
  end.

Definition batches_with_rows (consumed : Manifest) : nat :=
  length (List.filter has_rows consumed).

(** Running [m] on the cursor [manifest] of [sensor] consumes a prefix of
    the cursor with at most one batch to process, and a normal return leaves
    the sensor inactive. *)
Definition at_most_one_batch (sensor : string) (manifest : Manifest)
    (m : M unit) (st : Node) : Prop :=
  ∃ consumed rest,
    manifest = consumed ++ rest ∧
    manifests (snd (m st)) !! sensor = Some rest ∧
    batches_with_rows consumed ≤ 1 ∧
    (fst (m st) = Ok tt → sensor_active (snd (m st)) !! sensor = Some false).

(** The five worker loops. *)
Inductive WorkerLoop :=
| ImagesFromFs
| ImagesFromS3
| PclFromFs
| PclFromS3
| BusRows.

Definition worker_loop `{Collaborators} (w : WorkerLoop)
  : Manifest → string → string → M unit :=
  match w with
  | ImagesFromFs => publish_images_from_fs
  | ImagesFromS3 => publish_images_from_s3
  | PclFromFs => publish_pcl_from_fs
  | PclFromS3 => publish_pcl_from_s3
  | BusRows => publish_bus
  end.

(** The manifest cursor and the request, which only the worker's own fetch
    and the session start write. *)
Definition frame (ms : gmap string Manifest) (req : Request) (st : Node) : Prop :=
  manifests st = ms ∧ request st = req.

(** ** Further specification-side definitions *)

(** A method that only reads the node, and whose only failure is a missing
    key. *)
Definition reads_only {A} (m : M A) : Prop :=
  ∀ st, snd (m st) = st ∧ ∀ e, fst (m st) = Raise e → e = KeyError.

(** What a scan may do to a node: hand back nothing and move only the
    cursor; hand back a sensor together with the oldest message of its queue,
    remove exactly that message and stop the cursor on a slot of that sensor;
    or fail on a missing key after moving only the cursor. *)
Definition scan_outcome (st : Node)
    (r : Result (option string * option RosMsg) * Node) : Prop :=
  match r with
  | (Ok (Some s, Some m), st') =>
      ∃ rest i, sensor_dict st !! s = Some (m :: rest) ∧
                st' = set_sensor_dict <[s := rest]> (set_sensor_index (λ _, i) st) ∧
                sensor_list st !! i = Some s
  | (Ok (None, None), st') => ∃ i, st' = set_sensor_index (λ _, i) st
  | (Ok _, _) => False
  | (Raise e, st') => e = KeyError ∧ ∃ i, st' = set_sensor_index (λ _, i) st
  end.

(** The last two statements of [__publish_ros_msg], as a method of their
    own: the count of live non-telemetry sensors and the guarded pop of the
    skip set. *)
Definition evict_when_cycle_done : M unit :=
  let* ks := gets (λ st, keys (sensor_active st)) in
  let* sensors := comprehension
               (λ k, let* b := is_bus_sensor k in
                     if b then ret false else is_sensor_alive k)
               ks in
  let* rr := gets round_robin in
  if (length sensors <=? length rr) && nonempty rr
  then modify (set_round_robin (drop 1))
  else ret tt.

(** The state properties a worker of [sensor] keeps: those the dispatcher
    keeps, that also survive the record of a dispatch call, a fetch on the
    sensor's own cursor and the inactive mark of the sensor itself. *)
Record worker_stable (sensor : string) (P : Node → Prop) : Prop := {
  worker_dispatch : dispatch_stable P;
  worker_submitted : ∀ f st, P st → P (set_submitted f st);
  worker_fetch : ∀ rest st, P st → P (set_manifests <[sensor := rest]> st);
  worker_inactive : ∀ st, P st → P (set_sensor_active <[sensor := false]> st)
}.

(** Between two states, what belongs to the other sensors and to the
    session as a whole is the same: the sensor list, the request, the
    publishers, the configuration, and the cursor and active flag of every
    sensor but [sensor]. *)
Definition others_untouched (sensor : string) (st0 st : Node) : Prop :=
  sensor_list st = sensor_list st0 ∧
  request st = request st0 ∧
  ros_publishers st = ros_publishers st0 ∧
  config st = config st0 ∧
  ∀ k, k ≠ sensor →
       manifests st !! k = manifests st0 !! k ∧
       sensor_active st !! k = sensor_active st0 !! k.

(** The submission a bus row gives rise to: its message, when the
    conversion returns one. *)
Definition bus_row_submission `{Collaborators} (sensor frame_of : string)
    (row : Row) : option (string * RosMsg) :=
  match bus_msg row frame_of with
  | Ok ros_msg => Some (sensor, ros_msg)
  | Raise _ => None
  end.

(** What the bus worker submits on a manifest, read off the manifest alone:
    the rows that convert, batch after batch, up to the first failing fetch,
    and for a preview only up to the first batch with rows. *)
Fixpoint bus_submissions `{Collaborators} (is_preview : bool)
    (sensor frame_of : string) (manifest : Manifest) : list (string * RosMsg) :=
  match manifest with
  | [] => []
  | Raise _ :: _ => []
  | Ok [] :: rest => bus_submissions is_preview sensor frame_of rest
  | Ok rows :: rest =>
      omap (bus_row_submission sensor frame_of) rows
      ++ (if is_preview then [] else bus_submissions is_preview sensor frame_of rest)
  end.

(** The submission an object-store point-cloud record gives rise to: its
    message, when the file arrives, loads and parses, holds no NaN, and the
    message can be built. *)
Definition s3_pcl_submission `{Collaborators} (sensor frame_of lv : string)
    (vehicle_transform_matrix : option Matrix) (f : Row)
  : option (string * RosMsg) :=
  match s3_get f with
  | Ok path =>
      match np_load path with
      | Ok npz =>
          match parse_pcl_npz npz lv vehicle_transform_matrix with
          | Ok (points, reflectance) =>
              if isnan_any points then None
              else match pcl_dense_msg points reflectance (ts f) frame_of with
                   | Ok ros_pcl_msg => Some (sensor, ros_pcl_msg)
                   | Raise _ => None
                   end
          | Raise _ => None
          end
      | Raise _ => None
      end
  | Raise _ => None
  end.

(** The image the request asks for, as a plain result. *)
Definition requested_image_result `{Collaborators} (info : option CameraInfo)
    (image_data : Mat) : Result Mat :=
  match info with
  | Some i => undistort_image image_data i
  | None => Ok image_data
  end.

(** The submission an object-store image record gives rise to. *)
Definition s3_image_submission `{Collaborators} (sensor frame_of : string)
    (info : option CameraInfo) (f : Row) : option (string * RosMsg) :=
  match s3_get f with
  | Ok path =>
      match cv2_imread path with
      | Ok image_data =>
          match requested_image_result info image_data with
          | Ok image =>
              match cv2_to_imgmsg image with
              | Ok m0 =>
                  match set_ros_msg_header m0 (ts f) frame_of with
                  | Ok ros_image_msg => Some (sensor, ros_image_msg)
                  | Raise _ => None
                  end
              | Raise _ => None
              end
          | Raise _ => None
          end
      | Raise _ => None
      end
  | Raise _ => None
  end.

(** A name without a slash. *)
Definition no_slash (s : string) : Prop :=
  ∀ p t, s ≠ p +:+ String "/"%char t.

(** What the loop of a worker keeps besides the dispatcher's state: the
    manifest cursors, the active flags and the request. *)
Definition loop_frame (st0 st : Node) : Prop :=
  manifests st = manifests st0 ∧ sensor_active st = sensor_active st0 ∧
  request st = request st0.

(** What [init_request] never touches: the sink, the record of dispatch
    calls and the configuration. *)
Definition outside_init (st0 st : Node) : Prop :=
  published st = published st0 ∧ submitted st = submitted st0 ∧
  config st = config st0.

(** [__handle_request] when the sensor threads happen to run one after the
    other, each to its end, in the order they were started.  Each thread
    works on the manifest object stored for its sensor and on the frame
    [sensor_frame_id.get(sensor, "map")]. *)
Definition handle_request_in_turn `{Collaborators} (req : Request) : M unit :=
  try_log (
    let* _ := init_request req in
    let* _ := start_sensors in
    let* _ := for_each (λ sensor,
        let* manifest := lookup_in manifests sensor in
        publish_sensor manifest sensor (default "map" (frame_id req !! sensor)))
      (sensor_id req) in
    flush_sensors).

(** A method acts on the node like a sequence of worker steps of the given
    sensors. *)
Definition stepwise_among (sensors : list string) {A} (m : M A) : Prop :=
  ∀ st, ∃ steps, Forall (λ s, step_sensor s ∈ sensors) steps ∧
                 snd (m st) = snd (for_each run_step steps st).

(** What the filesystem point-cloud path submits for the clouds of a batch:
    the messages of the clouds without NaN whose message can be built, up to
    the first cloud whose parse raises. *)
Fixpoint fs_pcl_submissions `{Collaborators} (sensor frame_of lv : string)
    (vehicle_transform_matrix : option Matrix) (clouds : list (Npz * Z))
  : list (string * RosMsg) :=
  match clouds with
  | [] => []
  | (npz, pcl_ts) :: rest =>
      match parse_pcl_npz npz lv vehicle_transform_matrix with
      | Raise _ => []
      | Ok (points, reflectance) =>
          (if isnan_any points then []
           else match pcl_dense_msg points reflectance pcl_ts frame_of with
                | Ok ros_pcl_msg => [(sensor, ros_pcl_msg)]
                | Raise _ => []
                end)
          ++ fs_pcl_submissions sensor frame_of lv vehicle_transform_matrix rest
      end
  end.

(** Collaborators for which the manifest of the lidar cannot be created. *)
Definition collaborators_without_lidar : Collaborators :=
  {| create_manifest := λ _ sensor,
       if String.eqb sensor "lidar/front" then Raise (Failure "database")
       else Ok example_manifest;
     get_data_class := @get_data_class example_collaborators;
     read_images_from_fs := @read_images_from_fs example_collaborators;
     read_pcl_from_fs := @read_pcl_from_fs example_collaborators;
     s3_get := @s3_get example_collaborators;
     cv2_imread := @cv2_imread example_collaborators;
     np_load := @np_load example_collaborators;
     os_remove := @os_remove example_collaborators;
     undistort_image := @undistort_image example_collaborators;
     cv2_to_imgmsg := @cv2_to_imgmsg example_collaborators;
     set_ros_msg_header := @set_ros_msg_header example_collaborators;
     transform_from_to := @transform_from_to example_collaborators;
     parse_pcl_npz := @parse_pcl_npz example_collaborators;
     pcl_dense_msg := @pcl_dense_msg example_collaborators;
     bus_msg := @bus_msg example_collaborators |}.

(** A dispatcher state with an empty skip set in which the bus still has a
    message waiting and the cursor stands on the camera's slot. *)
Definition node_bus_waiting : Node :=
  {| manifests := ∅;
     sensor_dict := {["cam/front" := []; "bus" := [bus_a]]};
     sensor_list := ["cam/front"; "bus"];
     sensor_active := {["cam/front" := true; "bus" := true]};
     sensor_index := 0; round_robin := []; request := req_cam_bus;
     ros_publishers := {["cam/front" := "/a2d2/cam"; "bus" := "/a2d2/bus"]};
     config := cfg_fs; published := []; submitted := [] |}.

(** * The bag consumer

    A shallow embedding of [a2d2/src/rosbag_consumer.py] (class
    [RosbagConsumer]): the publishers it keeps per topic, the publication of
    a bag, and the loop over the messages of the response topic. *)
Module RosbagConsumer.

(** A decoded JSON message of the response topic. *)
Abbreviation JsonMsg := (gmap string string).

(** The collaborators outside the module: [util.get_topics_types] (the
    topics of a bag and their types, in the order of the dict's items),
    [util.get_data_class], the bag reader ([rosbag.Bag(bag_path)], which may
    raise, and [bag.read_messages()], given as the pairs of topic and message
    it yields in file order and the exception that ends the iteration early,
    if any), the clock ([clock n] is the stamp derived from the [n]-th
    reading of [time.time()]), and [util.is_close_msg]. *)
Class BagCollaborators := {
  get_topics_types : string → Result (list (string * string));
  get_data_class : string → Result string;
  read_messages : string → Result (list (string * RosMsg) * option Exn);
  clock : nat → Z;
  is_close_msg : JsonMsg → bool
}.

(** The consumer.  A publisher is represented by the data class it was
    created with.  The three queues hold what was put and not yet taken. *)
Record Consumer := {
  s3 : bool;
  use_time : option string;
  ros_publishers : gmap string string;
  clean_up : gset string;
  s3_read_req : list string;
  s3_read_resp : list string;
  s3_delete_req : list string;
  (* the publish sink: topic and message, in order *)
  published : list (string * RosMsg);
  (* how often the clock was read *)
  clock_reads : nat
}.

Definition set_ros_publishers (f : gmap string string → gmap string string)
    (c : Consumer) : Consumer :=
  {| s3 := s3 c; use_time := use_time c; ros_publishers := f (ros_publishers c);
     clean_up := clean_up c; s3_read_req := s3_read_req c;
     s3_read_resp := s3_read_resp c; s3_delete_req := s3_delete_req c;
     published := published c; clock_reads := clock_reads c |}.

Definition set_clean_up (f : gset string → gset string) (c : Consumer) : Consumer :=
  {| s3 := s3 c; use_time := use_time c; ros_publishers := ros_publishers c;
     clean_up := f (clean_up c); s3_read_req := s3_read_req c;
     s3_read_resp := s3_read_resp c; s3_delete_req := s3_delete_req c;
     published := published c; clock_reads := clock_reads c |}.

Definition set_s3_read_req (f : list string → list string) (c : Consumer) : Consumer :=
  {| s3 := s3 c; use_time := use_time c; ros_publishers := ros_publishers c;
     clean_up := clean_up c; s3_read_req := f (s3_read_req c);
     s3_read_resp := s3_read_resp c; s3_delete_req := s3_delete_req c;
     published := published c; clock_reads := clock_reads c |}.

Definition set_s3_read_resp (f : list string → list string) (c : Consumer) : Consumer :=
  {| s3 := s3 c; use_time := use_time c; ros_publishers := ros_publishers c;
     clean_up := clean_up c; s3_read_req := s3_read_req c;
     s3_read_resp := f (s3_read_resp c); s3_delete_req := s3_delete_req c;
     published := published c; clock_reads := clock_reads c |}.

Definition set_s3_delete_req (f : list string → list string) (c : Consumer) : Consumer :=
  {| s3 := s3 c; use_time := use_time c; ros_publishers := ros_publishers c;
     clean_up := clean_up c; s3_read_req := s3_read_req c;
     s3_read_resp := s3_read_resp c; s3_delete_req := f (s3_delete_req c);
     published := published c; clock_reads := clock_reads c |}.

Definition set_published (f : list (string * RosMsg) → list (string * RosMsg))
    (c : Consumer) : Consumer :=
  {| s3 := s3 c; use_time := use_time c; ros_publishers := ros_publishers c;
     clean_up := clean_up c; s3_read_req := s3_read_req c;
     s3_read_resp := s3_read_resp c; s3_delete_req := s3_delete_req c;
     published := f (published c); clock_reads := clock_reads c |}.

Definition set_clock_reads (f : nat → nat) (c : Consumer) : Consumer :=
  {| s3 := s3 c; use_time := use_time c; ros_publishers := ros_publishers c;
     clean_up := clean_up c; s3_read_req := s3_read_req c;
     s3_read_resp := s3_read_resp c; s3_delete_req := s3_delete_req c;
     published := published c; clock_reads := f (clock_reads c) |}.

(** The monad of the consumer's methods. *)
Definition CM (A : Type) : Type := Consumer → Result A * Consumer.

Definition ret {A} (a : A) : CM A := λ c, (Ok a, c).

Definition bind {A B} (m : CM A) (k : A → CM B) : CM B := λ c,
  match m c with
  | (Ok a, c') => k a c'
  | (Raise e, c') => (Raise e, c')
  end.

Notation "'let+' x ':=' m 'in' k" := (bind m (λ x, k))
  (at level 10, x name, m at level 100, k at level 200, only parsing).
Notation "'let+' ' pat ':=' m 'in' k" := (bind m (λ x, match x with pat => k end))
  (at level 10, pat pattern, m at level 100, k at level 200, only parsing).

Definition lift {A} (r : Result A) : CM A := λ c, (r, c).
Definition gets {A} (f : Consumer → A) : CM A := λ c, (Ok (f c), c).
Definition modify (f : Consumer → Consumer) : CM unit := λ c, (Ok tt, f c).

(** [try: body except Exception: log] *)
Definition try_log (body : CM unit) : CM unit := λ c,
  match body c with
  | (Raise e, c') => if is_Exception e then (Ok tt, c') else (Raise e, c')
  | r => r
  end.

Fixpoint for_each {A} (body : A → CM unit) (xs : list A) : CM unit :=
  match xs with
  | [] => ret tt
  | x :: xs' => let+ _ := body x in for_each body xs'
  end.

(** [s.split(" ")[0]]: the part before the first space. *)
Fixpoint before_first_space (s : string) : string :=
  match s with
  | EmptyString => EmptyString
  | String c s' =>
      if Ascii.eqb c " "%char then EmptyString else String c (before_first_space s')
  end.

(** [s.rsplit('/', 1)[0]]: the part before the last slash, the whole string
    when it has no slash. *)
Fixpoint before_last_slash (s : string) : string :=
  match s with
  | EmptyString => EmptyString
  | String c s' =>
      match after_last_slash s' with
      | Some _ => String c (before_last_slash s')
      | None => if Ascii.eqb c "/"%char then EmptyString else String c s'
      end
  end.

(** The message with the stamp of its header replaced. *)
Definition with_stamp (t : Z) (m : RosMsg) : RosMsg :=
  let restamp h := {| stamp := t; hdr_frame_id := hdr_frame_id h |} in
  match m with
  | Image h height width encoding is_bigendian step data =>
      Image (restamp h) height width encoding is_bigendian step data
  | PointCloud2 h height width fields is_bigendian point_step row_step data is_dense =>
      PointCloud2 (restamp h) height width fields is_bigendian point_step row_step
        data is_dense
  | Bus h signals => Bus (restamp h) signals
  end.

Section Methods.
Context `{BagCollaborators}.

(** The body of the loop of [get_ros_publishers]. *)
Definition add_publisher (topic_type : string * string) : CM unit :=
  let '(ros_topic, data_type) := topic_type in
  let+ pubs := gets ros_publishers in
  if bool_decide (is_Some (pubs !! ros_topic)) then ret tt
  else
    let+ ros_data_class := lift (get_data_class data_type) in
    modify (set_ros_publishers <[ros_topic := ros_data_class]>).

(** [get_ros_publishers] *)
Definition get_ros_publishers (bag_path : string) : CM (gmap string string) :=
  let+ topics_types := lift (get_topics_types bag_path) in
  let+ _ := for_each add_publisher topics_types in
  gets ros_publishers.

(** [set_received_time]: reads the clock and writes the stamp of the
    header. *)
Definition set_received_time (ros_msg : RosMsg) : CM RosMsg :=
  let+ n := gets clock_reads in
  let+ _ := modify (set_clock_reads S) in
  ret (with_stamp (clock n) ros_msg).

(** The body of the loop over the messages of a bag. *)
Definition publish_message (topic_msg : string * RosMsg) : CM unit :=
  let '(ros_topic, ros_msg) := topic_msg in
  let+ ut := gets use_time in
  let+ ros_msg :=
    (if bool_decide (ut = Some "received") then set_received_time ros_msg
     else ret ros_msg) in
  let+ pubs := gets ros_publishers in
  let+ _ := lift (getitem pubs ros_topic) in
  modify (set_published (λ l, l ++ [(ros_topic, ros_msg)])).

(** [bag = rosbag.Bag(bag_path)] and the loop [for ros_topic, ros_msg, _ in
    bag.read_messages()] that both [read_s3] and [publish_bag] run, on the
    publishers [get_ros_publishers] returned, which are the consumer's own
    dict. *)
Definition publish_messages (bag_path : string) : CM unit :=
  let+ '(msgs, failure) := lift (read_messages bag_path) in
  let+ _ := for_each publish_message msgs in
  match failure with
  | Some e => lift (Raise e)
  | None => ret tt
  end.

(** [read_s3(drain=False)]: a non-blocking take from the response queue; an
    empty queue raises [Empty], which the inner handler passes over. *)
Definition read_s3 : CM unit :=
  try_log (
    let+ resp := gets s3_read_resp in
    match resp with
    | [] => lift (Raise (Failure "Empty"))
    | msg :: rest =>
        let+ _ := modify (set_s3_read_resp (λ _, rest)) in
        let bag_path := before_first_space msg in
        let+ _ := get_ros_publishers bag_path in
        let+ _ := publish_messages bag_path in
        modify (set_s3_delete_req (λ q, q ++ [msg]))
    end).

(** [publish_bag] *)
Definition publish_bag (json_msg : JsonMsg) : CM unit :=
  let+ is_s3 := gets s3 in
  if is_s3 then
    let+ bag_bucket := lift (getitem json_msg "bag_bucket") in
    let+ bag_prefix := lift (getitem json_msg "bag_prefix") in
    let+ bag_name := lift (getitem json_msg "bag_name") in
    let msg := bag_bucket +:+ " " +:+ bag_prefix +:+ bag_name in
    let+ _ := modify (set_s3_read_req (λ q, q ++ [msg])) in
    read_s3
  else
    let+ bag_path := lift (getitem json_msg "bag_path") in
    let+ _ := get_ros_publishers bag_path in
    let+ _ := publish_messages bag_path in
    modify (set_clean_up (λ dirs, {[before_last_slash bag_path]} ∪ dirs)).

(** The loop [for msg in consumer] of [run], over the messages the response
    topic delivers, each given as the outcome of [json.loads]: a close
    message ends the loop, any [Exception] raised for a message is logged and
    the loop goes on with the next one. *)
Fixpoint consume (msgs : list (Result JsonMsg)) : CM unit :=
  match msgs with
  | [] => ret tt
  | msg :: rest =>
      match msg with
      | Ok json_msg =>
          if is_close_msg json_msg then ret tt
          else let+ _ := try_log (publish_bag json_msg) in consume rest
      | Raise e =>
          let+ _ := try_log (lift (Raise e)) in consume rest
      end
  end.

(** What a replay puts on the sink for the messages [msgs] of a bag: the
    same topics in the same order, each message as it is in the bag, or, when
    the consumer stamps with the time of reception, as it is in the bag but
    for the stamp of its header. *)
Definition replays (ut : option string) (out msgs : list (string * RosMsg)) : Prop :=
  Forall2 (λ o i, o.1 = i.1 ∧
    if bool_decide (ut = Some "received") then ∃ t, o.2 = with_stamp t i.2
    else o.2 = i.2) out msgs.

End Methods.

(** A consumer of local bag files, before its first message. *)
Definition consumer0 : Consumer :=
  {| s3 := false; use_time := Some "received"; ros_publishers := ∅;
     clean_up := ∅; s3_read_req := []; s3_read_resp := []; s3_delete_req := [];
     published := []; clock_reads := 0 |}.

(** A consumer of bags in S3 with one response waiting. *)
Definition consumer_s3 : Consumer :=
  {| s3 := true; use_time := None; ros_publishers := ∅;
     clean_up := ∅; s3_read_req := []; s3_read_resp := ["/tmp/b/1.bag b k"];
     s3_delete_req := []; published := []; clock_reads := 0 |}.

Definition example_topics : list (string * string) :=
  [("/a2d2/cam", "sensor_msgs/Image"); ("/a2d2/bus", "a2d2_msgs/Bus")].

Definition example_bag : list (string * RosMsg) :=
  [("/a2d2/cam", img_a); ("/a2d2/bus", bus_a); ("/a2d2/cam", img_b)].

(** Bags with a camera and a bus topic; the bag in /broken cannot be read to
    its end. *)
Definition example_bags : BagCollaborators :=
  {| get_topics_types := λ _, Ok example_topics;
     get_data_class := λ t, Ok t;
     read_messages := λ path,
       if String.eqb (before_last_slash path) "/broken"
       then Ok ([("/a2d2/cam", img_a)], Some (Failure "truncated bag"))
       else Ok (example_bag, None);
     clock := λ n, (1000 + Z.of_nat n)%Z;
     is_close_msg := λ m, bool_decide (is_Some (m !! "__close__")) |}.

Definition bag_msg (bag_path : string) : JsonMsg := {["bag_path" := bag_path]}.

Definition close_msg : JsonMsg := {["__close__" := "true"]}.

Definition s3_msg : JsonMsg :=
  {["bag_bucket" := "b"; "bag_prefix" := "p/"; "bag_name" := "1.bag"]}.

End RosbagConsumer.

(** What [get_ros_publishers] leaves as it is: everything but the
    publishers. *)
Definition same_but_publishers (st st' : RosbagConsumer.Consumer) : Prop :=
  st' = RosbagConsumer.set_ros_publishers (λ _, RosbagConsumer.ros_publishers st') st.

(** What the replay of a bag leaves as it is: everything but the sink and
    the count of the clock's readings. *)
Definition same_but_sink (st st' : RosbagConsumer.Consumer) : Prop :=
  st' = RosbagConsumer.set_published (λ _, RosbagConsumer.published st')
          (RosbagConsumer.set_clock_reads (λ _, RosbagConsumer.clock_reads st') st).

(** A message of the response topic without the keys [publish_bag] reads. *)
Definition lacks_keys (st : RosbagConsumer.Consumer) (json_msg : RosbagConsumer.JsonMsg) : Prop :=
  if RosbagConsumer.s3 st
  then json_msg !! "bag_bucket" = None ∨ json_msg !! "bag_prefix" = None ∨
       json_msg !! "bag_name" = None
  else json_msg !! "bag_path" = None.

(** What the methods of the consumer never change or take back: the mode,
    the choice of the time, the publishers that exist and the messages
    published. *)
Definition consumer_grows (st st' : RosbagConsumer.Consumer) : Prop :=
  RosbagConsumer.s3 st' = RosbagConsumer.s3 st ∧
  RosbagConsumer.use_time st' = RosbagConsumer.use_time st ∧
  RosbagConsumer.ros_publishers st ⊆ RosbagConsumer.ros_publishers st' ∧
  RosbagConsumer.published st `prefix_of` RosbagConsumer.published st'.

(** * Properties *)

(** ** Basic facts about the monad and the read-only methods *)

Lemma try_log_raise_eq {A} (m : M A) st : try_log_raise m st = m st.
Proof. unfold try_log_raise. by destruct (m st) as [[?|?] ?]. Qed.

Lemma elem_of_keys {V} (d : gmap string V) k : k ∈ keys d ↔ is_Some (d !! k).
Proof.
  unfold keys. rewrite list_elem_of_fmap. split.
  - intros [[k' v] [-> Hin]]. apply elem_of_map_to_list in Hin. by exists v.
  - intros [v Hv]. exists (k, v). split; [done|]. by apply elem_of_map_to_list.
Qed.

Lemma comprehension_pure (f : string → bool) cond ks st :
  (∀ k, k ∈ ks → cond k st = (Ok (f k), st)) →
  comprehension cond ks st = (Ok (List.filter f ks), st).
Proof.
  induction ks as [|k ks IH]; intros Hc; [done|].
  cbn [comprehension List.filter]. unfold bind at 1.
  rewrite Hc by left. unfold bind at 1.
  rewrite IH by (intros k' Hk'; apply Hc; by right).
  unfold ret. by destruct (f k).
Qed.


Lemma is_sensor_alive_eq st k :
  is_Some (sensor_dict st !! k) → is_Some (sensor_active st !! k) →
  is_sensor_alive k st = (Ok (alive_b st k), st).
Proof.
  intros [q Hq] [a Ha].
  unfold is_sensor_alive, bind, lookup_in, getitem, alive_b, ret.
  rewrite Hq. destruct q; cbn; rewrite ?Ha; reflexivity.
Qed.

(** ** The skip test of the scan *)




(** ** Preservation of state properties *)

Lemma bind_modify {A} f (k : unit → M A) st : bind (modify f) k st = k tt (f st).
Proof. reflexivity. Qed.

Lemma bind_gets {A B} (f : Node → A) (k : A → M B) st : bind (gets f) k st = k (f st) st.
Proof. reflexivity. Qed.

Lemma preserves_ret P {A} (a : A) : preserves P (ret a).
Proof. by intros st. Qed.

Lemma preserves_raise P {A} e : preserves P (@raise A e).
Proof. by intros st. Qed.

Lemma preserves_lift P {A} (r : Result A) : preserves P (lift r).
Proof. by intros st. Qed.

Lemma preserves_gets P {A} (f : Node → A) : preserves P (gets f).
Proof. by intros st. Qed.

Lemma preserves_lookup_in P {V} (field : Node → gmap string V) k :
  preserves P (lookup_in field k).
Proof. by intros st. Qed.

Lemma preserves_modify (P : Node → Prop) f :
  (∀ st, P st → P (f st)) → preserves P (modify f).
Proof. intros Hf st. apply Hf. Qed.

Lemma preserves_bind P {A B} (m : M A) (k : A → M B) :
  preserves P m → (∀ a, preserves P (k a)) → preserves P (bind m k).
Proof.
  intros Hm Hk st HP. unfold bind. specialize (Hm st HP).
  destruct (m st) as [[a|e] st']; cbn in *; [by apply Hk|done].
Qed.

Lemma preserves_try_log_raise P {A} (m : M A) :
  preserves P m → preserves P (try_log_raise m).
Proof. intros Hm st HP. rewrite try_log_raise_eq. by apply Hm. Qed.

Lemma preserves_try_log_all P (m : M unit) :
  preserves P m → preserves P (try_log_all m).
Proof.
  intros Hm st HP. unfold try_log_all. specialize (Hm st HP).
  by destruct (m st) as [[a|e] st'].
Qed.

Lemma preserves_try_log P (m : M unit) :
  preserves P m → preserves P (try_log m).
Proof.
  intros Hm st HP. unfold try_log. specialize (Hm st HP).
  destruct (m st) as [[a|e] st']; [done|]. by destruct (is_Exception e).
Qed.

Lemma preserves_for_each P {A} (body : A → M unit) xs :
  (∀ x, preserves P (body x)) → preserves P (for_each body xs).
Proof.
  intros Hb. induction xs as [|x xs IH]; cbn [for_each].
  - apply preserves_ret.
  - apply preserves_bind; [apply Hb|by intros _].
Qed.

Lemma preserves_comprehension P cond ks :
  (∀ k, preserves P (cond k)) → preserves P (comprehension cond ks).
Proof.
  intros Hc. induction ks as [|k ks IH]; cbn [comprehension].
  - apply preserves_ret.
  - apply preserves_bind; [apply Hc|intros b].
    apply preserves_bind; [apply IH|intros r]. apply preserves_ret.
Qed.

Lemma preserves_manifest_loop (P : Node → Prop) process sensor manifest :
  (∀ rest st, P st → P (set_manifests <[sensor := rest]> st)) →
  (∀ files, preserves P (process files)) →
  preserves P (manifest_loop process sensor manifest).
Proof.
  intros Hs Hp. induction manifest as [|outcome rest IH]; cbn [manifest_loop].
  - apply preserves_ret.
  - apply preserves_bind; [apply preserves_modify, Hs|intros _].
    apply preserves_bind; [apply preserves_lift|intros files].
    destruct (nonempty files); [|exact IH].
    apply preserves_bind; [apply Hp|intros _].
    apply preserves_bind; [apply preserves_gets|intros p].
    destruct p; [apply preserves_ret|exact IH].
Qed.

(** One step of a preservation proof: split the method along its syntax. *)
Ltac preserves_step :=
  lazymatch goal with
  | |- preserves _ (bind _ _) => apply preserves_bind; [|intros ?]
  | |- preserves _ (ret _) => apply preserves_ret
  | |- preserves _ (raise _) => apply preserves_raise
  | |- preserves _ (lift _) => apply preserves_lift
  | |- preserves _ (gets _) => apply preserves_gets
  | |- preserves _ (lookup_in _ _) => apply preserves_lookup_in
  | |- preserves _ (try_log_raise _) => apply preserves_try_log_raise
  | |- preserves _ (try_log_all _) => apply preserves_try_log_all
  | |- preserves _ (try_log _) => apply preserves_try_log
  | |- preserves _ (for_each _ _) => apply preserves_for_each; intros ?
  | |- preserves _ (comprehension _ _) => apply preserves_comprehension; intros ?
  | |- preserves _ (match ?x with _ => _ end) => destruct x
  end.

(** ** What the dispatcher and the flusher keep *)

Section DispatchStable.
Variable P : Node → Prop.
Hypothesis HP : dispatch_stable P.

Ltac stable_modify :=
  apply preserves_modify; intros ? ?;
  first [ by apply (stable_index _ HP) | by apply (stable_dict _ HP)
        | by apply (stable_published _ HP) | by apply (stable_pop _ HP) ].

Ltac stable_auto := repeat first [preserves_step | stable_modify].

Lemma is_sensor_alive_preserves k : preserves P (is_sensor_alive k).
Proof. unfold is_sensor_alive. stable_auto. Qed.

Lemma is_bus_sensor_preserves k : preserves P (is_bus_sensor k).
Proof. unfold is_bus_sensor. stable_auto. Qed.

Lemma next_sensor_preserves n : preserves P (next_sensor n).
Proof. unfold next_sensor. stable_auto. Qed.

Lemma skip_test_preserves c : preserves P (skip_test c).
Proof. unfold skip_test. stable_auto; apply is_sensor_alive_preserves. Qed.

Lemma scan_preserves n iters : preserves P (scan n iters).
Proof.
  induction iters as [|x iters IH]; cbn [scan].
  - apply preserves_ret.
  - apply preserves_bind; [apply next_sensor_preserves|intros _sensor].
    apply preserves_bind; [apply skip_test_preserves|intros skip].
    destruct skip; [exact IH|].
    apply preserves_bind; [apply preserves_lookup_in|intros q].
    destruct q; [exact IH|]. stable_auto.
Qed.

Lemma round_robin_sensor_preserves sensor msg :
  preserves P (round_robin_sensor sensor msg).
Proof.
  unfold round_robin_sensor.
  apply preserves_bind; [apply preserves_lookup_in|intros q].
  apply preserves_bind; [stable_modify|intros _].
  apply preserves_bind; [apply preserves_gets|intros sl]. apply scan_preserves.
Qed.

Lemma publish_preserves sensor v : preserves P (publish sensor v).
Proof. unfold publish. stable_auto. Qed.

Lemma publish_if_set_preserves sensor msg :
  preserves P (publish_if_set sensor msg).
Proof.
  unfold publish_if_set. destruct sensor, msg; try apply preserves_ret.
  destruct (_ && _); [apply publish_preserves|apply preserves_ret].
Qed.

(** The dispatch entry point, once its call is on record. *)
Lemma publish_ros_msg_after sensor msg st :
  P (set_submitted (λ l, l ++ [(sensor, msg)]) st) →
  P (snd (publish_ros_msg sensor msg st)).
Proof.
  unfold publish_ros_msg. rewrite bind_modify.
  generalize (set_submitted (λ l, l ++ [(sensor, msg)]) st). clear st.
  apply preserves_try_log_raise.
  apply preserves_bind; [apply round_robin_sensor_preserves|intros [s' m']].
  apply preserves_bind; [apply publish_if_set_preserves|intros _].
  apply preserves_bind; [apply preserves_gets|intros ks].
  apply preserves_bind.
  { apply preserves_comprehension. intros k.
    apply preserves_bind; [apply is_bus_sensor_preserves|intros b].
    destruct b; [apply preserves_ret|apply is_sensor_alive_preserves]. }
  intros sensors. apply preserves_bind; [apply preserves_gets|intros rr].
  destruct (_ && _); [stable_modify|apply preserves_ret].
Qed.

Lemma publish_ros_msg_preserves sensor msg :
  (∀ f st, P st → P (set_submitted f st)) →
  preserves P (publish_ros_msg sensor msg).
Proof. intros Hs st HPst. by apply publish_ros_msg_after, Hs. Qed.

Lemma flush_loop_preserves n iters msg sensor flushed :
  preserves P (flush_loop n iters msg sensor flushed).
Proof.
  revert msg sensor flushed.
  induction iters as [|iters IH]; intros msg sensor flushed; cbn [flush_loop].
  - apply preserves_ret.
  - apply preserves_bind; [apply next_sensor_preserves|intros _sensor].
    apply preserves_bind; [apply preserves_lookup_in|intros q].
    apply preserves_bind.
    { destruct q; stable_auto. }
    intros [[msg1 sensor1] flushed1].
    apply preserves_bind; [apply publish_if_set_preserves|intros _].
    destruct (_ =? _); [apply preserves_ret|apply IH].
Qed.

Lemma flush_sensors_preserves : preserves P flush_sensors.
Proof.
  unfold flush_sensors. apply preserves_try_log_raise.
  apply preserves_bind; [apply preserves_gets|intros n].
  apply flush_loop_preserves.
Qed.

End DispatchStable.

(** ** The skip set stays empty *)

(** The only statement that touches the skip set is the guarded
    [self.round_robin.pop(0)], and it never adds to it. *)
Lemma skip_set_stable : dispatch_stable skip_set_empty.
Proof.
  split; try done. unfold skip_set_empty. intros st Hst. cbn. by rewrite Hst.
Qed.

Ltac skip_set_modify :=
  apply preserves_modify; unfold skip_set_empty;
  let st := fresh "st" in let H := fresh "H" in
  intros st H; cbn; rewrite ?H; reflexivity.

Lemma next_sensor_skip_set n : preserves skip_set_empty (next_sensor n).
Proof. apply next_sensor_preserves, skip_set_stable. Qed.

Lemma round_robin_sensor_skip_set sensor msg :
  preserves skip_set_empty (round_robin_sensor sensor msg).
Proof. apply round_robin_sensor_preserves, skip_set_stable. Qed.

Lemma publish_ros_msg_skip_set sensor msg :
  preserves skip_set_empty (publish_ros_msg sensor msg).
Proof. apply publish_ros_msg_preserves; [apply skip_set_stable|done]. Qed.

Lemma flush_sensors_skip_set : preserves skip_set_empty flush_sensors.
Proof. apply flush_sensors_preserves, skip_set_stable. Qed.

(** With an empty skip set the skip test answers no. *)
Lemma skip_test_empty c st :
  round_robin st = [] → skip_test c st = (Ok false, st).
Proof.
  intros Hrr. unfold skip_test, bind, gets. rewrite Hrr.
  case_bool_decide as Hin; [by apply elem_of_nil in Hin|done].
Qed.

Lemma scan_plain n iters st :
  round_robin st = [] → scan n iters st = plain_scan n iters st.
Proof.
  revert st. induction iters as [|x iters IH]; intros st Hrr; [done|].
  cbn [scan plain_scan]. unfold bind.
  pose proof (next_sensor_skip_set n st Hrr) as Hrr1.
  destruct (next_sensor n st) as [[_sensor|e] st1]; [|done].
  cbn in Hrr1. rewrite (skip_test_empty _ _ Hrr1).
  unfold lookup_in.
  destruct (getitem (sensor_dict st1) _sensor) as [[|msg rest]|e]; try done.
  by apply IH.
Qed.

(** ** The cyclic scan *)

Lemma bind_Ok {A B} (m : M A) (k : A → M B) st b st' :
  bind m k st = (Ok b, st') →
  ∃ a st1, m st = (Ok a, st1) ∧ k a st1 = (Ok b, st').
Proof.
  unfold bind. destruct (m st) as [[a|e] st1]; [|done]. intros Hk. by exists a, st1.
Qed.

(** From any cursor position, the next [n] slots cover every position. *)
Lemma cyclic_cover n idx p :
  p < n → ∃ j, 1 ≤ j ≤ n ∧ (idx + j) mod n = p.
Proof.
  intros Hp. assert (Hn : n ≠ 0) by lia.
  pose proof (Nat.mod_upper_bound idx n Hn) as Hr.
  destruct (decide (idx mod n < p)) as [Hlt|Hge].
  - exists (p - idx mod n). split; [lia|].
    rewrite <- Nat.Div0.add_mod_idemp_l.
    replace (idx mod n + (p - idx mod n)) with p by lia.
    by apply Nat.mod_small.
  - exists (n + p - idx mod n). split; [lia|].
    rewrite <- Nat.Div0.add_mod_idemp_l.
    replace (idx mod n + (n + p - idx mod n)) with (p + 1 * n) by lia.
    rewrite Nat.Div0.mod_add. by apply Nat.mod_small.
Qed.

Lemma next_sensor_eq n st x :
  sensor_list st !! ((sensor_index st + 1) mod n) = Some x →
  next_sensor n st = (Ok x, set_sensor_index (λ i, (i + 1) mod n) st).
Proof.
  intros Hx. unfold next_sensor, bind, modify, gets. cbn. by rewrite Hx.
Qed.

(** When exactly one sensor has a message, and it is listed, the scan finds
    it wherever the cursor stands, and leaves every queue empty again. *)
Lemma plain_scan_finds s msg iters st :
  sensor_dict st !! s = Some [msg] →
  (∀ k q, k ≠ s → sensor_dict st !! k = Some q → q = []) →
  (∀ x, x ∈ sensor_list st → is_Some (sensor_dict st !! x)) →
  (∃ j, 1 ≤ j ≤ length iters ∧
        sensor_list st !! ((sensor_index st + j) mod length (sensor_list st)) = Some s) →
  ∃ i, plain_scan (length (sensor_list st)) iters st
       = (Ok (Some s, Some msg),
          set_sensor_dict <[s := []]> (set_sensor_index (λ _, i) st)).
Proof.
  revert st. induction iters as [|x0 iters IH]; intros st Hs Hothers Hlisted (j & Hj & Hat).
  { cbn in Hj. lia. }
  set (n := length (sensor_list st)) in *.
  assert (Hn : n ≠ 0).
  { intros Hn. apply lookup_lt_Some in Hat. fold n in Hat. lia. }
  assert (Hi1 : (sensor_index st + 1) mod n < n) by by apply Nat.mod_upper_bound.
  destruct (lookup_lt_is_Some_2 (sensor_list st) _ Hi1) as [x Hx].
  cbn [plain_scan]. unfold bind at 1. rewrite (next_sensor_eq _ _ _ Hx).
  destruct (decide (x = s)) as [->|Hne].
  - exists ((sensor_index st + 1) mod n).
    unfold bind, lookup_in, getitem, modify, ret. cbn. by rewrite Hs.
  - destruct (Hlisted x) as [q Hq]; [by eapply list_elem_of_lookup_2|].
    pose proof (Hothers x q Hne Hq) as ->.
    unfold bind at 1. unfold lookup_in, getitem. cbn [sensor_dict set_sensor_index].
    rewrite Hq.
    destruct (IH (set_sensor_index (λ i, (i + 1) mod n) st)) as [i Hi]; try done.
    + exists (j - 1). cbn in Hj |- *. fold n.
      assert (j ≠ 1).
      { intros ->. rewrite Hx in Hat. congruence. }
      split; [lia|].
      rewrite Nat.Div0.add_mod_idemp_l.
      by replace (sensor_index st + 1 + (j - 1)) with (sensor_index st + j) by lia.
    + exists i. exact Hi.
Qed.

(** ** One serialized dispatch call *)

Lemma is_bus_sensor_eq st k :
  is_Some (data_type (request st) !! k) →
  is_bus_sensor k st = (Ok (bus_b st k), st).
Proof.
  intros [t Ht]. unfold is_bus_sensor, bind, lookup_in, getitem, bus_b, ret.
  by rewrite Ht.
Qed.

(** The scan hands back the very message that was just appended. *)
Lemma round_robin_sensor_own st s msg :
  session_inv st → s ∈ sensor_list st →
  ∃ i, round_robin_sensor s msg st
       = (Ok (Some s, Some msg), set_sensor_index (λ _, i) st).
Proof.
  intros Hinv Hs. destruct (inv_listed _ Hinv s Hs) as ([q Hq] & _ & _).
  pose proof (inv_queues_empty _ Hinv s q Hq) as ->.
  unfold round_robin_sensor, bind at 1, lookup_in, getitem. rewrite Hq.
  rewrite bind_modify, bind_gets.
  set (st1 := set_sensor_dict <[s := [] ++ [msg] ]> st).
  rewrite scan_plain by (cbn; apply (inv_skip_set _ Hinv)).
  destruct (plain_scan_finds s msg (sensor_list st1) st1) as [i Hi].
  - cbn. by rewrite lookup_insert_eq.
  - intros k q Hk. cbn. rewrite lookup_insert_ne by done.
    apply (inv_queues_empty _ Hinv).
  - intros x Hx. cbn. destruct (decide (s = x)) as [->|Hne].
    + rewrite lookup_insert_eq. by eexists.
    + rewrite lookup_insert_ne by done. by apply (inv_listed _ Hinv).
  - cbn. apply list_elem_of_lookup_1 in Hs as [p Hp].
    destruct (cyclic_cover (length (sensor_list st)) (sensor_index st) p)
      as (j & Hj & Hjp); [by eapply lookup_lt_Some|].
    exists j. split; [done|]. by rewrite Hjp.
  - exists i. rewrite Hi. f_equal.
    subst st1. destruct st; unfold set_sensor_dict, set_sensor_index; cbn in *.
    f_equal. rewrite insert_insert_eq. by apply insert_id.
Qed.

(** A serialized call of the dispatch entry point, by a listed sensor with a
    non-empty name, publishes exactly the message it was handed and leaves
    all queues empty; only the cursor moves. *)
Lemma publish_ros_msg_own st s msg :
  session_inv st → s ∈ sensor_list st → s ≠ EmptyString →
  ∃ i, publish_ros_msg s msg st
       = (Ok tt,
          set_published (λ l, l ++ [(s, PyMsg msg)])
            (set_sensor_index (λ _, i)
               (set_submitted (λ l, l ++ [(s, msg)]) st))).
Proof.
  intros Hinv Hs Hne.
  unfold publish_ros_msg. rewrite bind_modify, try_log_raise_eq.
  set (st0 := set_submitted _ st).
  assert (Hinv0 : session_inv st0) by (by destruct Hinv).
  destruct (round_robin_sensor_own st0 s msg Hinv0 Hs) as [i Hi].
  exists i. unfold bind at 1. rewrite Hi.
  set (st1 := set_sensor_index _ st0).
  assert (Hinv1 : session_inv st1) by (by destruct Hinv).
  destruct (inv_listed _ Hinv1 s Hs) as (_ & [topic Ht] & _).
  unfold bind at 1. cbn [fmap option_fmap option_map publish_if_set truthy].
  assert (String.eqb s EmptyString = false) as -> by (by apply String.eqb_neq).
  cbn [negb andb]. unfold publish, bind at 1, lookup_in, getitem.
  rewrite Ht. unfold modify. rewrite bind_gets.
  set (st2 := set_published _ st1).
  assert (Hinv2 : session_inv st2) by (by destruct Hinv).
  unfold bind at 1.
  rewrite (comprehension_pure (λ k, if bus_b st2 k then false else alive_b st2 k)).
  - rewrite bind_gets. rewrite (inv_skip_set _ Hinv2). cbn [nonempty].
    by rewrite andb_false_r.
  - intros k Hk. apply elem_of_keys in Hk.
    pose proof (inv_flagged _ Hinv2 k Hk) as Hl.
    destruct (inv_listed _ Hinv2 k Hl) as (Hq & _ & Hd).
    unfold bind. rewrite (is_bus_sensor_eq _ _ Hd).
    destruct (bus_b st2 k); [done|]. by apply is_sensor_alive_eq.
Qed.

Lemma queued_zero (st : Node) :
  (∀ k q, sensor_dict st !! k = Some q → q = []) → queued st = 0.
Proof.
  unfold queued.
  apply (map_fold_weak_ind
           (λ r (m : gmap string (list RosMsg)),
              (∀ k q, m !! k = Some q → q = []) → r = 0)).
  - done.
  - intros k q m r Hk IH Hall.
    rewrite (Hall k q) by apply lookup_insert_eq. cbn. apply IH.
    intros k' q' Hq'. apply (Hall k' q').
    rewrite lookup_insert_ne; [done|]. intros ->. congruence.
Qed.

(** One step of a worker, taken between two dispatch calls. *)
Lemma run_step_inv st s :
  session_inv st → step_sensor s ∈ sensor_list st → step_sensor s ≠ EmptyString →
  ∃ st', run_step s st = (Ok tt, st') ∧ session_inv st' ∧
         sensor_list st' = sensor_list st ∧ request st' = request st ∧
         published st' = published st ++ (as_published <$> submissions [s]).
Proof.
  intros Hinv Hs Hne. destruct s as [sensor rest|sensor msg|sensor]; cbn in Hs, Hne.
  - eexists. split; [reflexivity|]. cbn. rewrite app_nil_r.
    split; [by destruct Hinv|done].
  - destruct (publish_ros_msg_own st sensor msg Hinv Hs Hne) as [i Hi].
    eexists. cbn [run_step]. unfold try_log_all. rewrite Hi.
    split; [reflexivity|]. split; [by destruct Hinv|done].
  - eexists. split; [reflexivity|]. cbn. rewrite app_nil_r.
    split; [|done]. destruct Hinv as [H1 H2 H3 H4]. split; try done. cbn.
    intros k Hk. destruct (decide (sensor = k)) as [->|Hnk]; [done|].
    rewrite lookup_insert_ne in Hk by done. by apply H4.
Qed.

Lemma submissions_cons s schedule :
  submissions (s :: schedule) = submissions [s] ++ submissions schedule.
Proof. by destruct s. Qed.

(** A serialized schedule publishes what it submits, in order. *)
Lemma run_schedule_inv schedule st :
  session_inv st →
  Forall (λ s, step_sensor s ∈ sensor_list st ∧ step_sensor s ≠ EmptyString) schedule →
  ∃ st', for_each run_step schedule st = (Ok tt, st') ∧ session_inv st' ∧
         sensor_list st' = sensor_list st ∧ request st' = request st ∧
         published st' = published st ++ (as_published <$> submissions schedule).
Proof.
  revert st. induction schedule as [|s schedule IH]; intros st Hinv Hall.
  { exists st. cbn. by rewrite app_nil_r. }
  apply Forall_cons in Hall as [[Hs Hne] Hall].
  destruct (run_step_inv st s Hinv Hs Hne) as (st1 & Hrun & Hinv1 & Hl1 & Hr1 & Hp1).
  destruct (IH st1 Hinv1) as (st2 & Hrun2 & Hinv2 & Hl2 & Hr2 & Hp2).
  { by rewrite Hl1. }
  exists st2. cbn [for_each]. unfold bind. rewrite Hrun.
  split; [done|]. split; [done|]. split; [congruence|]. split; [congruence|].
  rewrite (submissions_cons s schedule), fmap_app, Hp2, Hp1. by rewrite app_assoc.
Qed.

(** ** The flusher on empty queues *)

Lemma flush_loop_empty n iters flushed st :
  (∀ k q, sensor_dict st !! k = Some q → q = []) →
  (∀ x, x ∈ sensor_list st → is_Some (sensor_dict st !! x)) →
  n = length (sensor_list st) → flushed + iters = n →
  ∃ i, flush_loop n iters None None flushed st
       = (Ok tt, set_sensor_index (λ _, i) st).
Proof.
  revert flushed st.
  induction iters as [|iters IH]; intros flushed st Hempty Hlisted Hn Hsum.
  { exists (sensor_index st). by destruct st. }
  assert (Hi1 : (sensor_index st + 1) mod n < n) by (apply Nat.mod_upper_bound; lia).
  rewrite Hn in Hi1 at 2.
  destruct (lookup_lt_is_Some_2 (sensor_list st) _ Hi1) as [x Hx].
  cbn [flush_loop]. unfold bind at 1. rewrite (next_sensor_eq _ _ _ Hx).
  destruct (Hlisted x) as [q Hq]; [by eapply list_elem_of_lookup_2|].
  pose proof (Hempty x q Hq) as ->.
  unfold bind at 1. unfold lookup_in, getitem. cbn [sensor_dict set_sensor_index].
  rewrite Hq. unfold bind at 1. unfold ret at 1. unfold bind at 1.
  cbn [publish_if_set]. unfold ret at 1.
  destruct (n =? S flushed) eqn:Heq.
  - eexists. reflexivity.
  - apply Nat.eqb_neq in Heq.
    destruct (IH (S flushed) (set_sensor_index (λ i, (i + 1) mod n) st))
      as [i Hi]; try done; [lia|].
    exists i. exact Hi.
Qed.

Lemma flush_sensors_empty st :
  session_inv st → ∃ i, flush_sensors st = (Ok tt, set_sensor_index (λ _, i) st).
Proof.
  intros Hinv. unfold flush_sensors. rewrite try_log_raise_eq, bind_gets.
  apply flush_loop_empty; try done.
  - apply (inv_queues_empty _ Hinv).
  - intros x Hx. by destruct (inv_listed _ Hinv x Hx).
Qed.

(** ** The flusher on queued messages *)

(** No message class has an attribute [msg]. *)
Lemma getattr_msg (front : RosMsg) : getattr front "msg" = Raise AttributeError.
Proof. by destruct front. Qed.

Lemma flush_loop_raises n iters flushed st :
  (∀ x, x ∈ sensor_list st → is_Some (sensor_dict st !! x)) →
  n = length (sensor_list st) → flushed + iters = n →
  (∃ j s m q, 1 ≤ j ≤ iters ∧
      sensor_list st !! ((sensor_index st + j) mod n) = Some s ∧
      sensor_dict st !! s = Some (m :: q)) →
  ∃ st', flush_loop n iters None None flushed st = (Raise AttributeError, st') ∧
         published st' = published st.
Proof.
  revert flushed st.
  induction iters as [|iters IH];
    intros flushed st Hlisted Hn Hsum (j & s & m & q & Hj & Hat & Hq); [lia|].
  assert (Hi1 : (sensor_index st + 1) mod n < n) by (apply Nat.mod_upper_bound; lia).
  rewrite Hn in Hi1 at 2.
  destruct (lookup_lt_is_Some_2 (sensor_list st) _ Hi1) as [x Hx].
  cbn [flush_loop]. unfold bind at 1. rewrite (next_sensor_eq _ _ _ Hx).
  destruct (Hlisted x) as [qx Hqx]; [by eapply list_elem_of_lookup_2|].
  unfold bind at 1. unfold lookup_in, getitem. cbn [sensor_dict set_sensor_index].
  rewrite Hqx. destruct qx as [|front rest].
  - unfold bind at 1. unfold ret at 1. unfold bind at 1.
    cbn [publish_if_set]. unfold ret at 1.
    assert (j ≠ 1).
    { intros ->. rewrite Hx in Hat. injection Hat as ->. congruence. }
    assert ((n =? S flushed) = false) as -> by (apply Nat.eqb_neq; lia).
    destruct (IH (S flushed) (set_sensor_index (λ i, (i + 1) mod n) st))
      as (st' & Hrun & Hpub); try done; [lia| |].
    + exists (j - 1), s, m, q. split; [lia|]. split; [|done]. cbn.
      rewrite Nat.Div0.add_mod_idemp_l.
      by replace (sensor_index st + 1 + (j - 1)) with (sensor_index st + j) by lia.
    + exists st'. by rewrite Hrun.
  - unfold bind, modify, lift. rewrite getattr_msg. by eexists.
Qed.

(** C10: the dispatcher queues and publishes the message objects
    themselves, and no message object has an attribute [msg]; so whenever a
    listed sensor still has a queued message when the flusher runs, the
    flusher raises AttributeError at its field access and publishes
    nothing. *)
Theorem C10_flush_field_access_fails (st : Node) :
  (∀ x, x ∈ sensor_list st → is_Some (sensor_dict st !! x)) →
  (∃ s m q, s ∈ sensor_list st ∧ sensor_dict st !! s = Some (m :: q)) →
  (∀ front, getattr front "msg" = Raise AttributeError) ∧
  ∃ st', flush_sensors st = (Raise AttributeError, st') ∧
         published st' = published st.
Proof.
  intros Hlisted (s & m & q & Hs & Hq). split; [apply getattr_msg|].
  unfold flush_sensors. rewrite try_log_raise_eq, bind_gets.
  apply flush_loop_raises; try done.
  apply list_elem_of_lookup_1 in Hs as [p Hp].
  destruct (cyclic_cover (length (sensor_list st)) (sensor_index st) p)
    as (j & Hj & Hjp); [by eapply lookup_lt_Some|].
  exists j, s, m, q. split; [done|]. by rewrite Hjp.
Qed.

Lemma C10_flush_field_access_fails_witness :
  (∀ x, x ∈ sensor_list node_two_queued → is_Some (sensor_dict node_two_queued !! x)) ∧
  (∃ s m q, s ∈ sensor_list node_two_queued ∧
            sensor_dict node_two_queued !! s = Some (m :: q)) ∧
  (∀ front, getattr front "msg" = Raise AttributeError) ∧
  ∃ st', flush_sensors node_two_queued = (Raise AttributeError, st') ∧
         published st' = published node_two_queued.
Proof.
  assert (H1 : ∀ x, x ∈ sensor_list node_two_queued →
                    is_Some (sensor_dict node_two_queued !! x)).
  { intros x Hx. cbn in Hx.
    repeat (apply elem_of_cons in Hx as [->|Hx]; [by eexists|]).
    by apply elem_of_nil in Hx. }
  assert (H2 : ∃ s m q, s ∈ sensor_list node_two_queued ∧
                        sensor_dict node_two_queued !! s = Some (m :: q)).
  { exists "cam/front", img_a, [img_b]. split; [cbn; set_solver|reflexivity]. }
  split; [exact H1|]. split; [exact H2|].
  exact (C10_flush_field_access_fails node_two_queued H1 H2).
Defined.

(** C2 on the code: at flush time with two images queued for the camera,
    the flusher raises, the first image has left its queue without reaching
    the sink, and the second is still queued. *)
Lemma C2_flush_leaves_messages :
  fst (flush_sensors node_two_queued) = Raise AttributeError ∧
  published (snd (flush_sensors node_two_queued)) = [] ∧
  sensor_dict (snd (flush_sensors node_two_queued)) !! "cam/front" = Some [img_b].
Proof. repeat split; vm_compute; reflexivity. Qed.

Section SessionProperties.
Context `{Collaborators}.

Ltac skip_set_workers :=
  repeat first
    [ preserves_step
    | skip_set_modify
    | apply publish_ros_msg_skip_set
    | apply preserves_manifest_loop; [by intros ? ? ?|intros ?] ].

Lemma publish_sensor_skip_set manifest sensor frame :
  preserves skip_set_empty (publish_sensor manifest sensor frame).
Proof.
  unfold publish_sensor, publish_images, publish_pcl, publish_bus,
    publish_images_from_fs, publish_images_from_s3, publish_pcl_from_fs,
    publish_pcl_from_s3, process_s3_image_files, process_s3_pcl_files,
    s3_pcl_record, fs_pcl_record, publish_pcl_unless_nan, publish_pcl_msg,
    publish_image_msg, camera_info_if_undistorted, lidar_view_and_matrix,
    requested_image, get_camera_info, sensor_to_vehicle_matrix.
  skip_set_workers.
Qed.

Lemma run_step_skip_set s : preserves skip_set_empty (run_step s).
Proof. destruct s; cbn [run_step]; skip_set_workers. Qed.

Lemma start_sensors_skip_set : preserves skip_set_empty start_sensors.
Proof. unfold start_sensors, start_sensor. skip_set_workers. Qed.

Lemma init_request_skip_set req st : skip_set_empty (snd (init_request req st)).
Proof.
  unfold init_request. rewrite !bind_modify.
  match goal with
  | |- skip_set_empty (snd (?m ?s)) =>
      assert (Hm : preserves skip_set_empty m)
        by (unfold init_sensor; skip_set_workers);
      apply Hm
  end.
  reflexivity.
Qed.

(** ** Starting a session *)

Lemma init_sensor_inv req log sensor :
  preserves (init_inv req log) (init_sensor req sensor).
Proof.
  intros st [H1 H2 H3 H4 H5 H6]. unfold init_sensor, bind, lift, modify.
  destruct (create_manifest req sensor) as [m|e]; cbn; [|done].
  split; cbn; try done.
  - intros k q. destruct (decide (sensor = k)) as [->|Hne].
    + rewrite lookup_insert_eq. congruence.
    + rewrite lookup_insert_ne by done. apply H2.
  - intros s Hs. destruct (decide (sensor = s)) as [->|Hne].
    + rewrite lookup_insert_eq. by eexists.
    + rewrite lookup_insert_ne by done. apply H3.
      apply elem_of_app in Hs as [Hs|Hs]; [done|].
      apply list_elem_of_singleton in Hs. congruence.
  - intros k Hk. apply elem_of_app. destruct (decide (sensor = k)) as [->|Hne].
    + right. by apply list_elem_of_singleton.
    + left. rewrite lookup_insert_ne in Hk by done. by apply H4.
Qed.

Lemma init_request_inv req st0 :
  init_inv req (published st0) (snd (init_request req st0)).
Proof.
  unfold init_request. rewrite !bind_modify.
  match goal with
  | |- init_inv _ _ (snd (?m ?s)) =>
      assert (Hm : preserves (init_inv req (published st0)) m); [|apply Hm]
  end.
  - apply preserves_bind.
    + apply preserves_for_each. intros s. apply init_sensor_inv.
    + intros _. apply preserves_modify. by intros st [].
  - split; cbn; try done.
    + intros s Hs. by apply elem_of_nil in Hs.
    + intros k [? Hk]. by rewrite lookup_empty in Hk.
Qed.

Lemma init_loop_list req l st st' :
  for_each (init_sensor req) l st = (Ok tt, st') →
  sensor_list st' = sensor_list st ++ l.
Proof.
  revert st. induction l as [|x l IH]; intros st Hrun; cbn in Hrun.
  { injection Hrun as <-. by rewrite app_nil_r. }
  apply bind_Ok in Hrun as ([] & st1 & Hx & Hrun).
  rewrite (IH _ Hrun).
  unfold init_sensor, bind, lift, modify in Hx.
  destruct (create_manifest req x); [|done].
  injection Hx as <-. cbn. by rewrite <- app_assoc.
Qed.

Lemma init_request_list req st0 st1 :
  init_request req st0 = (Ok tt, st1) → sensor_list st1 = sensor_id req.
Proof.
  unfold init_request. rewrite !bind_modify. intros Hrun.
  apply bind_Ok in Hrun as ([] & st' & Hloop & Hlast).
  apply init_loop_list in Hloop. injection Hlast as <-. cbn. by rewrite Hloop.
Qed.

Lemma start_sensor_inv req req' log sensor :
  preserves (init_inv req log) (start_sensor req' sensor).
Proof.
  unfold start_sensor.
  repeat first [preserves_step | apply preserves_modify; by intros ? []].
Qed.

Lemma start_loop req l st st' :
  for_each (start_sensor req) l st = (Ok tt, st') →
  sensor_list st' = sensor_list st ∧
  (∀ k, is_Some (ros_publishers st !! k) → is_Some (ros_publishers st' !! k)) ∧
  (∀ s, s ∈ l → is_Some (data_type req !! s) ∧ is_Some (ros_publishers st' !! s)).
Proof.
  revert st. induction l as [|x l IH]; intros st Hrun; cbn in Hrun.
  { injection Hrun as <-. split; [done|]. split; [done|].
    intros s Hs. by apply elem_of_nil in Hs. }
  apply bind_Ok in Hrun as ([] & st1 & Hx & Hrun).
  destruct (IH _ Hrun) as (Hl & Hmono & Hall).
  unfold start_sensor, bind, lookup_in, lift, modify, getitem in Hx.
  destruct (manifests st !! x); [|done].
  destruct (data_type req !! x) as [t|] eqn:Ht; [|done].
  destruct (ros_topic req !! x) as [topic|]; [|done].
  destruct (get_data_class t); [|done].
  injection Hx as <-. split; [by rewrite Hl|]. split.
  - intros k Hk. apply Hmono. cbn.
    destruct (decide (x = k)) as [->|Hne].
    + rewrite lookup_insert_eq. by eexists.
    + by rewrite lookup_insert_ne.
  - intros s Hs. apply elem_of_cons in Hs as [->|Hs]; [|by apply Hall].
    split; [by eexists|]. apply Hmono. cbn. rewrite lookup_insert_eq. by eexists.
Qed.

(** A session that starts is in the state the serialized dispatch relies
    on. *)
Lemma session_starts_inv req st0 :
  session_starts req st0 = true →
  ∃ st1 st2, init_request req st0 = (Ok tt, st1) ∧
             start_sensors st1 = (Ok tt, st2) ∧
             session_inv st2 ∧ sensor_list st2 = sensor_id req ∧
             published st2 = published st0.
Proof.
  unfold session_starts, bind. intros Hok.
  pose proof (init_request_inv req st0) as Hinit.
  destruct (init_request req st0) as [[[]|e] st1] eqn:Hrun1; [|done].
  cbn in Hinit.
  pose proof (init_request_list _ _ _ Hrun1) as Hlist.
  assert (Hstart : preserves (init_inv req (published st0)) start_sensors).
  { unfold start_sensors. apply preserves_bind; [apply preserves_gets|intros r].
    apply preserves_for_each. intros s. apply start_sensor_inv. }
  specialize (Hstart st1 Hinit).
  destruct (start_sensors st1) as [[[]|e] st2] eqn:Hrun2; [|done].
  cbn in Hstart. exists st1, st2. split; [done|]. split; [done|].
  unfold start_sensors in Hrun2. rewrite bind_gets in Hrun2.
  rewrite (init_request_eq _ _ _ Hinit) in Hrun2.
  apply start_loop in Hrun2 as (Hl & _ & Hall).
  destruct Hstart as [H1 H2 H3 H4 H5 H6].
  split; [|split; [congruence|done]].
  split; try done.
  intros s Hs. rewrite H5. split; [by apply H3|].
  rewrite Hl, Hlist in Hs. destruct (Hall s Hs). done.
Qed.


(** C5: in every dispatcher state of a session -- from [init_request] on,
    through every method of the node -- the skip set is empty; hence the skip
    test of the scan answers no for every candidate, and the scan is the
    plain cursor-order selection of the first non-empty queue. *)
Theorem C5_skip_set_stays_empty (st : Node) :
  reachable st →
  round_robin st = [] ∧
  (∀ candidate, skip_test candidate st = (Ok false, st)) ∧
  (∀ n iters, scan n iters st = plain_scan n iters st).
Proof.
  intros Hr.
  assert (Hrr : skip_set_empty st).
  { induction Hr.
    - apply init_request_skip_set.
    - by apply start_sensors_skip_set.
    - by apply run_step_skip_set.
    - by apply round_robin_sensor_skip_set.
    - by apply publish_ros_msg_skip_set.
    - by apply publish_sensor_skip_set.
    - by apply flush_sensors_skip_set. }
  split; [exact Hrr|]. split.
  - intros c. by apply skip_test_empty.
  - intros n iters. by apply scan_plain.
Qed.

(** The state a serialized call starts from. *)
Lemma session_state_inv req schedule st0 :
  session_starts req st0 = true →
  Forall (λ s, s ≠ EmptyString) (sensor_id req) →
  Forall (λ s, step_sensor s ∈ sensor_id req) schedule →
  session_inv (session_state req schedule st0) ∧
  sensor_list (session_state req schedule st0) = sensor_id req.
Proof.
  intros Hstart Hnames Hsched.
  destruct (session_starts_inv _ _ Hstart)
    as (st1 & st2 & Hrun1 & Hrun2 & Hinv & Hlist & Hpub).
  destruct (run_schedule_inv schedule st2 Hinv) as (st3 & Hrun3 & Hinv3 & Hl3 & _ & _).
  { rewrite Hlist. apply Forall_forall. intros s Hs. split.
    - by eapply Forall_forall in Hsched.
    - eapply Forall_forall in Hnames; [done|]. by eapply Forall_forall in Hsched. }
  unfold session_state, bind. rewrite Hrun1, Hrun2, Hrun3. cbn.
  split; [done|congruence].
Qed.

(** C9, as amended: after any serialized schedule of a started session, a
    call of the dispatch entry point by a sensor of the request returns
    normally, publishes exactly one message -- the one it was handed, on the
    caller's own sensor -- and leaves no message queued. *)
Theorem C9_call_publishes_own_message (req : Request) (schedule : list Step)
    (st0 : Node) (sensor : string) (msg : RosMsg) :
  session_starts req st0 = true →
  Forall (λ s, s ≠ EmptyString) (sensor_id req) →
  Forall (λ s, step_sensor s ∈ sensor_id req) schedule →
  sensor ∈ sensor_id req →
  ∃ st', publish_ros_msg sensor msg (session_state req schedule st0) = (Ok tt, st') ∧
         published st'
         = published (session_state req schedule st0) ++ [(sensor, PyMsg msg)] ∧
         queued st' = 0.
Proof.
  intros Hstart Hnames Hsched Hs.
  destruct (session_state_inv _ _ _ Hstart Hnames Hsched) as [Hinv Hlist].
  destruct (publish_ros_msg_own _ sensor msg Hinv) as [i Hi].
  - by rewrite Hlist.
  - by eapply Forall_forall in Hnames.
  - eexists. split; [exact Hi|]. split; [done|].
    apply queued_zero. cbn. apply (inv_queues_empty _ Hinv).
Qed.

(** ** The workers *)

Lemma frame_stable ms req : dispatch_stable (frame ms req).
Proof. split; by intros; match goal with H : frame _ _ _ |- _ => destruct H end. Qed.

Ltac frame_auto :=
  repeat first
    [ preserves_step
    | apply publish_ros_msg_preserves; [apply frame_stable|by intros ? ? [? ?]]
    | apply preserves_modify; by intros ? [? ?] ].

Lemma manifest_loop_preview process sensor manifest st :
  (∀ files ms req, preserves (frame ms req) (process files)) →
  preview (request st) = true → manifests st !! sensor = Some manifest →
  ∃ consumed rest,
    manifest = consumed ++ rest ∧
    manifests (snd (manifest_loop process sensor manifest st)) !! sensor = Some rest ∧
    batches_with_rows consumed ≤ 1.
Proof.
  intros Hproc. revert st.
  induction manifest as [|outcome rest IH]; intros st Hprev Hcur.
  { exists [], []. cbn. split; [done|]. split; [done|]. unfold batches_with_rows. cbn. lia. }
  cbn [manifest_loop]. rewrite bind_modify.
  set (st1 := set_manifests <[sensor := rest]> st).
  assert (Hcur1 : manifests st1 !! sensor = Some rest) by apply lookup_insert_eq.
  unfold bind at 1, lift. destruct outcome as [[|f files]|e].
  - cbn [nonempty]. destruct (IH st1 Hprev Hcur1) as (consumed & rest' & -> & Hc & Hn).
    exists (Ok [] :: consumed), rest'. by split.
  - cbn [nonempty]. unfold bind at 1.
    pose proof (Hproc (f :: files) (manifests st1) (request st1) st1
                  (conj eq_refl eq_refl)) as [Hm Hr].
    exists [Ok (f :: files)], rest. split; [done|].
    split; [|unfold batches_with_rows; cbn; lia].
    destruct (process (f :: files) st1) as [[[]|e] st2]; cbn in Hm, Hr |- *.
    + unfold bind, gets. cbn. rewrite Hr. cbn. rewrite Hprev. cbn. by rewrite Hm.
    + by rewrite Hm.
  - exists [Raise e], rest. split; [done|]. split; [done|].
    unfold batches_with_rows. cbn. lia.
Qed.

Lemma loop_then_inactive process sensor manifest st :
  (∀ files ms req, preserves (frame ms req) (process files)) →
  preview (request st) = true → manifests st !! sensor = Some manifest →
  at_most_one_batch sensor manifest
    (let* _ := manifest_loop process sensor manifest in
     modify (set_sensor_active <[sensor := false]>)) st.
Proof.
  intros Hproc Hprev Hcur.
  destruct (manifest_loop_preview process sensor manifest st Hproc Hprev Hcur)
    as (consumed & rest & Heq & Hc & Hn).
  exists consumed, rest. split; [done|]. unfold bind.
  destruct (manifest_loop process sensor manifest st) as [[[]|e] st1]; cbn in *.
  - split; [done|]. split; [done|]. intros _. apply lookup_insert_eq.
  - by repeat split.
Qed.

Lemma setup_then_loop {X} (pre : M X) (k : X → M unit) sensor manifest st :
  (∀ ms req, preserves (frame ms req) pre) →
  (∀ x st', preview (request st') = true → manifests st' !! sensor = Some manifest →
            at_most_one_batch sensor manifest (k x) st') →
  preview (request st) = true → manifests st !! sensor = Some manifest →
  at_most_one_batch sensor manifest (bind pre k) st.
Proof.
  intros Hpre Hk Hprev Hcur. unfold at_most_one_batch, bind.
  pose proof (Hpre (manifests st) (request st) st (conj eq_refl eq_refl)) as [Hm Hr].
  destruct (pre st) as [[x|e] st1]; cbn in Hm, Hr.
  - apply Hk; by rewrite ?Hm, ?Hr.
  - exists [], manifest. cbn. rewrite Hm. split; [done|]. split; [done|].
    split; [unfold batches_with_rows; cbn; lia|done].
Qed.

(** C8: with [preview] set, each of the five worker loops, on a manifest of
    any length, consumes a prefix of its cursor that holds at most one batch
    with rows -- the only batch it processes -- and when it returns normally
    the sensor is marked inactive. *)
Theorem C8_preview_at_most_one_batch (w : WorkerLoop) (manifest : Manifest)
    (sensor frame_of : string) (st : Node) :
  preview (request st) = true →
  manifests st !! sensor = Some manifest →
  at_most_one_batch sensor manifest (worker_loop w manifest sensor frame_of) st.
Proof.
  intros Hprev Hcur.
  destruct w; cbn [worker_loop];
    unfold publish_images_from_fs, publish_images_from_s3, publish_pcl_from_fs,
      publish_pcl_from_s3, publish_bus.
  - apply setup_then_loop; try done.
    + intros ms req. unfold camera_info_if_undistorted, get_camera_info. frame_auto.
    + intros info st' Hp Hc. apply loop_then_inactive; try done.
      intros files ms req. unfold requested_image, publish_image_msg. frame_auto.
  - apply setup_then_loop; try done.
    + intros ms req. unfold camera_info_if_undistorted, get_camera_info. frame_auto.
    + intros info st' Hp Hc. apply loop_then_inactive; try done.
      intros files ms req.
      unfold process_s3_image_files, requested_image, publish_image_msg. frame_auto.
  - apply setup_then_loop; try done.
    + intros ms req. unfold lidar_view_and_matrix, sensor_to_vehicle_matrix. frame_auto.
    + intros [lv vtm] st' Hp Hc. apply loop_then_inactive; try done.
      intros files ms req.
      unfold fs_pcl_record, publish_pcl_unless_nan, publish_pcl_msg. frame_auto.
  - apply setup_then_loop; try done.
    + intros ms req. unfold lidar_view_and_matrix, sensor_to_vehicle_matrix. frame_auto.
    + intros [lv vtm] st' Hp Hc. apply loop_then_inactive; try done.
      intros files ms req.
      unfold process_s3_pcl_files, s3_pcl_record, publish_pcl_unless_nan,
        publish_pcl_msg. frame_auto.
  - apply loop_then_inactive; try done.
    intros files ms req. frame_auto.
Qed.

(** ** A worker acts on the node through steps of its own sensor *)

Lemma publish_ros_msg_submitted sensor msg st :
  submitted (snd (publish_ros_msg sensor msg st)) = submitted st ++ [(sensor, msg)].
Proof.
  apply (publish_ros_msg_after (λ st', submitted st' = submitted st ++ [(sensor, msg)])).
  - by split.
  - reflexivity.
Qed.


Lemma run_steps_Ok steps st : fst (for_each run_step steps st) = Ok tt.
Proof.
  revert st. induction steps as [|s steps IH]; intros st; [done|].
  cbn [for_each]. unfold bind.
  assert (Hs : fst (run_step s st) = Ok tt).
  { destruct s; cbn; try done. unfold try_log_all.
    by destruct (publish_ros_msg sensor msg st) as [[[]|e] st']. }
  destruct (run_step s st) as [[[]|e] st1]; [apply IH|done].
Qed.

Lemma run_steps_app l1 l2 st :
  snd (for_each run_step (l1 ++ l2) st)
  = snd (for_each run_step l2 (snd (for_each run_step l1 st))).
Proof.
  revert st. induction l1 as [|s l1 IH]; intros st; [done|].
  cbn [app for_each]. unfold bind.
  destruct (run_step s st) as [[[]|e] st1] eqn:Hs; [apply IH|].
  pose proof (run_steps_Ok [s] st) as Hok. cbn in Hok. unfold bind in Hok.
  by rewrite Hs in Hok.
Qed.

Lemma stepwise_pure sensor {A} (m : M A) :
  (∀ st, snd (m st) = st) → stepwise sensor m.
Proof. intros Hm st. exists []. by rewrite Hm. Qed.

Lemma stepwise_bind sensor {A B} (m : M A) (k : A → M B) :
  stepwise sensor m → (∀ a, stepwise sensor (k a)) → stepwise sensor (bind m k).
Proof.
  intros Hm Hk st. destruct (Hm st) as (l1 & Hl1 & H1). unfold bind.
  destruct (m st) as [[a|e] st1]; cbn in H1.
  - destruct (Hk a st1) as (l2 & Hl2 & H2). exists (l1 ++ l2).
    split; [by apply Forall_app|]. by rewrite run_steps_app, <- H1.
  - by exists l1.
Qed.

Lemma stepwise_same_state sensor {A B} (m : M A) (m' : M B) :
  (∀ st, snd (m' st) = snd (m st)) → stepwise sensor m → stepwise sensor m'.
Proof.
  intros Heq Hm st. destruct (Hm st) as (l & Hl & H1). exists l.
  by rewrite Heq.
Qed.

Lemma stepwise_try_log_all sensor (m : M unit) :
  stepwise sensor m → stepwise sensor (try_log_all m).
Proof.
  apply stepwise_same_state. intros st. unfold try_log_all.
  by destruct (m st) as [[[]|e] st'].
Qed.

Lemma stepwise_try_log sensor (m : M unit) :
  stepwise sensor m → stepwise sensor (try_log m).
Proof.
  apply stepwise_same_state. intros st. unfold try_log.
  destruct (m st) as [[[]|e] st']; [done|]. by destruct (is_Exception e).
Qed.

Lemma stepwise_for_each sensor {A} (body : A → M unit) xs :
  (∀ x, stepwise sensor (body x)) → stepwise sensor (for_each body xs).
Proof.
  intros Hb. induction xs as [|x xs IH]; cbn [for_each].
  - by apply stepwise_pure.
  - apply stepwise_bind; [apply Hb|by intros _].
Qed.

Lemma stepwise_fetch sensor rest :
  stepwise sensor (modify (set_manifests <[sensor := rest]>)).
Proof. intros st. exists [Fetched sensor rest]. split; [by repeat constructor|done]. Qed.

Lemma stepwise_inactive sensor :
  stepwise sensor (modify (set_sensor_active <[sensor := false]>)).
Proof. intros st. exists [Inactive sensor]. split; [by repeat constructor|done]. Qed.

Lemma stepwise_publish_ros_msg sensor msg :
  stepwise sensor (publish_ros_msg sensor msg).
Proof.
  intros st. exists [Submit sensor msg]. split; [by repeat constructor|].
  cbn [for_each run_step]. unfold bind, try_log_all.
  by destruct (publish_ros_msg sensor msg st) as [[[]|e] st'].
Qed.

Lemma stepwise_manifest_loop sensor process manifest :
  (∀ files, stepwise sensor (process files)) →
  stepwise sensor (manifest_loop process sensor manifest).
Proof.
  intros Hp. induction manifest as [|outcome rest IH]; cbn [manifest_loop].
  - by apply stepwise_pure.
  - apply stepwise_bind; [apply stepwise_fetch|intros _].
    apply stepwise_bind; [by apply stepwise_pure|intros files].
    destruct (nonempty files); [|exact IH].
    apply stepwise_bind; [apply Hp|intros _].
    apply stepwise_bind; [by apply stepwise_pure|intros p].
    destruct p; [by apply stepwise_pure|exact IH].
Qed.

Ltac stepwise_auto :=
  repeat first
    [ apply stepwise_publish_ros_msg
    | apply stepwise_inactive
    | apply stepwise_manifest_loop; intros ?
    | apply stepwise_for_each; intros ?
    | apply stepwise_try_log_all
    | apply stepwise_try_log
    | apply stepwise_bind; [|intros ?]
    | apply stepwise_pure; done
    | match goal with
      | |- stepwise _ (match ?x with _ => _ end) => destruct x
      end ].

(** The record of the calls of the dispatch entry point grows by the
    submissions of the schedule. *)
Lemma run_steps_submitted schedule st :
  submitted (snd (for_each run_step schedule st))
  = submitted st ++ submissions schedule.
Proof.
  revert st. induction schedule as [|s schedule IH]; intros st.
  { cbn. by rewrite app_nil_r. }
  change (s :: schedule) with ([s] ++ schedule).
  rewrite run_steps_app, IH. destruct s as [sensor rest|sensor msg|sensor]; cbn.
  - done.
  - unfold bind, try_log_all.
    pose proof (publish_ros_msg_submitted sensor msg st) as Hsub.
    destruct (publish_ros_msg sensor msg st) as [[[]|e] st']; cbn in *;
      by rewrite Hsub, <- app_assoc.
  - done.
Qed.

(** Whatever a sensor's thread does to the node, it does through fetches,
    submissions and the inactive mark of its own sensor: every serialized
    run of the workers is a schedule. *)
Lemma publish_sensor_stepwise manifest sensor frame_of :
  stepwise sensor (publish_sensor manifest sensor frame_of).
Proof.
  unfold publish_sensor, publish_images, publish_pcl, publish_bus,
    publish_images_from_fs, publish_images_from_s3, publish_pcl_from_fs,
    publish_pcl_from_s3, process_s3_image_files, process_s3_pcl_files,
    s3_pcl_record, fs_pcl_record, publish_pcl_unless_nan, publish_pcl_msg,
    publish_image_msg, camera_info_if_undistorted, lidar_view_and_matrix,
    requested_image, get_camera_info, sensor_to_vehicle_matrix.
  stepwise_auto.
Qed.

(** ** The NaN policy of the point-cloud paths *)



End SessionProperties.


Lemma C9_call_publishes_own_message_witness :
  @session_starts example_collaborators req_cam_bus node0 = true ∧
  Forall (λ s, s ≠ EmptyString) (sensor_id req_cam_bus) ∧
  Forall (λ s, step_sensor s ∈ sensor_id req_cam_bus) example_schedule ∧
  "bus" ∈ sensor_id req_cam_bus ∧
  ∃ st', publish_ros_msg "bus" bus_a
           (@session_state example_collaborators req_cam_bus example_schedule node0)
         = (Ok tt, st') ∧
         published st'
         = published (@session_state example_collaborators req_cam_bus
                        example_schedule node0) ++ [("bus", PyMsg bus_a)] ∧
         queued st' = 0.
Proof.
  assert (H1 : @session_starts example_collaborators req_cam_bus node0 = true)
    by (vm_compute; reflexivity).
  assert (H2 : Forall (λ s, s ≠ EmptyString) (sensor_id req_cam_bus))
    by (repeat constructor; discriminate).
  assert (H3 : Forall (λ s, step_sensor s ∈ sensor_id req_cam_bus) example_schedule).
  { apply Forall_forall. intros s Hs. cbn.
    repeat (apply elem_of_cons in Hs as [->|Hs]; [cbn; set_solver|]).
    by apply elem_of_nil in Hs. }
  assert (H4 : "bus" ∈ sensor_id req_cam_bus) by (cbn; set_solver).
  split; [exact H1|]. split; [exact H2|]. split; [exact H3|]. split; [exact H4|].
  exact (@C9_call_publishes_own_message example_collaborators req_cam_bus
           example_schedule node0 "bus" bus_a H1 H2 H3 H4).
Defined.

(** C9, the last clause as written, fails: in a serialized session no call
    of the dispatch entry point ever publishes for a sensor other than its
    caller's. *)
Lemma C9_never_another_sensor :
  ¬ ∃ (C : Collaborators) (req : Request) (schedule : list Step) (st0 : Node)
      (sensor : string) (msg : RosMsg) (st' : Node) (other : string) (v : PyVal),
      session_starts req st0 = true ∧
      Forall (λ s, s ≠ EmptyString) (sensor_id req) ∧
      Forall (λ s, step_sensor s ∈ sensor_id req) schedule ∧
      sensor ∈ sensor_id req ∧
      publish_ros_msg sensor msg (session_state req schedule st0) = (Ok tt, st') ∧
      published st' = published (session_state req schedule st0) ++ [(other, v)] ∧
      other ≠ sensor.
Proof.
  intros (C & req & schedule & st0 & sensor & msg & st' & other & v &
          Hstart & Hnames & Hsched & Hs & Hcall & Hpub & Hother).
  destruct (session_state_inv _ _ _ Hstart Hnames Hsched) as [Hinv Hlist].
  destruct (publish_ros_msg_own _ sensor msg Hinv) as [i Hi].
  - by rewrite Hlist.
  - by eapply Forall_forall in Hnames.
  - rewrite Hi in Hcall. injection Hcall as <-. cbn in Hpub.
    apply app_inj_tail in Hpub as [_ Heq]. congruence.
Qed.

Lemma C5_skip_set_witness :
  let st := snd (@publish_ros_msg "bus" bus_a
                   (snd (@init_request example_collaborators req_cam_bus node0))) in
  @reachable example_collaborators st ∧
  round_robin st = [] ∧
  (∀ candidate, skip_test candidate st = (Ok false, st)) ∧
  (∀ n iters, scan n iters st = plain_scan n iters st).
Proof.
  intros st.
  assert (Hr : @reachable example_collaborators st).
  { apply reach_submit, reach_init. }
  split; [exact Hr|].
  exact (@C5_skip_set_stays_empty example_collaborators st Hr).
Defined.

Lemma C8_preview_at_most_one_batch_witness :
  preview (request (started req_lidar_preview "s3")) = true ∧
  manifests (started req_lidar_preview "s3") !! "lidar/front" = Some example_manifest ∧
  at_most_one_batch "lidar/front" example_manifest
    (@worker_loop example_collaborators PclFromS3 example_manifest "lidar/front" "map")
    (started req_lidar_preview "s3").
Proof.
  assert (H1 : preview (request (started req_lidar_preview "s3")) = true)
    by reflexivity.
  assert (H2 : manifests (started req_lidar_preview "s3") !! "lidar/front"
               = Some example_manifest) by (vm_compute; reflexivity).
  split; [exact H1|]. split; [exact H2|].
  exact (@C8_preview_at_most_one_batch example_collaborators PclFromS3
           example_manifest "lidar/front" "map" (started req_lidar_preview "s3") H1 H2).
Defined.


(** C4 on the code: the filesystem point-cloud worker meets an archive whose
    parse raises.  The exception leaves [__publish_pcl_from_fs]; the worker
    ends with nothing submitted, the two remaining clouds of the batch and
    the later batches untouched, and the sensor still active.  On the same
    manifest the object-store worker skips the corrupt record and submits
    the clean clouds. *)
Lemma C4_fs_decode_failure_ends_worker :
  let fs := @publish_sensor example_collaborators example_manifest
              "lidar/front" "map" (started req_lidar "fs") in
  let s3 := @publish_sensor example_collaborators example_manifest
              "lidar/front" "map" (started req_lidar "s3") in
  fst (@publish_pcl_from_fs example_collaborators example_manifest
         "lidar/front" "map" (started req_lidar "fs"))
  = Raise (Failure "corrupt archive") ∧
  submitted (snd fs) = [] ∧
  manifests (snd fs) !! "lidar/front" = Some [Ok []; Ok [row3]] ∧
  sensor_active (snd fs) !! "lidar/front" = Some true ∧
  submitted (snd s3)
  = [("lidar/front", cloud_msg 3 "map"); ("lidar/front", cloud_msg 3 "map")] ∧
  sensor_active (snd s3) !! "lidar/front" = Some false.
Proof. repeat split; vm_compute; reflexivity. Qed.

(** C6 on the code: the second fetch of the bus worker's manifest raises.
    The worker stops and [__publish_sensor] swallows the error, but the
    sensor's active flag is still true; on a manifest that ends normally the
    flag becomes false. *)
Lemma C6_failed_worker_stays_active :
  let failed := @publish_sensor example_collaborators failing_manifest
                  "bus" "map" (started req_cam_bus "fs") in
  let ended := @publish_sensor example_collaborators example_manifest
                 "bus" "map" (started req_cam_bus "fs") in
  fst failed = Ok tt ∧
  submitted (snd failed) = [("bus", telemetry_msg row3 "map")] ∧
  manifests (snd failed) !! "bus" = Some [Ok [row3]] ∧
  sensor_active (snd failed) !! "bus" = Some true ∧
  sensor_active (snd failed) !! "cam/front" = Some true ∧
  sensor_active (snd ended) !! "bus" = Some false.
Proof. repeat split; vm_compute; reflexivity. Qed.

(** * Further properties of the node *)

(** ** Methods that only read *)

Lemma reads_only_ret {A} (a : A) : reads_only (ret a).
Proof. intros st. by split. Qed.

Lemma reads_only_gets {A} (f : Node → A) : reads_only (gets f).
Proof. intros st. by split. Qed.

Lemma reads_only_lookup_in {V} (field : Node → gmap string V) k :
  reads_only (lookup_in field k).
Proof.
  intros st. split; [done|]. unfold lookup_in, getitem. cbn.
  destruct (field st !! k); [done|]. by intros e [= <-].
Qed.

Lemma reads_only_bind {A B} (m : M A) (k : A → M B) :
  reads_only m → (∀ a, reads_only (k a)) → reads_only (bind m k).
Proof.
  intros Hm Hk st. unfold bind. destruct (Hm st) as [Hs He].
  destruct (m st) as [[a|e] st']; cbn in Hs; subst st'.
  - apply Hk.
  - split; [done|]. intros e' [= <-]. by apply He.
Qed.

Lemma reads_only_comprehension cond ks :
  (∀ k, reads_only (cond k)) → reads_only (comprehension cond ks).
Proof.
  intros Hc. induction ks as [|k ks IH]; cbn [comprehension].
  - apply reads_only_ret.
  - apply reads_only_bind; [apply Hc|intros b].
    apply reads_only_bind; [apply IH|intros r]. apply reads_only_ret.
Qed.

Lemma is_sensor_alive_reads_only k : reads_only (is_sensor_alive k).
Proof.
  unfold is_sensor_alive. apply reads_only_bind; [apply reads_only_lookup_in|].
  intros q. destruct (nonempty q); [apply reads_only_ret|apply reads_only_lookup_in].
Qed.

Lemma is_bus_sensor_reads_only k : reads_only (is_bus_sensor k).
Proof.
  unfold is_bus_sensor. apply reads_only_bind; [apply reads_only_lookup_in|].
  intros t. apply reads_only_ret.
Qed.

Lemma skip_test_reads_only c : reads_only (skip_test c).
Proof.
  unfold skip_test. apply reads_only_bind; [apply reads_only_gets|intros rr].
  destruct (bool_decide _); [|apply reads_only_ret].
  apply reads_only_bind; [apply reads_only_gets|intros ks].
  apply reads_only_bind; [|intros hits; apply reads_only_ret].
  apply reads_only_comprehension. intros k.
  destruct (bool_decide _); [apply reads_only_ret|apply is_sensor_alive_reads_only].
Qed.

(** ** What a scan does to the queues and to the cursor *)

Lemma set_sensor_index_same st : set_sensor_index (λ _, sensor_index st) st = st.
Proof. by destruct st. Qed.

Lemma scan_outcome_moved st f r :
  scan_outcome (set_sensor_index f st) r → scan_outcome st r.
Proof.
  destruct r as [[[[s|] [m|]]|e] st']; cbn; try done.
Qed.

Lemma scan_outcome_holds n iters st :
  n = length (sensor_list st) → (iters ≠ [] → n ≠ 0) →
  scan_outcome st (scan n iters st).
Proof.
  revert st. induction iters as [|x0 iters IH]; intros st Hn Hpos.
  { cbn. exists (sensor_index st). by rewrite set_sensor_index_same. }
  assert (Hn0 : n ≠ 0) by by apply Hpos.
  assert (Hi1 : (sensor_index st + 1) mod n < n) by by apply Nat.mod_upper_bound.
  rewrite Hn in Hi1 at 2.
  destruct (lookup_lt_is_Some_2 (sensor_list st) _ Hi1) as [x Hx].
  cbn [scan]. unfold bind at 1. rewrite (next_sensor_eq _ _ _ Hx).
  set (st1 := set_sensor_index (λ i, (i + 1) mod n) st).
  assert (HIH : scan_outcome st (scan n iters st1)).
  { apply (scan_outcome_moved st (λ i, (i + 1) mod n)). apply IH; [done|].
    by intros _. }
  unfold bind at 1. destruct (skip_test_reads_only x st1) as [Hs He].
  destruct (skip_test x st1) as [[skip|e] st2]; cbn in Hs; subst st2.
  - destruct skip; [exact HIH|].
    unfold bind at 1. unfold lookup_in, getitem.
    destruct (sensor_dict st1 !! x) as [[|m rest]|] eqn:Hq.
    + exact HIH.
    + cbn. exists rest, ((sensor_index st + 1) mod n). by repeat split.
    + cbn. split; [done|]. by exists ((sensor_index st + 1) mod n).
  - cbn. split; [by apply He|]. by exists ((sensor_index st + 1) mod n).
Qed.

(** X1. [__round_robin_sensor] on any state, whatever the skip set holds.
    Without a queue for the sensor it raises KeyError and changes nothing.
    Otherwise it appends the message and then either returns nothing and
    leaves the queues as they are, or returns a sensor together with the
    oldest message of that sensor's queue, removes exactly that message and
    leaves the cursor on a slot of that sensor; it never returns a sensor
    without a message, its only failure is KeyError, and the sensor list and
    the sink are never touched. *)
Theorem round_robin_sensor_pops_oldest (st : Node) (sensor : string) (msg : RosMsg) :
  match sensor_dict st !! sensor with
  | None => round_robin_sensor sensor msg st = (Raise KeyError, st)
  | Some q =>
      let d1 := <[sensor := q ++ [msg] ]> (sensor_dict st) in
      match round_robin_sensor sensor msg st with
      | (Ok (Some s, Some m), st') =>
          ∃ rest, d1 !! s = Some (m :: rest) ∧
                  sensor_dict st' = <[s := rest]> d1 ∧
                  sensor_list st' !! sensor_index st' = Some s ∧
                  sensor_list st' = sensor_list st ∧ published st' = published st
      | (Ok (None, None), st') =>
          sensor_dict st' = d1 ∧
          sensor_list st' = sensor_list st ∧ published st' = published st
      | (Ok _, _) => False
      | (Raise e, st') =>
          e = KeyError ∧ sensor_dict st' = d1 ∧
          sensor_list st' = sensor_list st ∧ published st' = published st
      end
  end.
Proof.
  destruct (sensor_dict st !! sensor) as [q|] eqn:Hq0.
  2:{ unfold round_robin_sensor, bind, lookup_in, getitem. by rewrite Hq0. }
  unfold round_robin_sensor, bind at 1, lookup_in, getitem. rewrite Hq0.
  rewrite bind_modify, bind_gets.
  set (st1 := set_sensor_dict <[sensor := q ++ [msg] ]> st).
  assert (Hpos : sensor_list st1 ≠ [] → length (sensor_list st1) ≠ 0)
    by (by destruct (sensor_list st1)).
  pose proof (scan_outcome_holds (length (sensor_list st1)) (sensor_list st1) st1
                eq_refl Hpos) as Hscan.
  cbn zeta.
  destruct (scan (length (sensor_list st1)) (sensor_list st1) st1)
    as [[[[s|] [m|]]|e] st']; cbn in Hscan; try done.
  - destruct Hscan as (rest & i & Hq & -> & Hi). exists rest. by repeat split.
  - by destruct Hscan as [i ->].
  - by destruct Hscan as (-> & i & ->).
Qed.

(** ** The effect of one dispatch call on any state *)

Lemma publish_ros_msg_unfold sensor msg :
  publish_ros_msg sensor msg
  = (let* _ := modify (set_submitted (λ l, l ++ [(sensor, msg)])) in
     try_log_raise (
       let* '(sensor', msg') := round_robin_sensor sensor msg in
       let* _ := publish_if_set sensor' (PyMsg <$> msg') in
       evict_when_cycle_done)).
Proof. reflexivity. Qed.

Lemma evict_effect st :
  (fst (evict_when_cycle_done st) = Ok tt ∨
   fst (evict_when_cycle_done st) = Raise KeyError) ∧
  published (snd (evict_when_cycle_done st)) = published st ∧
  sensor_dict (snd (evict_when_cycle_done st)) = sensor_dict st.
Proof.
  destruct (evict_when_cycle_done st) as [res st'] eqn:Hev. cbn.
  unfold evict_when_cycle_done in Hev. rewrite bind_gets in Hev.
  unfold bind at 1 in Hev.
  match type of Hev with
  | context [comprehension ?c ?ks st] =>
      assert (Hc : reads_only (comprehension c ks))
  end.
  { apply reads_only_comprehension. intros k.
    apply reads_only_bind; [apply is_bus_sensor_reads_only|intros b].
    destruct b; [apply reads_only_ret|apply is_sensor_alive_reads_only]. }
  destruct (Hc st) as [Hs He].
  destruct (comprehension _ _ st) as [[sensors|e] st1]; cbn in Hs; subst st1.
  - rewrite bind_gets in Hev.
    destruct (_ && _); injection Hev as <- <-; cbn; auto.
  - injection Hev as <- <-. rewrite (He e eq_refl). auto.
Qed.

Lemma publish_if_set_effect sensor v st :
  (fst (publish_if_set sensor v st) = Ok tt ∨
   fst (publish_if_set sensor v st) = Raise KeyError) ∧
  sensor_dict (snd (publish_if_set sensor v st)) = sensor_dict st ∧
  (published (snd (publish_if_set sensor v st)) = published st ∨
   ∃ s0 v0, sensor = Some s0 ∧ v = Some v0 ∧ fst (publish_if_set sensor v st) = Ok tt ∧
            published (snd (publish_if_set sensor v st)) = published st ++ [(s0, v0)]).
Proof.
  unfold publish_if_set. destruct sensor as [s0|], v as [v0|]; cbn; auto.
  destruct (_ && _); cbn; auto.
  unfold publish, bind, lookup_in, getitem.
  destruct (ros_publishers st !! s0); cbn; [|auto].
  split; [auto|]. split; [done|]. right. by exists s0, v0.
Qed.

Lemma round_robin_sensor_eq st sensor msg q :
  sensor_dict st !! sensor = Some q →
  round_robin_sensor sensor msg st
  = scan (length (sensor_list st)) (sensor_list st)
      (set_sensor_dict <[sensor := q ++ [msg] ]> st).
Proof.
  intros Hq. unfold round_robin_sensor, bind at 1, lookup_in, getitem.
  by rewrite Hq.
Qed.

Lemma round_robin_sensor_none st sensor msg :
  sensor_dict st !! sensor = None →
  round_robin_sensor sensor msg st = (Raise KeyError, st).
Proof.
  intros Hq. unfold round_robin_sensor, bind at 1, lookup_in, getitem.
  by rewrite Hq.
Qed.

(** X2. One call of [__publish_ros_msg], on any state: it returns or raises
    KeyError, nothing else (no index error, even on an empty sensor list);
    the call is recorded; and the sink either stays as it is or grows by one
    message, which is the oldest message of some sensor's queue, counted
    with the message just appended, and that message has left its queue. *)
Theorem publish_ros_msg_effect (st : Node) (sensor : string) (msg : RosMsg) :
  let r := publish_ros_msg sensor msg st in
  (fst r = Ok tt ∨ fst r = Raise KeyError) ∧
  submitted (snd r) = submitted st ++ [(sensor, msg)] ∧
  (published (snd r) = published st ∨
   ∃ q s m rest,
     sensor_dict st !! sensor = Some q ∧
     <[sensor := q ++ [msg] ]> (sensor_dict st) !! s = Some (m :: rest) ∧
     sensor_dict (snd r) = <[s := rest]> (<[sensor := q ++ [msg] ]> (sensor_dict st)) ∧
     published (snd r) = published st ++ [(s, PyMsg m)]).
Proof.
  cbn zeta. split; [|split; [apply publish_ros_msg_submitted|]].
  all: destruct (publish_ros_msg sensor msg st) as [res st'] eqn:Hrun; cbn.
  all: rewrite publish_ros_msg_unfold, bind_modify, try_log_raise_eq in Hrun.
  all: unfold bind at 1 in Hrun.
  all: destruct (sensor_dict st !! sensor) as [q|] eqn:Hq0;
    [rewrite (round_robin_sensor_eq _ _ _ q) in Hrun by exact Hq0
    |rewrite round_robin_sensor_none in Hrun by exact Hq0;
     injection Hrun as <- <-; by auto].
  all: match type of Hrun with
       | context [scan ?n ?iters ?st1] =>
           assert (Hpos : iters ≠ [] → n ≠ 0)
             by (cbn; by destruct (sensor_list st));
           pose proof (scan_outcome_holds n iters st1 eq_refl Hpos) as Hscan;
           destruct (scan n iters st1) as [[[[s|] [m|]]|e] st2]
       end; cbn in Hscan; try done.
  all: cbn [fmap option_fmap option_map] in Hrun.
  - destruct (publish_if_set_effect (Some s) (Some (PyMsg m)) st2) as (Hr & _ & _).
    unfold bind in Hrun.
    destruct (publish_if_set (Some s) (Some (PyMsg m)) st2) as [[[]|e] st3].
    + destruct (evict_effect st3) as (Hr' & _ & _). by rewrite Hrun in Hr'.
    + injection Hrun as <- <-. cbn in Hr. destruct Hr as [Hr|Hr]; [done|auto].
  - cbn [publish_if_set] in Hrun. unfold bind at 1, ret at 1 in Hrun.
    destruct (evict_effect st2) as (Hr' & _ & _). by rewrite Hrun in Hr'.
  - injection Hrun as <- <-. destruct Hscan as (-> & _). auto.
  - destruct Hscan as (rest & i & Hq & -> & Hi).
    unfold bind in Hrun.
    match type of Hrun with
    | context [publish_if_set _ _ ?st2'] => set (st2 := st2') in *
    end.
    destruct (publish_if_set_effect (Some s) (Some (PyMsg m)) st2) as (_ & Hd & Hp).
    destruct (publish_if_set (Some s) (Some (PyMsg m)) st2) as [[[]|e] st3];
      cbn in Hd, Hp.
    + destruct (evict_effect st3) as (_ & Hp' & Hd'). rewrite Hrun in Hp', Hd'.
      cbn in Hp', Hd'. rewrite Hp', Hd'.
      destruct Hp as [Hp|(s0 & v0 & [= <-] & [= <-] & _ & Hp)]; [left; by rewrite Hp|].
      right. exists q, s, m, rest. by rewrite Hp, Hd.
    + injection Hrun as <- <-.
      destruct Hp as [Hp|(s0 & v0 & _ & _ & Hr & _)]; [left; by rewrite Hp|done].
  - destruct Hscan as [i ->].
    cbn [publish_if_set] in Hrun. unfold bind at 1, ret at 1 in Hrun.
    match type of Hrun with
    | evict_when_cycle_done ?st2' = _ =>
        destruct (evict_effect st2') as (_ & Hp' & _)
    end.
    rewrite Hrun in Hp'. cbn in Hp'. left. by rewrite Hp'.
  - injection Hrun as <- <-. destruct Hscan as (-> & i & ->). by left.
Qed.

(** ** Cursor-order selection *)

Lemma plain_scan_first iters st :
  (∀ x, x ∈ sensor_list st → is_Some (sensor_dict st !! x)) →
  (∃ j s m rest, 1 ≤ j ≤ length iters ∧
     sensor_list st !! ((sensor_index st + j) mod length (sensor_list st)) = Some s ∧
     sensor_dict st !! s = Some (m :: rest)) →
  ∃ j s m rest,
    1 ≤ j ≤ length iters ∧
    sensor_list st !! ((sensor_index st + j) mod length (sensor_list st)) = Some s ∧
    sensor_dict st !! s = Some (m :: rest) ∧
    (∀ j' x, 1 ≤ j' < j →
       sensor_list st !! ((sensor_index st + j') mod length (sensor_list st)) = Some x →
       sensor_dict st !! x = Some []) ∧
    plain_scan (length (sensor_list st)) iters st
    = (Ok (Some s, Some m),
       set_sensor_dict <[s := rest]>
         (set_sensor_index
            (λ _, (sensor_index st + j) mod length (sensor_list st)) st)).
Proof.
  revert st. induction iters as [|x0 iters IH];
    intros st Hlisted (j0 & s0 & m0 & rest0 & Hj0 & Hat0 & Hq0).
  { cbn in Hj0. lia. }
  set (n := length (sensor_list st)) in *.
  assert (Hn : n ≠ 0).
  { intros Hn. apply lookup_lt_Some in Hat0. fold n in Hat0. lia. }
  assert (Hi1 : (sensor_index st + 1) mod n < n) by by apply Nat.mod_upper_bound.
  destruct (lookup_lt_is_Some_2 (sensor_list st) _ Hi1) as [x Hx].
  cbn [plain_scan]. unfold bind at 1. rewrite (next_sensor_eq _ _ _ Hx).
  destruct (Hlisted x) as [qx Hqx]; [by eapply list_elem_of_lookup_2|].
  unfold bind at 1. unfold lookup_in, getitem. cbn [sensor_dict set_sensor_index].
  rewrite Hqx. destruct qx as [|m rest].
  - assert (j0 ≠ 1).
    { intros ->. rewrite Hx in Hat0. injection Hat0 as ->. congruence. }
    destruct (IH (set_sensor_index (λ i, (i + 1) mod n) st))
      as (j & s & m & rest & Hj & Hat & Hq & Hmin & Hrun); [done| |].
    { exists (j0 - 1), s0, m0, rest0. split; [cbn in Hj0; lia|]. split; [|done].
      cbn. fold n. rewrite Nat.Div0.add_mod_idemp_l.
      by replace (sensor_index st + 1 + (j0 - 1)) with (sensor_index st + j0) by lia. }
    cbn in Hat, Hq, Hmin, Hrun. fold n in Hat, Hmin, Hrun.
    rewrite Nat.Div0.add_mod_idemp_l in Hat, Hrun.
    replace (sensor_index st + 1 + j) with (sensor_index st + S j) in Hat, Hrun by lia.
    exists (S j), s, m, rest. split; [cbn; lia|]. split; [done|]. split; [done|].
    split; [|exact Hrun].
    intros j' x' Hj' Hx'. destruct (decide (j' = 1)) as [->|Hne].
    + rewrite Hx in Hx'. by injection Hx' as <-.
    + apply (Hmin (j' - 1) x'); [lia|].
      rewrite Nat.Div0.add_mod_idemp_l.
      by replace (sensor_index st + 1 + (j' - 1)) with (sensor_index st + j') by lia.
  - exists 1, x, m, rest. split; [cbn; lia|]. split; [done|]. split; [done|].
    split; [intros j' x' Hj'; lia|]. reflexivity.
Qed.

(** X3. With an empty skip set, on a state where every listed sensor has a
    queue, a call of [__round_robin_sensor] by a listed sensor always hands
    back a message: it serves the first slot after the cursor, in cyclic
    order, whose sensor has a message waiting (the one just appended
    included), hands back the oldest message of that sensor, and leaves the
    cursor on that slot.  The served sensor is the caller only if no slot
    before it has a message waiting. *)
Theorem round_robin_sensor_serves_next_waiting (st : Node) (sensor : string)
    (msg : RosMsg) (q : list RosMsg) :
  round_robin st = [] →
  (∀ x, x ∈ sensor_list st → is_Some (sensor_dict st !! x)) →
  sensor_dict st !! sensor = Some q →
  sensor ∈ sensor_list st →
  let d1 := <[sensor := q ++ [msg] ]> (sensor_dict st) in
  let n := length (sensor_list st) in
  ∃ j s m rest st',
    1 ≤ j ≤ n ∧
    sensor_list st !! ((sensor_index st + j) mod n) = Some s ∧
    d1 !! s = Some (m :: rest) ∧
    (∀ j' x, 1 ≤ j' < j →
       sensor_list st !! ((sensor_index st + j') mod n) = Some x →
       d1 !! x = Some []) ∧
    round_robin_sensor sensor msg st = (Ok (Some s, Some m), st') ∧
    sensor_index st' = (sensor_index st + j) mod n ∧
    sensor_dict st' = <[s := rest]> d1.
Proof.
  intros Hrr Hlisted Hq Hs d1 n.
  rewrite (round_robin_sensor_eq _ _ _ q Hq).
  set (st1 := set_sensor_dict <[sensor := q ++ [msg] ]> st).
  rewrite scan_plain by done.
  destruct (plain_scan_first (sensor_list st1) st1)
    as (j & s & m & rest & Hj & Hat & Hqs & Hmin & Hrun).
  - intros x Hx. cbn. destruct (decide (sensor = x)) as [->|Hne].
    + rewrite lookup_insert_eq. by eexists.
    + rewrite lookup_insert_ne by done. by apply Hlisted.
  - apply list_elem_of_lookup_1 in Hs as [p Hp].
    destruct (cyclic_cover (length (sensor_list st)) (sensor_index st) p)
      as (j & Hj & Hjp); [by eapply lookup_lt_Some|].
    destruct q as [|m0 q0].
    + exists j, sensor, msg, []. cbn. rewrite Hjp, lookup_insert_eq.
      split; [exact Hj|]. split; [exact Hp|]. reflexivity.
    + exists j, sensor, m0, (q0 ++ [msg]). cbn. rewrite Hjp, lookup_insert_eq.
      split; [exact Hj|]. split; [exact Hp|]. reflexivity.
  - exists j, s, m, rest. eexists. split; [exact Hj|]. split; [exact Hat|].
    split; [exact Hqs|]. split; [exact Hmin|]. split; [exact Hrun|]. by split.
Qed.

(** ** The flusher on any state *)

Lemma mod_add_self i n : (i + n) mod n = i mod n.
Proof.
  replace (i + n) with (i + 1 * n) by lia. apply Nat.Div0.mod_add.
Qed.

Lemma set_sensor_index_ext f g st :
  f (sensor_index st) = g (sensor_index st) →
  set_sensor_index f st = set_sensor_index g st.
Proof. intros Heq. unfold set_sensor_index. by rewrite Heq. Qed.

Lemma flush_loop_S n iters msg sensor flushed :
  flush_loop n (S iters) msg sensor flushed
  = (let* _sensor := next_sensor n in
     let* q := lookup_in sensor_dict _sensor in
     let* '(msg1, sensor1, flushed1) :=
       match q with
       | front :: rest =>
           let* _ := modify (set_sensor_dict <[_sensor := rest]>) in
           let* v := lift (getattr front "msg") in
           ret (Some v, Some _sensor, flushed)
       | [] => ret (msg, sensor, S flushed)
       end in
     let* _ := publish_if_set sensor1 msg1 in
     if n =? flushed1 then ret tt
     else flush_loop n iters msg1 sensor1 flushed1).
Proof. reflexivity. Qed.

Lemma flush_loop_empty_cursor n iters flushed st :
  (∀ x, x ∈ sensor_list st → sensor_dict st !! x = Some []) →
  n = length (sensor_list st) → flushed + S iters = n →
  flush_loop n (S iters) None None flushed st
  = (Ok tt, set_sensor_index (λ i, (i + S iters) mod n) st).
Proof.
  revert flushed st.
  induction iters as [|iters IH]; intros flushed st Hempty Hn Hsum.
  all: assert (Hi1 : (sensor_index st + 1) mod n < n)
         by (apply Nat.mod_upper_bound; lia).
  all: rewrite Hn in Hi1 at 2.
  all: destruct (lookup_lt_is_Some_2 (sensor_list st) _ Hi1) as [x Hx].
  all: pose proof (Hempty x (list_elem_of_lookup_2 _ _ _ Hx)) as Hq.
  all: rewrite flush_loop_S; unfold bind at 1; rewrite (next_sensor_eq _ _ _ Hx).
  all: unfold bind at 1; unfold lookup_in, getitem.
  all: cbn [sensor_dict set_sensor_index]; rewrite Hq.
  all: unfold bind at 1; unfold ret at 1; unfold bind at 1.
  all: cbn [publish_if_set]; unfold ret at 1.
  - assert ((n =? S flushed) = true) as -> by (apply Nat.eqb_eq; lia).
    reflexivity.
  - assert ((n =? S flushed) = false) as -> by (apply Nat.eqb_neq; lia).
    rewrite (IH (S flushed)); [|done|done|lia].
    f_equal.
    change (set_sensor_index (λ i, (i + S iters) mod n)
              (set_sensor_index (λ i, (i + 1) mod n) st))
      with (set_sensor_index (λ i, ((i + 1) mod n + S iters) mod n) st).
    apply set_sensor_index_ext.
    rewrite Nat.Div0.add_mod_idemp_l. f_equal. lia.
Qed.

(** X4. On a state where every listed sensor has a queue, [__flush_sensors]
    returns normally exactly when no listed sensor has a message waiting; it
    then leaves the queues and the sink as they are and, after one full
    rotation, the cursor where it was (reduced modulo the number of
    sensors). *)
Theorem flush_sensors_returns_iff_nothing_waiting (st : Node) :
  (∀ x, x ∈ sensor_list st → is_Some (sensor_dict st !! x)) →
  (fst (flush_sensors st) = Ok tt ↔
   ∀ x, x ∈ sensor_list st → sensor_dict st !! x = Some []) ∧
  ((∀ x, x ∈ sensor_list st → sensor_dict st !! x = Some []) →
   flush_sensors st
   = (Ok tt, set_sensor_index (λ i, i mod length (sensor_list st)) st)).
Proof.
  intros Hlisted.
  assert (Hempty : (∀ x, x ∈ sensor_list st → sensor_dict st !! x = Some []) →
            flush_sensors st
            = (Ok tt, set_sensor_index (λ i, i mod length (sensor_list st)) st)).
  { intros Hempty. unfold flush_sensors. rewrite try_log_raise_eq, bind_gets.
    destruct (length (sensor_list st)) as [|k] eqn:Hlen.
    - cbn. f_equal. rewrite <- (set_sensor_index_same st) at 1.
      by apply set_sensor_index_ext.
    - rewrite (flush_loop_empty_cursor (S k) k 0); [|done|done|lia].
      f_equal. apply set_sensor_index_ext, mod_add_self. }
  split; [|exact Hempty]. split.
  - intros Hok x Hx. destruct (Hlisted x Hx) as [[|m q] Hq]; [done|].
    exfalso. unfold flush_sensors in Hok. rewrite try_log_raise_eq, bind_gets in Hok.
    destruct (flush_loop_raises (length (sensor_list st)) (length (sensor_list st)) 0 st)
      as (st' & Hrun & _); try done.
    + apply list_elem_of_lookup_1 in Hx as [p Hp].
      destruct (cyclic_cover (length (sensor_list st)) (sensor_index st) p)
        as (j & Hj & Hjp); [by eapply lookup_lt_Some|].
      exists j, x, m, q. split; [done|]. by rewrite Hjp.
    + by rewrite Hrun in Hok.
  - intros Hall. by rewrite Hempty.
Qed.

Lemma flush_loop_never_publishes n iters flushed st :
  n = length (sensor_list st) → (iters ≠ 0 → n ≠ 0) →
  let r := flush_loop n iters None None flushed st in
  published (snd r) = published st ∧
  ((fst r = Ok tt ∧ sensor_dict (snd r) = sensor_dict st) ∨
   (fst r = Raise KeyError ∧ sensor_dict (snd r) = sensor_dict st) ∨
   (fst r = Raise AttributeError ∧
    ∃ s m rest, sensor_dict st !! s = Some (m :: rest) ∧
                sensor_dict (snd r) = <[s := rest]> (sensor_dict st))).
Proof.
  revert flushed st. induction iters as [|iters IH]; intros flushed st Hn Hpos.
  { cbn. auto. }
  assert (Hn0 : n ≠ 0) by by apply Hpos.
  assert (Hi1 : (sensor_index st + 1) mod n < n) by by apply Nat.mod_upper_bound.
  rewrite Hn in Hi1 at 2.
  destruct (lookup_lt_is_Some_2 (sensor_list st) _ Hi1) as [x Hx].
  cbn zeta.
  destruct (flush_loop n (S iters) None None flushed st) as [res st'] eqn:Hrun.
  rewrite flush_loop_S in Hrun. unfold bind at 1 in Hrun.
  rewrite (next_sensor_eq _ _ _ Hx) in Hrun.
  unfold bind at 1 in Hrun. unfold lookup_in, getitem in Hrun.
  cbn [sensor_dict set_sensor_index] in Hrun.
  destruct (sensor_dict st !! x) as [[|front rest]|] eqn:Hq.
  - unfold bind at 1, ret at 1 in Hrun. unfold bind at 1 in Hrun.
    cbn [publish_if_set] in Hrun. unfold ret at 1 in Hrun.
    destruct (n =? S flushed).
    + injection Hrun as <- <-. cbn. auto.
    + pose proof (IH (S flushed) (set_sensor_index (λ i, (i + 1) mod n) st) Hn
                    (λ _, Hn0)) as HIH.
      cbn zeta in HIH. rewrite Hrun in HIH. exact HIH.
  - unfold bind, modify, lift in Hrun. rewrite getattr_msg in Hrun.
    injection Hrun as <- <-. cbn.
    split; [done|]. right. right. split; [done|]. by exists x, front, rest.
  - injection Hrun as <- <-. cbn. auto.
Qed.

(** X5. [__flush_sensors] never publishes, on any state: the sink after a
    flush is the sink before it.  It returns, or raises KeyError with the
    queues untouched, or raises AttributeError after removing the oldest
    message of exactly one queue -- a message that is thereby lost. *)
Theorem flush_sensors_never_publishes (st : Node) :
  let r := flush_sensors st in
  published (snd r) = published st ∧
  ((fst r = Ok tt ∧ sensor_dict (snd r) = sensor_dict st) ∨
   (fst r = Raise KeyError ∧ sensor_dict (snd r) = sensor_dict st) ∨
   (fst r = Raise AttributeError ∧
    ∃ s m rest, sensor_dict st !! s = Some (m :: rest) ∧
                sensor_dict (snd r) = <[s := rest]> (sensor_dict st))).
Proof.
  cbn zeta. unfold flush_sensors. rewrite try_log_raise_eq, bind_gets.
  apply flush_loop_never_publishes; [done|]. intros Hne Hlen. by rewrite Hlen in Hne.
Qed.

Section WorkerProperties.
Context `{Collaborators}.

(** ** What a whole worker keeps *)

Lemma publish_sensor_preserves sensor P manifest frame_of :
  worker_stable sensor P →
  preserves P (publish_sensor manifest sensor frame_of).
Proof.
  intros [HP Hsub Hfetch Hinactive].
  unfold publish_sensor, publish_images, publish_pcl, publish_bus,
    publish_images_from_fs, publish_images_from_s3, publish_pcl_from_fs,
    publish_pcl_from_s3, process_s3_image_files, process_s3_pcl_files,
    s3_pcl_record, fs_pcl_record, publish_pcl_unless_nan, publish_pcl_msg,
    publish_image_msg, camera_info_if_undistorted, lidar_view_and_matrix,
    requested_image, get_camera_info, sensor_to_vehicle_matrix.
  repeat first
    [ preserves_step
    | apply publish_ros_msg_preserves; [exact HP|exact Hsub]
    | apply preserves_manifest_loop; [exact Hfetch|intros ?]
    | apply preserves_modify; exact Hinactive ].
Qed.

Lemma suffix_stable rr0 sensor :
  worker_stable sensor (λ st, round_robin st `suffix_of` rr0).
Proof.
  split; [split|..]; try done.
  intros st Hst. cbn. etrans; [apply suffix_drop|exact Hst].
Qed.

(** X6. Nothing ever enters the skip set.  On any state, whatever the skip
    set holds, a dispatch call, a flush and a whole run of a sensor's worker
    each leave a suffix of it: entries may only be evicted from the front. *)
Theorem skip_set_only_shrinks (st : Node) :
  (∀ sensor msg,
     round_robin (snd (publish_ros_msg sensor msg st)) `suffix_of` round_robin st) ∧
  round_robin (snd (flush_sensors st)) `suffix_of` round_robin st ∧
  (∀ manifest sensor frame_of,
     round_robin (snd (publish_sensor manifest sensor frame_of st))
     `suffix_of` round_robin st).
Proof.
  split; [|split].
  - intros sensor msg.
    apply (publish_ros_msg_preserves _ (worker_dispatch _ _ (suffix_stable _ sensor))
             sensor msg (worker_submitted _ _ (suffix_stable _ sensor))).
    done.
  - by apply (flush_sensors_preserves _
                (worker_dispatch _ _ (suffix_stable (round_robin st) EmptyString))).
  - intros manifest sensor frame_of.
    by apply (publish_sensor_preserves sensor _ manifest frame_of (suffix_stable _ sensor)).
Qed.

Lemma others_untouched_stable sensor st0 :
  worker_stable sensor (others_untouched sensor st0).
Proof.
  split; [split|..]; try done.
  - intros rest st (H1 & H2 & H3 & H4 & H5). repeat split; try done; cbn.
    + rewrite lookup_insert_ne by done. by apply H5.
    + by apply H5.
  - intros st (H1 & H2 & H3 & H4 & H5). repeat split; try done; cbn.
    + by apply H5.
    + rewrite lookup_insert_ne by done. by apply H5.
Qed.

(** X7. A sensor's worker, whether it ends normally or on an error, leaves
    the sensor list, the request, the publishers and the configuration as
    they were, and never touches the manifest cursor or the active flag of
    any other sensor. *)
Theorem publish_sensor_leaves_others_untouched (manifest : Manifest)
    (sensor frame_of : string) (st : Node) :
  others_untouched sensor st (snd (publish_sensor manifest sensor frame_of st)).
Proof.
  apply (publish_sensor_preserves sensor _ manifest frame_of
           (others_untouched_stable sensor st)).
  by repeat split.
Qed.

End WorkerProperties.

Section WorkerSubmissions.
Context `{Collaborators}.

(** ** What the workers submit *)

Lemma publish_ros_msg_request sensor msg st :
  request (snd (publish_ros_msg sensor msg st)) = request st.
Proof.
  apply (publish_ros_msg_preserves (λ st', request st' = request st)); by try split.
Qed.

(** A guarded submission: the message is handed to the dispatch entry point
    when the conversion returned one; nothing is raised either way. *)
Lemma guarded_submission (conv : Result RosMsg) sensor st :
  ∃ st', try_log_all (let* m := lift conv in publish_ros_msg sensor m) st = (Ok tt, st') ∧
         request st' = request st ∧
         submitted st'
         = submitted st ++ match conv with Ok m => [(sensor, m)] | Raise _ => [] end.
Proof.
  unfold try_log_all, bind, lift. destruct conv as [m|e].
  - pose proof (publish_ros_msg_submitted sensor m st) as Hsub.
    pose proof (publish_ros_msg_request sensor m st) as Hreq.
    destruct (publish_ros_msg sensor m st) as [[[]|e] st']; by exists st'.
  - exists st. by rewrite app_nil_r.
Qed.

Lemma bus_rows_effect sensor frame_of rows st :
  ∃ st', for_each (λ row,
             try_log_all (let* ros_msg := lift (bus_msg row frame_of) in
                          publish_ros_msg sensor ros_msg)) rows st = (Ok tt, st') ∧
         request st' = request st ∧
         submitted st' = submitted st ++ omap (bus_row_submission sensor frame_of) rows.
Proof.
  revert st. induction rows as [|row rows IH]; intros st.
  { exists st. cbn. by rewrite app_nil_r. }
  destruct (guarded_submission (bus_msg row frame_of) sensor st) as (st1 & Hrun & Hreq & Hsub).
  destruct (IH st1) as (st2 & Hrun2 & Hreq2 & Hsub2).
  exists st2. cbn [for_each]. unfold bind at 1. rewrite Hrun.
  split; [exact Hrun2|]. split; [congruence|].
  rewrite Hsub2, Hsub. cbn [omap list_omap]. unfold bus_row_submission at 2.
  destruct (bus_msg row frame_of); cbn; by rewrite <- app_assoc.
Qed.

(** X8. What the bus worker submits is decided by its manifest alone,
    whatever the state of the dispatcher: the messages of the rows that
    convert, in manifest order, batch after batch until the cursor closes or
    a fetch fails; with [preview] set, only those of the first batch that
    has rows.  A row whose conversion fails is left out and the rows after it
    are still submitted. *)
Theorem bus_worker_submits_converted_rows (manifest : Manifest)
    (sensor frame_of : string) (st : Node) :
  submitted (snd (publish_bus manifest sensor frame_of st))
  = submitted st ++ bus_submissions (preview (request st)) sensor frame_of manifest.
Proof.
  unfold publish_bus.
  assert (Hloop : ∀ st0,
    submitted (snd (manifest_loop
       (λ rows, for_each (λ row,
          try_log_all (let* ros_msg := lift (bus_msg row frame_of) in
                       publish_ros_msg sensor ros_msg)) rows) sensor manifest st0))
    = submitted st0 ++ bus_submissions (preview (request st0)) sensor frame_of manifest).
  { induction manifest as [|outcome rest IH]; intros st0.
    { cbn. by rewrite app_nil_r. }
    cbn [manifest_loop]. rewrite bind_modify. unfold bind at 1, lift at 1.
    destruct outcome as [[|row rows]|e].
    - cbn [nonempty bus_submissions]. by rewrite IH.
    - cbn [nonempty]. unfold bind at 1.
      destruct (bus_rows_effect sensor frame_of (row :: rows)
                  (set_manifests <[sensor := rest]> st0)) as (st1 & -> & Hreq & Hsub).
      rewrite bind_gets, Hreq. cbn [request set_manifests bus_submissions].
      destruct (preview (request st0)) eqn:Hprev.
      + cbn. by rewrite Hsub, app_nil_r.
      + rewrite IH, Hsub, Hreq. cbn [request set_manifests submitted].
        by rewrite Hprev, <- app_assoc.
    - cbn. by rewrite app_nil_r. }
  specialize (Hloop st). unfold bind.
  destruct (manifest_loop _ sensor manifest st) as [[[]|e] st']; exact Hloop.
Qed.

Lemma s3_pcl_record_effect sensor f frame_of lv vtm st :
  ∃ st', try_log_all (s3_pcl_record sensor f frame_of lv vtm) st = (Ok tt, st') ∧
         submitted st'
         = submitted st
           ++ match s3_pcl_submission sensor frame_of lv vtm f with
              | Some sm => [sm]
              | None => []
              end.
Proof.
  unfold s3_pcl_submission, s3_pcl_record.
  unfold try_log_all, bind at 1, lift at 1.
  destruct (s3_get f) as [path|e]; [|exists st; by rewrite app_nil_r].
  unfold bind at 1, lift at 1.
  destruct (np_load path) as [npz|e]; [|exists st; by rewrite app_nil_r].
  unfold bind at 1, lift at 1.
  destruct (parse_pcl_npz npz lv vtm) as [[points reflectance]|e];
    [|exists st; by rewrite app_nil_r].
  unfold bind at 1, publish_pcl_unless_nan.
  destruct (isnan_any points); cbn [negb].
  - unfold ret at 1, lift. destruct (os_remove path) as [[]|e];
      exists st; by rewrite app_nil_r.
  - unfold publish_pcl_msg.
    destruct (guarded_submission (pcl_dense_msg points reflectance (ts f) frame_of)
                sensor st) as (st1 & -> & _ & Hsub).
    unfold lift. exists st1.
    split; [by destruct (os_remove path) as [[]|e]|].
    rewrite Hsub. by destruct (pcl_dense_msg points reflectance (ts f) frame_of).
Qed.

(** X9. [__process_s3_pcl_files] never raises, and on any state it submits
    exactly the clouds of the batch whose file arrives, loads and parses,
    that hold no NaN coordinate and whose message can be built, in batch
    order; every other record is skipped without stopping the batch. *)
Theorem process_s3_pcl_files_submits_clean_clouds (sensor : string)
    (files : list Row) (frame_of lv : string) (vtm : option Matrix) (st : Node) :
  fst (process_s3_pcl_files sensor files frame_of lv vtm st) = Ok tt ∧
  submitted (snd (process_s3_pcl_files sensor files frame_of lv vtm st))
  = submitted st ++ omap (s3_pcl_submission sensor frame_of lv vtm) files.
Proof.
  unfold process_s3_pcl_files. revert st.
  induction files as [|f files IH]; intros st.
  { cbn. by rewrite app_nil_r. }
  destruct (s3_pcl_record_effect sensor f frame_of lv vtm st) as (st1 & Hrun & Hsub).
  cbn [for_each]. unfold bind at 1 2. rewrite Hrun.
  destruct (IH st1) as [Hok Hsub1]. split; [exact Hok|].
  rewrite Hsub1, Hsub. cbn [omap list_omap].
  destruct (s3_pcl_submission sensor frame_of lv vtm f); cbn; by rewrite <- app_assoc.
Qed.

Lemma s3_image_record_effect sensor f frame_of info st :
  ∃ st', try_log_all (
           let* path := lift (s3_get f) in
           let* image_data := lift (cv2_imread path) in
           let* image := requested_image info image_data in
           let* _ := publish_image_msg sensor image (ts f) frame_of in
           lift (os_remove path)) st = (Ok tt, st') ∧
         submitted st'
         = submitted st
           ++ match s3_image_submission sensor frame_of info f with
              | Some sm => [sm]
              | None => []
              end.
Proof.
  unfold s3_image_submission.
  unfold try_log_all, bind at 1, lift at 1.
  destruct (s3_get f) as [path|e]; [|exists st; by rewrite app_nil_r].
  unfold bind at 1, lift at 1.
  destruct (cv2_imread path) as [image_data|e]; [|exists st; by rewrite app_nil_r].
  unfold bind at 1.
  assert (Hreq : requested_image info image_data st
                 = (requested_image_result info image_data, st)).
  { unfold requested_image, requested_image_result. by destruct info. }
  rewrite Hreq.
  destruct (requested_image_result info image_data) as [image|e];
    [|exists st; by rewrite app_nil_r].
  unfold bind at 1, publish_image_msg.
  assert (Hconv : ∀ st0,
    try_log_all
      (let* ros_image_msg := lift (cv2_to_imgmsg image) in
       let* ros_image_msg := lift (set_ros_msg_header ros_image_msg (ts f) frame_of) in
       publish_ros_msg sensor ros_image_msg) st0
    = try_log_all
        (let* m := lift (match cv2_to_imgmsg image with
                         | Ok m0 => set_ros_msg_header m0 (ts f) frame_of
                         | Raise e => Raise e
                         end) in
         publish_ros_msg sensor m) st0).
  { intros st0. unfold try_log_all, bind, lift.
    by destruct (cv2_to_imgmsg image) as [m0|e]. }
  rewrite Hconv.
  match goal with
  | |- context [lift ?conv] =>
      destruct (guarded_submission conv sensor st) as (st1 & -> & _ & Hsub)
  end.
  unfold lift. exists st1. split; [by destruct (os_remove path) as [[]|e]|].
  rewrite Hsub. destruct (cv2_to_imgmsg image) as [m0|e]; [|done].
  by destruct (set_ros_msg_header m0 (ts f) frame_of).
Qed.

(** X10. [__process_s3_image_files] never raises, and on any state it
    submits exactly the images of the batch whose file arrives and reads,
    whose undistortion (when requested) and conversion to a message succeed,
    in batch order; every other record is skipped without stopping the
    batch. *)
Theorem process_s3_image_files_submits_converted_images (sensor : string)
    (files : list Row) (frame_of : string) (info : option CameraInfo) (st : Node) :
  fst (process_s3_image_files sensor files frame_of info st) = Ok tt ∧
  submitted (snd (process_s3_image_files sensor files frame_of info st))
  = submitted st ++ omap (s3_image_submission sensor frame_of info) files.
Proof.
  assert (Hall : ∀ st0, ∃ st',
    process_s3_image_files sensor files frame_of info st0 = (Ok tt, st') ∧
    submitted st'
    = submitted st0 ++ omap (s3_image_submission sensor frame_of info) files).
  { unfold process_s3_image_files.
    induction files as [|f files IH]; intros st0.
    { exists st0. cbn. by rewrite app_nil_r. }
    destruct (s3_image_record_effect sensor f frame_of info st0) as (st1 & Hrun & Hsub).
    destruct (IH st1) as (st2 & Hrun2 & Hsub2).
    exists st2. cbn [for_each]. unfold bind at 1. rewrite Hrun.
    split; [exact Hrun2|].
    rewrite Hsub2, Hsub. cbn [omap list_omap].
    destruct (s3_image_submission sensor frame_of info f); cbn; by rewrite <- app_assoc. }
  destruct (Hall st) as (st' & -> & Hsub). by split.
Qed.

End WorkerSubmissions.

Section WorkerEnds.
Context `{Collaborators}.

(** ** How the bus worker ends *)

Lemma bus_rows_frame sensor frame_of rows st :
  ∃ st', for_each (λ row,
             try_log_all (let* ros_msg := lift (bus_msg row frame_of) in
                          publish_ros_msg sensor ros_msg)) rows st = (Ok tt, st') ∧
         loop_frame st st'.
Proof.
  destruct (bus_rows_effect sensor frame_of rows st) as (st' & Hrun & _ & _).
  exists st'. split; [exact Hrun|].
  replace st' with (snd (for_each (λ row,
             try_log_all (let* ros_msg := lift (bus_msg row frame_of) in
                          publish_ros_msg sensor ros_msg)) rows st))
    by by rewrite Hrun.
  apply (preserves_for_each (loop_frame st)); [|done].
  intros row. apply preserves_try_log_all.
  apply preserves_bind; [apply preserves_lift|intros m].
  apply publish_ros_msg_preserves; [by split|done].
Qed.

Lemma bus_loop_completes sensor frame_of manifest st :
  Forall (λ outcome, is_Ok outcome = true) manifest →
  ∃ st', manifest_loop
           (λ rows, for_each (λ row,
              try_log_all (let* ros_msg := lift (bus_msg row frame_of) in
                           publish_ros_msg sensor ros_msg)) rows)
           sensor manifest st = (Ok tt, st') ∧
         (preview (request st) = false → manifest ≠ [] →
          manifests st' !! sensor = Some []).
Proof.
  revert st. induction manifest as [|outcome rest IH]; intros st Hok.
  { by exists st. }
  apply Forall_cons in Hok as [Ho Hok].
  destruct outcome as [rows|e]; [|done].
  cbn [manifest_loop]. rewrite bind_modify. unfold bind at 1, lift at 1.
  set (st1 := set_manifests <[sensor := rest]> st).
  assert (Hrest : ∀ st2, loop_frame st1 st2 →
            ∃ st', manifest_loop
                     (λ rows, for_each (λ row,
                        try_log_all (let* ros_msg := lift (bus_msg row frame_of) in
                                     publish_ros_msg sensor ros_msg)) rows)
                     sensor rest st2 = (Ok tt, st') ∧
                   (preview (request st) = false →
                    manifests st' !! sensor = Some [])).
  { intros st2 (Hm & _ & Hr). destruct (IH st2 Hok) as (st' & Hrun & Hcur).
    exists st'. split; [exact Hrun|]. intros Hprev.
    destruct rest as [|o rest'].
    - cbn in Hrun. injection Hrun as <-. rewrite Hm. apply lookup_insert_eq.
    - apply Hcur; [by rewrite Hr|done]. }
  destruct rows as [|row rows]; cbn [nonempty].
  - destruct (Hrest st1) as (st' & Hrun & Hcur); [done|].
    exists st'. split; [exact Hrun|]. by intros Hprev _; apply Hcur.
  - unfold bind at 1.
    destruct (bus_rows_frame sensor frame_of (row :: rows) st1) as (st2 & -> & Hf).
    rewrite bind_gets. destruct Hf as (Hm & Ha & Hr). rewrite Hr.
    cbn [request set_manifests st1].
    destruct (preview (request st)) eqn:Hprev.
    + exists st2. by split.
    + destruct (Hrest st2) as (st' & Hrun & Hcur); [done|].
      exists st'. split; [exact Hrun|]. by intros _ _; apply Hcur.
Qed.

(** X11. The bus worker can only be stopped by its manifest: when every
    fetch of the cursor returns a batch, [__publish_bus] returns normally
    whatever the rows hold and whatever their conversions do, the sensor ends
    marked inactive, and -- unless the request is a preview -- the cursor is
    exhausted. *)
Theorem bus_worker_ends_inactive (manifest : Manifest) (sensor frame_of : string)
    (st : Node) :
  Forall (λ outcome, is_Ok outcome = true) manifest →
  fst (publish_bus manifest sensor frame_of st) = Ok tt ∧
  sensor_active (snd (publish_bus manifest sensor frame_of st)) !! sensor = Some false ∧
  (preview (request st) = false → manifest ≠ [] →
   manifests (snd (publish_bus manifest sensor frame_of st)) !! sensor = Some []).
Proof.
  intros Hok.
  destruct (bus_loop_completes sensor frame_of manifest st Hok) as (st' & Hrun & Hcur).
  assert (Hbus : publish_bus manifest sensor frame_of st
                 = (Ok tt, set_sensor_active <[sensor := false]> st')).
  { unfold publish_bus, bind at 1. by rewrite Hrun. }
  rewrite Hbus. cbn.
  split; [done|]. split; [apply lookup_insert_eq|exact Hcur].
Qed.

(** ** Camera names and calibration *)

Lemma after_last_slash_Some s t :
  after_last_slash s = Some t →
  ∃ p, s = p +:+ String "/"%char t ∧ after_last_slash t = None.
Proof.
  revert t. induction s as [|c s IH]; intros t; cbn; [done|].
  destruct (after_last_slash s) as [t'|] eqn:Hs.
  - intros [= <-]. destruct (IH t' eq_refl) as (p & -> & Hnone).
    by exists (String c p).
  - destruct (Ascii.eqb c "/"%char) eqn:Hc; [|done].
    intros [= <-]. apply Ascii.eqb_eq in Hc as ->. by exists EmptyString.
Qed.

Lemma after_last_slash_None s : after_last_slash s = None → no_slash s.
Proof.
  induction s as [|c s IH]; cbn.
  - intros _ p t Heq. by destruct p.
  - destruct (after_last_slash s) as [t'|]; [done|].
    destruct (Ascii.eqb c "/"%char) eqn:Hc; [done|].
    intros _ p t Heq. destruct p as [|c' p]; cbn in Heq.
    + injection Heq as -> _. by rewrite Ascii.eqb_refl in Hc.
    + injection Heq as _ Heq. by apply (IH eq_refl p t).
Qed.

(** X12. [__get_camera_info] reads the node without changing it.  It
    returns exactly when the sensor name has a slash and the part after its
    last slash is a camera of the calibration data, and then returns that
    camera's lens, distortion, original matrix and undistorted matrix, in
    this order; a name without a slash raises IndexError, an unknown camera
    KeyError. *)
Theorem get_camera_info_by_name_after_last_slash (sensor : string) (st : Node) :
  match get_camera_info sensor st with
  | (Ok info, st') =>
      st' = st ∧
      ∃ p cam_name cam,
        sensor = p +:+ String "/"%char cam_name ∧ no_slash cam_name ∧
        cal_cameras (config st) !! cam_name = Some cam ∧
        info = (Lens cam, Distortion cam, CamMatrixOriginal cam, CamMatrix cam)
  | (Raise e, st') =>
      st' = st ∧
      ((e = IndexError ∧ no_slash sensor) ∨
       (e = KeyError ∧
        ∃ p cam_name,
          sensor = p +:+ String "/"%char cam_name ∧ no_slash cam_name ∧
          cal_cameras (config st) !! cam_name = None))
  end.
Proof.
  unfold get_camera_info, bind, lift, rsplit_1, lookup_in, getitem, ret.
  destruct (after_last_slash sensor) as [cam_name|] eqn:Hs.
  - destruct (after_last_slash_Some _ _ Hs) as (p & -> & Hnone).
    apply after_last_slash_None in Hnone.
    destruct (cal_cameras (config st) !! cam_name) as [cam|] eqn:Hcam.
    + split; [done|]. by exists p, cam_name, cam.
    + split; [done|]. right. split; [done|]. by exists p, cam_name.
  - split; [done|]. left. split; [done|]. by apply after_last_slash_None.
Qed.

End WorkerEnds.

Section SessionStart.
Context `{Collaborators}.

(** ** What [init_request] builds *)

Lemma init_sensor_Ok req x st st1 :
  init_sensor req x st = (Ok tt, st1) →
  ∃ m, create_manifest req x = Ok m ∧
       st1 = set_sensor_active <[x := true]>
               (set_sensor_list (λ l, l ++ [x])
                  (set_sensor_dict <[x := []]>
                     (set_manifests <[x := m]> st))).
Proof.
  unfold init_sensor, bind, lift, modify.
  destruct (create_manifest req x) as [m|e]; [|done].
  intros [= <-]. by exists m.
Qed.

Lemma init_loop_fields req l st st' :
  for_each (init_sensor req) l st = (Ok tt, st') →
  sensor_index st' = sensor_index st ∧ round_robin st' = round_robin st ∧
  request st' = request st ∧ ros_publishers st' = ros_publishers st ∧
  ∀ k, if decide (k ∈ l)
       then sensor_dict st' !! k = Some [] ∧ sensor_active st' !! k = Some true ∧
            ∃ m, create_manifest req k = Ok m ∧ manifests st' !! k = Some m
       else sensor_dict st' !! k = sensor_dict st !! k ∧
            sensor_active st' !! k = sensor_active st !! k ∧
            manifests st' !! k = manifests st !! k.
Proof.
  revert st. induction l as [|x l IH]; intros st Hrun; cbn in Hrun.
  { injection Hrun as <-. do 4 (split; [done|]). intros k.
    destruct (decide (k ∈ [])) as [Hk|_]; [by apply elem_of_nil in Hk|done]. }
  apply bind_Ok in Hrun as ([] & st1 & Hx & Hrun).
  apply init_sensor_Ok in Hx as (m & Hm & ->).
  destruct (IH _ Hrun) as (H1 & H2 & H3 & H4 & Hk). cbn in H1, H2, H3, H4.
  do 4 (split; [done|]). intros k. specialize (Hk k).
  destruct (decide (k ∈ l)) as [Hin|Hnin].
  - rewrite decide_True by (by right). exact Hk.
  - cbn in Hk. destruct Hk as (Hd & Ha & Hms).
    destruct (decide (k = x)) as [->|Hne].
    + rewrite decide_True by left.
      rewrite Hd, Ha, Hms, !lookup_insert_eq. split; [done|]. split; [done|].
      by exists m.
    + rewrite decide_False by (intros [?|?]%elem_of_cons; done).
      by rewrite Hd, Ha, Hms, !lookup_insert_ne.
Qed.

Lemma init_loop_outside req l st0 :
  preserves (outside_init st0) (for_each (init_sensor req) l).
Proof.
  apply preserves_for_each. intros x. unfold init_sensor.
  repeat first [preserves_step | apply preserves_modify; by intros ? (? & ? & ?)].
Qed.

(** X13. When [init_request] returns, the node holds a fresh session for the
    request and nothing of an earlier one: the sensor list is the requested
    list, the cursor is 0, the skip set and the publishers are empty, and the
    sensors that have a queue, an active flag and a manifest are exactly the
    requested ones, each with an empty queue, an active flag set and the
    manifest created for it.  The sink and the configuration are as
    before. *)
Theorem init_request_builds_fresh_session (req : Request) (st0 st1 : Node) :
  init_request req st0 = (Ok tt, st1) →
  sensor_list st1 = sensor_id req ∧ sensor_index st1 = 0 ∧
  round_robin st1 = [] ∧ ros_publishers st1 = ∅ ∧ request st1 = req ∧
  published st1 = published st0 ∧ config st1 = config st0 ∧
  ∀ k, if decide (k ∈ sensor_id req)
       then sensor_dict st1 !! k = Some [] ∧ sensor_active st1 !! k = Some true ∧
            ∃ m, create_manifest req k = Ok m ∧ manifests st1 !! k = Some m
       else sensor_dict st1 !! k = None ∧ sensor_active st1 !! k = None ∧
            manifests st1 !! k = None.
Proof.
  intros Hrun. pose proof (init_request_list _ _ _ Hrun) as Hlist.
  unfold init_request in Hrun. rewrite !bind_modify in Hrun.
  apply bind_Ok in Hrun as ([] & st' & Hloop & Hlast).
  match type of Hloop with
  | for_each _ _ ?s = _ =>
      pose proof (init_loop_outside req (sensor_id req) st0 s
                    (conj eq_refl (conj eq_refl eq_refl))) as Hout
  end.
  rewrite Hloop in Hout. destruct Hout as (Hp & _ & Hc).
  apply init_loop_fields in Hloop as (H1 & H2 & H3 & H4 & Hk).
  injection Hlast as <-. cbn in *.
  do 7 (split; [done|]). intros k. specialize (Hk k).
  destruct (decide (k ∈ sensor_id req)); [done|].
  by rewrite !lookup_empty in Hk.
Qed.

Lemma init_loop_fails req l st :
  Exists (λ s, is_Ok (create_manifest req s) = false) l →
  ∃ e st', for_each (init_sensor req) l st = (Raise e, st').
Proof.
  revert st. induction l as [|x l IH]; intros st Hex.
  { by apply Exists_nil in Hex. }
  cbn [for_each]. unfold bind at 1.
  destruct (init_sensor req x st) as [[[]|e] st1] eqn:Hx; [|by eauto].
  apply Exists_cons in Hex as [Hex|Hex]; [|by apply IH].
  apply init_sensor_Ok in Hx as (m & Hm & _). by rewrite Hm in Hex.
Qed.

(** X14. When the manifest of some requested sensor cannot be created,
    [init_request] raises, and [__handle_request] ends the session there:
    whatever the workers would have done, no publisher is created or reset,
    no dispatch call is made and the sink is unchanged. *)
Theorem failed_manifest_creation_aborts_session (req : Request)
    (schedule : list Step) (st0 : Node) :
  Exists (λ s, is_Ok (create_manifest req s) = false) (sensor_id req) →
  is_Ok (fst (init_request req st0)) = false ∧
  published (snd (handle_request req schedule st0)) = published st0 ∧
  submitted (snd (handle_request req schedule st0)) = submitted st0 ∧
  ros_publishers (snd (handle_request req schedule st0)) = ros_publishers st0.
Proof.
  intros Hex.
  assert (Hinit : ∃ e st', init_request req st0 = (Raise e, st') ∧
            published st' = published st0 ∧ submitted st' = submitted st0 ∧
            ros_publishers st' = ros_publishers st0).
  { unfold init_request. rewrite !bind_modify. unfold bind at 1.
    match goal with
    | |- context [for_each (init_sensor req) (sensor_id req) ?s] =>
        destruct (init_loop_fails req (sensor_id req) s Hex) as (e & st' & Hloop);
        pose proof (preserves_for_each
                      (λ st, published st = published st0 ∧
                             submitted st = submitted st0 ∧
                             ros_publishers st = ros_publishers st0)
                      (init_sensor req) (sensor_id req)) as Hpres;
        specialize (Hpres (λ x, ltac:(unfold init_sensor;
          repeat first [preserves_step
                       | apply preserves_modify; by intros ? (? & ? & ?)])) s
          (conj eq_refl (conj eq_refl eq_refl)))
    end.
    rewrite Hloop in Hpres |- *. by exists e, st'. }
  destruct Hinit as (e & st' & Hrun & Hp & Hs & Hr).
  rewrite Hrun. split; [done|].
  unfold handle_request, try_log, bind. rewrite Hrun.
  by destruct (is_Exception e).
Qed.

End SessionStart.

Section WorkersInTurn.
Context `{Collaborators}.

(** ** A session whose workers run one after the other *)

Lemma stepwise_among_one sensors sensor {A} (m : M A) :
  sensor ∈ sensors → stepwise sensor m → stepwise_among sensors m.
Proof.
  intros Hin Hm st. destruct (Hm st) as (steps & Hsteps & Heq).
  exists steps. split; [|done].
  eapply Forall_impl; [exact Hsteps|]. by intros s ->.
Qed.

Lemma stepwise_among_for_each sensors {A} (body : A → M unit) xs :
  (∀ x, x ∈ xs → stepwise_among sensors (body x)) →
  stepwise_among sensors (for_each body xs).
Proof.
  induction xs as [|x xs IH]; intros Hb st.
  { by exists []. }
  destruct (Hb x (list_elem_of_here _ _) st) as (l1 & Hl1 & H1).
  cbn [for_each]. unfold bind.
  destruct (body x st) as [[[]|e] st1]; cbn in H1.
  - destruct (IH (λ y Hy, Hb y (list_elem_of_further _ _ _ Hy)) st1) as (l2 & Hl2 & H2).
    exists (l1 ++ l2). split; [by apply Forall_app|].
    by rewrite run_steps_app, <- H1.
  - by exists l1.
Qed.

Lemma session_start_outside req st0 st1 st2 :
  init_request req st0 = (Ok tt, st1) → start_sensors st1 = (Ok tt, st2) →
  outside_init st0 st2.
Proof.
  intros Hrun1 Hrun2.
  assert (H1 : preserves (outside_init st0) (init_request req)).
  { unfold init_request, init_sensor.
    repeat first [preserves_step | apply preserves_modify; by intros ? (? & ? & ?)]. }
  assert (H2 : preserves (outside_init st0) start_sensors).
  { unfold start_sensors, start_sensor.
    repeat first [preserves_step | apply preserves_modify; by intros ? (? & ? & ?)]. }
  specialize (H1 st0 (conj eq_refl (conj eq_refl eq_refl))). rewrite Hrun1 in H1.
  specialize (H2 st1 H1). by rewrite Hrun2 in H2.
Qed.

(** X15. A session that starts, whose sensors have non-empty names and
    whose worker threads run one after the other, ends with the sink
    extended by exactly the messages that entered the dispatch entry point,
    each once and in the order of the calls, and with every queue empty --
    whatever the manifests hold and whichever records, conversions or fetches
    fail. *)
Theorem workers_in_turn_publish_what_they_submit (req : Request) (st0 : Node) :
  session_starts req st0 = true →
  Forall (λ s, s ≠ EmptyString) (sensor_id req) →
  ∃ subs,
    submitted (snd (handle_request_in_turn req st0)) = submitted st0 ++ subs ∧
    published (snd (handle_request_in_turn req st0))
    = published st0 ++ (as_published <$> subs) ∧
    (∀ k q, sensor_dict (snd (handle_request_in_turn req st0)) !! k = Some q → q = []).
Proof.
  intros Hstart Hnames.
  destruct (session_starts_inv _ _ Hstart)
    as (st1 & st2 & Hrun1 & Hrun2 & Hinv & Hlist & Hpub).
  destruct (session_start_outside _ _ _ _ Hrun1 Hrun2) as (_ & Hsub & _).
  set (jobs := for_each (λ sensor,
        let* manifest := lookup_in manifests sensor in
        publish_sensor manifest sensor (default "map" (frame_id req !! sensor)))
      (sensor_id req)).
  assert (Hjobs : stepwise_among (sensor_id req) jobs).
  { apply stepwise_among_for_each. intros sensor Hin.
    apply (stepwise_among_one _ sensor); [done|].
    apply stepwise_bind; [by apply stepwise_pure|intros manifest].
    apply publish_sensor_stepwise. }
  destruct (Hjobs st2) as (steps & Hsteps & Heq).
  destruct (run_schedule_inv steps st2 Hinv) as (st3 & Hrun3 & Hinv3 & _ & _ & Hpub3).
  { rewrite Hlist. apply Forall_forall. intros s Hs. split.
    - by eapply Forall_forall in Hsteps.
    - eapply Forall_forall in Hnames; [done|]. by eapply Forall_forall in Hsteps. }
  pose proof (run_steps_submitted steps st2) as Hsub3.
  rewrite Hrun3 in Heq, Hsub3. cbn in Heq, Hsub3.
  destruct (flush_sensors_empty st3 Hinv3) as [i Hflush].
  exists (submissions steps).
  assert (Hend : snd (handle_request_in_turn req st0) = st3 ∨
                 snd (handle_request_in_turn req st0) = set_sensor_index (λ _, i) st3).
  { destruct (handle_request_in_turn req st0) as [res st'] eqn:Hh. cbn.
    unfold handle_request_in_turn, try_log in Hh.
    unfold bind at 1 in Hh. rewrite Hrun1 in Hh.
    unfold bind at 1 in Hh. rewrite Hrun2 in Hh.
    unfold bind at 1 in Hh. fold jobs in Hh.
    destruct (jobs st2) as [[[]|e] st3'] eqn:Hj; cbn in Heq; subst st3'.
    - rewrite Hflush in Hh. injection Hh as _ <-. by right.
    - left. destruct (is_Exception e); by injection Hh as _ <-. }
  destruct Hend as [-> | ->]; cbn.
  all: split; [congruence|]. all: split; [congruence|].
  all: apply (inv_queues_empty _ Hinv3).
Qed.

End WorkersInTurn.

Section FilesystemClouds.
Context `{Collaborators}.

(** X16. The per-cloud loop of [__publish_pcl_from_fs] on a batch: it
    returns normally exactly when every cloud of the batch parses; in every
    case it has submitted the clouds without NaN whose message could be
    built, in order, up to the first cloud whose parse raises -- the clouds
    after that one are never looked at. *)
Theorem fs_pcl_batch_stops_at_first_parse_failure (sensor frame_of lv : string)
    (vtm : option Matrix) (clouds : list (Npz * Z)) (st : Node) :
  let r := for_each (λ '(npz, pcl_ts),
               fs_pcl_record sensor npz pcl_ts frame_of lv vtm) clouds st in
  (fst r = Ok tt ↔
   Forall (λ c, is_Ok (parse_pcl_npz c.1 lv vtm) = true) clouds) ∧
  submitted (snd r)
  = submitted st ++ fs_pcl_submissions sensor frame_of lv vtm clouds.
Proof.
  cbn zeta. revert st. induction clouds as [|[npz pcl_ts] clouds IH]; intros st.
  { cbn. rewrite app_nil_r. by split. }
  destruct (for_each _ ((npz, pcl_ts) :: clouds) st) as [res st'] eqn:Hrun.
  cbn [for_each] in Hrun. unfold bind at 1 in Hrun.
  unfold fs_pcl_record at 1 in Hrun. unfold bind at 1, lift at 1 in Hrun.
  cbn [fs_pcl_submissions]. rewrite Forall_cons. cbn [fst snd].
  destruct (parse_pcl_npz npz lv vtm) as [[points reflectance]|e].
  - unfold publish_pcl_unless_nan in Hrun.
    assert (Hrec : ∃ st1,
      (if negb (isnan_any points)
       then publish_pcl_msg sensor points reflectance pcl_ts frame_of
       else ret tt) st = (Ok tt, st1) ∧
      submitted st1
      = submitted st
        ++ (if isnan_any points then []
            else match pcl_dense_msg points reflectance pcl_ts frame_of with
                 | Ok ros_pcl_msg => [(sensor, ros_pcl_msg)]
                 | Raise _ => []
                 end)).
    { destruct (isnan_any points); cbn [negb].
      - exists st. by rewrite app_nil_r.
      - unfold publish_pcl_msg.
        destruct (guarded_submission (pcl_dense_msg points reflectance pcl_ts frame_of)
                    sensor st) as (st1 & Hr & _ & Hs).
        by exists st1. }
    destruct Hrec as (st1 & Hr & Hs). rewrite Hr in Hrun.
    destruct (IH st1) as [Hok Hsub]. rewrite Hrun in Hok, Hsub. cbn in Hok, Hsub.
    split.
    + rewrite Hok. cbn. by intuition.
    + by rewrite Hsub, Hs, <- app_assoc.
  - injection Hrun as <- <-. cbn. rewrite app_nil_r. split; [|done].
    split; [done|]. by intros [? _].
Qed.

End FilesystemClouds.

(** ** Instances *)

Lemma node_bus_waiting_listed :
  ∀ x, x ∈ sensor_list node_bus_waiting → is_Some (sensor_dict node_bus_waiting !! x).
Proof.
  intros x Hx. cbn in Hx.
  repeat (apply elem_of_cons in Hx as [->|Hx]; [by eexists|]).
  by apply elem_of_nil in Hx.
Qed.

Lemma round_robin_sensor_serves_next_waiting_witness :
  round_robin node_bus_waiting = [] ∧
  (∀ x, x ∈ sensor_list node_bus_waiting → is_Some (sensor_dict node_bus_waiting !! x)) ∧
  sensor_dict node_bus_waiting !! "cam/front" = Some [] ∧
  "cam/front" ∈ sensor_list node_bus_waiting ∧
  let d1 := <["cam/front" := [] ++ [img_a] ]> (sensor_dict node_bus_waiting) in
  let n := length (sensor_list node_bus_waiting) in
  ∃ j s m rest st',
    1 ≤ j ≤ n ∧
    sensor_list node_bus_waiting !! ((sensor_index node_bus_waiting + j) mod n) = Some s ∧
    d1 !! s = Some (m :: rest) ∧
    (∀ j' x, 1 ≤ j' < j →
       sensor_list node_bus_waiting !! ((sensor_index node_bus_waiting + j') mod n) = Some x →
       d1 !! x = Some []) ∧
    round_robin_sensor "cam/front" img_a node_bus_waiting = (Ok (Some s, Some m), st') ∧
    sensor_index st' = (sensor_index node_bus_waiting + j) mod n ∧
    sensor_dict st' = <[s := rest]> d1.
Proof.
  assert (H1 : round_robin node_bus_waiting = []) by reflexivity.
  assert (H3 : sensor_dict node_bus_waiting !! "cam/front" = Some []) by reflexivity.
  assert (H4 : "cam/front" ∈ sensor_list node_bus_waiting) by (cbn; set_solver).
  split; [exact H1|]. split; [exact node_bus_waiting_listed|].
  split; [exact H3|]. split; [exact H4|].
  exact (round_robin_sensor_serves_next_waiting node_bus_waiting "cam/front" img_a []
           H1 node_bus_waiting_listed H3 H4).
Defined.

Lemma flush_sensors_returns_iff_nothing_waiting_witness :
  (∀ x, x ∈ sensor_list node_bus_waiting → is_Some (sensor_dict node_bus_waiting !! x)) ∧
  (fst (flush_sensors node_bus_waiting) = Ok tt ↔
   ∀ x, x ∈ sensor_list node_bus_waiting → sensor_dict node_bus_waiting !! x = Some []) ∧
  ((∀ x, x ∈ sensor_list node_bus_waiting → sensor_dict node_bus_waiting !! x = Some []) →
   flush_sensors node_bus_waiting
   = (Ok tt, set_sensor_index (λ i, i mod length (sensor_list node_bus_waiting))
               node_bus_waiting)).
Proof.
  split; [exact node_bus_waiting_listed|].
  exact (flush_sensors_returns_iff_nothing_waiting node_bus_waiting
           node_bus_waiting_listed).
Defined.

Lemma bus_worker_ends_inactive_witness :
  let st := started req_cam_bus "fs" in
  Forall (λ outcome, is_Ok outcome = true) example_manifest ∧
  fst (@publish_bus example_collaborators example_manifest "bus" "map" st) = Ok tt ∧
  sensor_active (snd (@publish_bus example_collaborators example_manifest "bus" "map" st))
    !! "bus" = Some false ∧
  (preview (request st) = false → example_manifest ≠ [] →
   manifests (snd (@publish_bus example_collaborators example_manifest "bus" "map" st))
     !! "bus" = Some []).
Proof.
  intros st.
  assert (H1 : Forall (λ outcome, is_Ok outcome = true) example_manifest)
    by (repeat constructor).
  split; [exact H1|].
  exact (@bus_worker_ends_inactive example_collaborators example_manifest "bus" "map"
           st H1).
Defined.

Lemma init_request_builds_fresh_session_witness :
  let C := example_collaborators in
  let st0 := node_two_queued in
  let st1 := snd (init_request req_cam_bus st0) in
  init_request req_cam_bus st0 = (Ok tt, st1) ∧
  sensor_list st1 = sensor_id req_cam_bus ∧ sensor_index st1 = 0 ∧
  round_robin st1 = [] ∧ ros_publishers st1 = ∅ ∧ request st1 = req_cam_bus ∧
  published st1 = published st0 ∧ config st1 = config st0 ∧
  ∀ k, if decide (k ∈ sensor_id req_cam_bus)
       then sensor_dict st1 !! k = Some [] ∧ sensor_active st1 !! k = Some true ∧
            ∃ m, create_manifest req_cam_bus k = Ok m ∧ manifests st1 !! k = Some m
       else sensor_dict st1 !! k = None ∧ sensor_active st1 !! k = None ∧
            manifests st1 !! k = None.
Proof.
  intros C st0 st1.
  assert (H1 : init_request req_cam_bus st0 = (Ok tt, st1)) by (vm_compute; reflexivity).
  split; [exact H1|].
  exact (@init_request_builds_fresh_session C req_cam_bus st0 st1 H1).
Defined.

Lemma failed_manifest_creation_aborts_session_witness :
  let C := collaborators_without_lidar in
  Exists (λ s, is_Ok (create_manifest req_lidar s) = false) (sensor_id req_lidar) ∧
  is_Ok (fst (init_request req_lidar node_two_queued)) = false ∧
  published (snd (handle_request req_lidar example_schedule node_two_queued))
  = published node_two_queued ∧
  submitted (snd (handle_request req_lidar example_schedule node_two_queued))
  = submitted node_two_queued ∧
  ros_publishers (snd (handle_request req_lidar example_schedule node_two_queued))
  = ros_publishers node_two_queued.
Proof.
  intros C.
  assert (H1 : Exists (λ s, is_Ok (create_manifest req_lidar s) = false)
                 (sensor_id req_lidar)) by (by apply Exists_cons_hd).
  split; [exact H1|].
  exact (@failed_manifest_creation_aborts_session C req_lidar example_schedule
           node_two_queued H1).
Defined.

Lemma workers_in_turn_publish_what_they_submit_witness :
  let C := example_collaborators in
  session_starts req_cam_bus node0 = true ∧
  Forall (λ s, s ≠ EmptyString) (sensor_id req_cam_bus) ∧
  ∃ subs,
    submitted (snd (handle_request_in_turn req_cam_bus node0)) = submitted node0 ++ subs ∧
    published (snd (handle_request_in_turn req_cam_bus node0))
    = published node0 ++ (as_published <$> subs) ∧
    (∀ k q, sensor_dict (snd (handle_request_in_turn req_cam_bus node0)) !! k = Some q →
            q = []).
Proof.
  intros C.
  assert (H1 : session_starts req_cam_bus node0 = true) by (vm_compute; reflexivity).
  assert (H2 : Forall (λ s, s ≠ EmptyString) (sensor_id req_cam_bus))
    by (repeat constructor; discriminate).
  split; [exact H1|]. split; [exact H2|].
  exact (@workers_in_turn_publish_what_they_submit C req_cam_bus node0 H1 H2).
Defined.

(** * The consumer of bags: [rosbag_consumer.py] *)

Section BagConsumer.
Import RosbagConsumer.
Context `{BagCollaborators}.

Lemma consumer_bind_Ok {A B} (m : CM A) (k : A → CM B) st a st' :
  m st = (Ok a, st') → bind m k st = k a st'.
Proof. intros Hm. unfold bind. by rewrite Hm. Qed.

Lemma consumer_bind_Raise {A B} (m : CM A) (k : A → CM B) st e st' :
  m st = (Raise e, st') → bind m k st = (Raise e, st').
Proof. intros Hm. unfold bind. by rewrite Hm. Qed.

Lemma same_but_publishers_refl st : same_but_publishers st st.
Proof. by destruct st. Qed.

Lemma same_but_publishers_trans st1 st2 st3 :
  same_but_publishers st1 st2 → same_but_publishers st2 st3 →
  same_but_publishers st1 st3.
Proof.
  unfold same_but_publishers. intros H12 H23.
  rewrite H23. rewrite H12. reflexivity.
Qed.

Lemma same_but_sink_refl st : same_but_sink st st.
Proof. by destruct st. Qed.

Lemma same_but_sink_trans st1 st2 st3 :
  same_but_sink st1 st2 → same_but_sink st2 st3 → same_but_sink st1 st3.
Proof.
  unfold same_but_sink. intros H12 H23.
  rewrite H23. rewrite H12. reflexivity.
Qed.

Lemma add_publisher_effect (topic_type : string * string) st :
  ∃ r st', add_publisher topic_type st = (r, st') ∧ same_but_publishers st st' ∧
    ros_publishers st ⊆ ros_publishers st' ∧
    (r = Ok tt → is_Some (ros_publishers st' !! topic_type.1)) ∧
    (is_Ok (get_data_class topic_type.2) = true → r = Ok tt) ∧
    (is_Some (ros_publishers st !! topic_type.1) → r = Ok tt ∧ st' = st).
Proof.
  destruct topic_type as [t d]. unfold add_publisher, bind, gets. cbn.
  case_bool_decide as Hin.
  - exists (Ok tt), st. split; [done|]. split; [apply same_but_publishers_refl|].
    by repeat split.
  - unfold lift. destruct (get_data_class d) as [c|e] eqn:Hc.
    + exists (Ok tt), (set_ros_publishers <[t:=c]> st). split; [done|].
      split; [by destruct st|]. cbn. split.
      { apply insert_subseteq. by apply eq_None_not_Some. }
      split; [by rewrite lookup_insert_eq|]. split; [done|]. by intros ?.
    + exists (Raise e), st. split; [done|].
      split; [apply same_but_publishers_refl|]. split; [done|].
      split; [done|]. split; [done|]. by intros ?.
Qed.

Lemma add_publishers_effect (tts : list (string * string)) st :
  ∃ r st', for_each add_publisher tts st = (r, st') ∧ same_but_publishers st st' ∧
    ros_publishers st ⊆ ros_publishers st' ∧
    (r = Ok tt → ∀ t, t ∈ tts.*1 → is_Some (ros_publishers st' !! t)) ∧
    ((∀ t d, (t, d) ∈ tts → is_Some (ros_publishers st !! t) ∨
                            is_Ok (get_data_class d) = true) → r = Ok tt) ∧
    ((∀ t, t ∈ tts.*1 → is_Some (ros_publishers st !! t)) → r = Ok tt ∧ st' = st).
Proof.
  revert st. induction tts as [|tt tts IH]; intros st.
  - exists (Ok tt), st. split; [done|]. split; [apply same_but_publishers_refl|].
    split; [done|]. split; [|done]. intros _ t Ht. by apply elem_of_nil in Ht.
  - destruct (add_publisher_effect tt st) as (r1 & st1 & Hrun1 & Hf1 & Hsub1 & Hok1 & Hcls1 & Hin1).
    cbn [for_each]. destruct r1 as [[]|e].
    + rewrite (consumer_bind_Ok _ _ _ _ _ Hrun1).
      destruct (IH st1) as (r & st' & Hrun & Hf & Hsub & Hok & Hcls & Hin).
      exists r, st'. split; [done|].
      split; [by eapply same_but_publishers_trans|].
      split; [by etrans|]. split; [|split].
      * intros Hr t Ht. rewrite fmap_cons in Ht. apply elem_of_cons in Ht as [->|Ht].
        -- destruct (Hok1 eq_refl) as [c Hc]. exists c.
           by eapply lookup_weaken.
        -- by apply Hok.
      * intros Hall. apply Hcls. intros t d Htd.
        destruct (Hall t d) as [[c Hc]|Hd]; [by right| |by right].
        left. exists c. by eapply lookup_weaken.
      * intros Hall.
        destruct (Hin1 (Hall _ (list_elem_of_here _ _))) as [_ ->].
        apply Hin. intros t Ht. apply Hall. rewrite fmap_cons. by right.
    + rewrite (consumer_bind_Raise _ _ _ _ _ Hrun1).
      exists (Raise e), st1. split; [done|]. split; [done|]. split; [done|].
      split; [done|]. split.
      * intros Hall. destruct (Hall tt.1 tt.2) as [Hs|Hd].
        -- destruct tt. apply list_elem_of_here.
        -- by destruct (Hin1 Hs).
        -- by apply Hcls1.
      * intros Hall. by destruct (Hin1 (Hall _ (list_elem_of_here _ _))).
Qed.

Lemma get_ros_publishers_effect (bag_path : string) st :
  ∃ r st', get_ros_publishers bag_path st = (r, st') ∧ same_but_publishers st st' ∧
    ros_publishers st ⊆ ros_publishers st' ∧
    (∀ pubs, r = Ok pubs → pubs = ros_publishers st' ∧
       ∀ tts, get_topics_types bag_path = Ok tts →
         ∀ t, t ∈ tts.*1 → is_Some (pubs !! t)) ∧
    (∀ tts, get_topics_types bag_path = Ok tts →
       (∀ t d, (t, d) ∈ tts → is_Some (ros_publishers st !! t) ∨
                               is_Ok (get_data_class d) = true) →
       r = Ok (ros_publishers st')) ∧
    (∀ tts, get_topics_types bag_path = Ok tts →
       (∀ t, t ∈ tts.*1 → is_Some (ros_publishers st !! t)) → st' = st).
Proof.
  unfold get_ros_publishers.
  destruct (get_topics_types bag_path) as [tts|e] eqn:Htts.
  - rewrite (consumer_bind_Ok _ _ st tts st) by done.
    destruct (add_publishers_effect tts st)
      as (r1 & st1 & Hrun1 & Hf1 & Hsub1 & Hok1 & Hcls1 & Hin1).
    destruct r1 as [[]|e].
    + rewrite (consumer_bind_Ok _ _ _ _ _ Hrun1). exists (Ok (ros_publishers st1)), st1.
      split; [done|]. split; [done|]. split; [done|]. split; [|split].
      * intros pubs [= <-]. split; [done|]. intros ? [= <-]. by apply Hok1.
      * done.
      * intros ? [= <-] Hall. by destruct (Hin1 Hall).
    + rewrite (consumer_bind_Raise _ _ _ _ _ Hrun1). exists (Raise e), st1.
      split; [done|]. split; [done|]. split; [done|]. split; [done|]. split.
      * intros ? [= <-] Hall. by specialize (Hcls1 Hall).
      * intros ? [= <-] Hall. by destruct (Hin1 Hall).
  - rewrite (consumer_bind_Raise _ _ st e st) by done. exists (Raise e), st.
    split; [done|]. split; [apply same_but_publishers_refl|]. by repeat split.
Qed.

Lemma publish_message_effect (topic_msg : string * RosMsg) st :
  ∃ r st' out, publish_message topic_msg st = (r, st') ∧ same_but_sink st st' ∧
    published st' = published st ++ out ∧
    (r = Ok tt → replays (use_time st) out [topic_msg]) ∧
    (r ≠ Ok tt → r = Raise KeyError ∧ out = []) ∧
    (is_Some (ros_publishers st !! topic_msg.1) → r = Ok tt).
Proof.
  destruct topic_msg as [t m]. unfold publish_message, bind, gets. cbn.
  assert (Hpub : ∀ m' st1, same_but_sink st st1 → published st1 = published st →
    (if bool_decide (use_time st = Some "received") then ∃ ts, m' = with_stamp ts m
     else m' = m) →
    ∃ r st' out,
      (let (r0, c') := lift (getitem (ros_publishers st1) t) st1 in
       match r0 with
       | Ok _ => modify (set_published (λ l, l ++ [(t, m')])) c'
       | Raise e => (Raise e, c')
       end) = (r, st') ∧ same_but_sink st st' ∧
      published st' = published st ++ out ∧
      (r = Ok tt → replays (use_time st) out [(t, m)]) ∧
      (r ≠ Ok tt → r = Raise KeyError ∧ out = []) ∧
      (is_Some (ros_publishers st !! t) → r = Ok tt)).
  { intros m' st1 Hf Hp Hm. unfold lift, getitem, modify.
    assert (Hpubs : ros_publishers st1 = ros_publishers st) by (by rewrite Hf).
    rewrite Hpubs. destruct (ros_publishers st !! t) as [c|] eqn:Hc.
    - exists (Ok tt), (set_published (λ l, l ++ [(t, m')]) st1), [(t, m')].
      split; [done|]. split.
      { eapply same_but_sink_trans; [exact Hf|]. by destruct st1. }
      split; [cbn; by rewrite Hp|]. split; [|done].
      intros _. by repeat constructor.
    - exists (Raise KeyError), st1, []. split; [done|]. split; [done|].
      split; [by rewrite app_nil_r|]. split; [done|]. split; [done|].
      by intros [? ?]. }
  case_bool_decide as Hut.
  - unfold set_received_time, bind, gets, modify, ret.
    apply Hpub; [by destruct st|done|]. eauto.
  - unfold ret. by apply Hpub; [apply same_but_sink_refl|done|].
Qed.

Lemma replays_app ut out1 msgs1 out2 msgs2 :
  replays ut out1 msgs1 → replays ut out2 msgs2 →
  replays ut (out1 ++ out2) (msgs1 ++ msgs2).
Proof. apply Forall2_app. Qed.

Lemma publish_loop_effect (msgs : list (string * RosMsg)) st :
  ∃ r st' out k, for_each publish_message msgs st = (r, st') ∧ same_but_sink st st' ∧
    published st' = published st ++ out ∧ replays (use_time st) out (take k msgs) ∧
    (r = Ok tt → k = length msgs) ∧
    (r ≠ Ok tt → r = Raise KeyError) ∧
    ((∀ t m, (t, m) ∈ msgs → is_Some (ros_publishers st !! t)) → r = Ok tt).
Proof.
  revert st. induction msgs as [|tm msgs IH]; intros st.
  - exists (Ok tt), st, [], 0. split; [done|]. split; [apply same_but_sink_refl|].
    split; [by rewrite app_nil_r|]. split; [constructor|]. by repeat split.
  - destruct (publish_message_effect tm st)
      as (r1 & st1 & out1 & Hrun1 & Hf1 & Hp1 & Hok1 & Hko1 & Hin1).
    cbn [for_each]. destruct r1 as [[]|e].
    + rewrite (consumer_bind_Ok _ _ _ _ _ Hrun1).
      destruct (IH st1) as (r & st' & out & k & Hrun & Hf & Hp & Hrep & Hok & Hko & Hin).
      assert (Hut : use_time st1 = use_time st) by (by rewrite Hf1).
      assert (Hpubs : ros_publishers st1 = ros_publishers st) by (by rewrite Hf1).
      exists r, st', (out1 ++ out), (S k). split; [done|].
      split; [by eapply same_but_sink_trans|].
      split; [by rewrite Hp, Hp1, app_assoc|]. split.
      { rewrite Hut in Hrep. cbn [take].
        change (tm :: take k msgs) with ([tm] ++ take k msgs).
        apply replays_app; [by apply Hok1|done]. }
      split; [intros Hr; cbn; f_equal; by apply Hok|]. split; [done|].
      intros Hall. apply Hin. intros t m Htm. rewrite Hpubs.
      apply (Hall t m). by right.
    + rewrite (consumer_bind_Raise _ _ _ _ _ Hrun1).
      destruct (Hko1 ltac:(done)) as [[= ->] ->].
      exists (Raise KeyError), st1, [], 0. split; [done|]. split; [done|].
      split; [done|]. split; [constructor|]. split; [done|]. split; [done|].
      intros Hall. apply Hin1. destruct tm as [t m]. apply (Hall t m), list_elem_of_here.
Qed.

Lemma same_but_publishers_fields st st' :
  same_but_publishers st st' →
  s3 st' = s3 st ∧ use_time st' = use_time st ∧ clean_up st' = clean_up st ∧
  s3_read_req st' = s3_read_req st ∧ s3_read_resp st' = s3_read_resp st ∧
  s3_delete_req st' = s3_delete_req st ∧ published st' = published st ∧
  clock_reads st' = clock_reads st.
Proof. intros Hf. by rewrite Hf. Qed.

Lemma same_but_sink_fields st st' :
  same_but_sink st st' →
  s3 st' = s3 st ∧ use_time st' = use_time st ∧ clean_up st' = clean_up st ∧
  s3_read_req st' = s3_read_req st ∧ s3_read_resp st' = s3_read_resp st ∧
  s3_delete_req st' = s3_delete_req st ∧ ros_publishers st' = ros_publishers st.
Proof. intros Hf. by rewrite Hf. Qed.

Lemma publish_messages_effect (bag_path : string) st :
  ∃ r st' out, publish_messages bag_path st = (r, st') ∧ same_but_sink st st' ∧
    published st' = published st ++ out ∧
    (r = Ok tt → ∃ msgs, read_messages bag_path = Ok (msgs, None) ∧
                         replays (use_time st) out msgs) ∧
    (∀ msgs failure, read_messages bag_path = Ok (msgs, failure) →
       (∀ t m, (t, m) ∈ msgs → is_Some (ros_publishers st !! t)) →
       replays (use_time st) out msgs ∧
       r = match failure with Some e => Raise e | None => Ok tt end).
Proof.
  unfold publish_messages.
  destruct (read_messages bag_path) as [[msgs failure]|e] eqn:Hread.
  - rewrite (consumer_bind_Ok _ _ st (msgs, failure) st) by done.
    destruct (publish_loop_effect msgs st)
      as (r1 & st1 & out & k & Hrun1 & Hf1 & Hp1 & Hrep1 & Hok1 & Hko1 & Hin1).
    destruct r1 as [[]|e].
    + rewrite (consumer_bind_Ok _ _ _ _ _ Hrun1).
      rewrite (Hok1 eq_refl), firstn_all in Hrep1.
      destruct failure as [e|].
      * exists (Raise e), st1, out. split; [done|]. split; [done|]. split; [done|].
        split; [done|]. by intros ? ? [= <- <-] _.
      * exists (Ok tt), st1, out. split; [done|]. split; [done|]. split; [done|].
        split; [by exists msgs|]. by intros ? ? [= <- <-] _.
    + rewrite (consumer_bind_Raise _ _ _ _ _ Hrun1).
      exists (Raise e), st1, out. split; [done|]. split; [done|]. split; [done|].
      split; [done|]. intros ? ? [= <- <-] Hall. by specialize (Hin1 Hall).
  - rewrite (consumer_bind_Raise _ _ st e st) by done.
    exists (Raise e), st, []. split; [done|]. split; [apply same_but_sink_refl|].
    split; [by rewrite app_nil_r|]. by split.
Qed.

Lemma after_last_slash_of_path (dir name : string) :
  after_last_slash name = None →
  after_last_slash (dir +:+ String "/"%char name) = Some name.
Proof.
  intros Hname. induction dir as [|c dir IH].
  - change (after_last_slash (String "/"%char name) = Some name).
    cbn. by rewrite Hname.
  - change (after_last_slash (String c (dir +:+ String "/"%char name)) = Some name).
    cbn [after_last_slash]. by rewrite IH.
Qed.

Lemma before_last_slash_of_path (dir name : string) :
  after_last_slash name = None →
  before_last_slash (dir +:+ String "/"%char name) = dir.
Proof.
  intros Hname. induction dir as [|c dir IH].
  - change (before_last_slash (String "/"%char name) = EmptyString).
    cbn. by rewrite Hname.
  - change (before_last_slash (String c (dir +:+ String "/"%char name)) = String c dir).
    cbn [before_last_slash].
    by rewrite (after_last_slash_of_path dir name Hname), IH.
Qed.

Lemma consumer_grows_refl st : consumer_grows st st.
Proof. by repeat split. Qed.

Lemma consumer_grows_trans st1 st2 st3 :
  consumer_grows st1 st2 → consumer_grows st2 st3 → consumer_grows st1 st3.
Proof.
  intros (Ha & Hb & Hc & Hd) (Ha' & Hb' & Hc' & Hd').
  split; [congruence|]. split; [congruence|]. split; by etrans.
Qed.

Lemma getitem_Ok (json_msg : JsonMsg) (k v : string) :
  getitem json_msg k = Ok v ↔ json_msg !! k = Some v.
Proof.
  unfold getitem. destruct (json_msg !! k) as [x|]; split; intros Heq;
    by simplify_eq.
Qed.

Lemma getitem_Raise (json_msg : JsonMsg) (k : string) e :
  getitem json_msg k = Raise e → json_msg !! k = None ∧ e = KeyError.
Proof. unfold getitem. destruct (json_msg !! k); [done|]. by intros [= <-]. Qed.

Lemma publish_bag_local_effect (json_msg : JsonMsg) st :
  s3 st = false →
  ∃ r st' out, publish_bag json_msg st = (r, st') ∧
    published st' = published st ++ out ∧ consumer_grows st st' ∧
    s3_read_req st' = s3_read_req st ∧ s3_read_resp st' = s3_read_resp st ∧
    s3_delete_req st' = s3_delete_req st ∧
    match r with
    | Ok _ => ∃ bag_path msgs, json_msg !! "bag_path" = Some bag_path ∧
               read_messages bag_path = Ok (msgs, None) ∧
               replays (use_time st) out msgs ∧
               clean_up st' = {[before_last_slash bag_path]} ∪ clean_up st
    | Raise e => clean_up st' = clean_up st
    end ∧
    (∀ bag_path tts msgs failure,
       json_msg !! "bag_path" = Some bag_path →
       get_topics_types bag_path = Ok tts →
       (∀ t d, (t, d) ∈ tts → is_Some (ros_publishers st !! t) ∨
                               is_Ok (get_data_class d) = true) →
       read_messages bag_path = Ok (msgs, failure) →
       (∀ t m, (t, m) ∈ msgs → t ∈ tts.*1) →
       replays (use_time st) out msgs ∧
       r = match failure with Some e => Raise e | None => Ok tt end).
Proof.
  intros Hs3. unfold publish_bag.
  rewrite (consumer_bind_Ok _ _ st false st) by (unfold gets; by rewrite Hs3).
  destruct (getitem json_msg "bag_path") as [path|e] eqn:Hpath.
  - rewrite (consumer_bind_Ok _ _ st path st) by done.
    apply getitem_Ok in Hpath.
    destruct (get_ros_publishers_effect path st)
      as (r1 & st1 & Hrun1 & Hf1 & Hsub1 & Hok1 & Hcls1 & _).
    destruct (same_but_publishers_fields _ _ Hf1)
      as (Ha1 & Hb1 & Hc1 & Hd1 & He1 & Hg1 & Hh1 & _).
    destruct r1 as [pubs|e].
    + rewrite (consumer_bind_Ok _ _ _ _ _ Hrun1).
      destruct (Hok1 pubs eq_refl) as [-> Hcover].
      destruct (publish_messages_effect path st1)
        as (r2 & st2 & out & Hrun2 & Hf2 & Hp2 & Hok2 & Hall2).
      destruct (same_but_sink_fields _ _ Hf2)
        as (Ha2 & Hb2 & Hc2 & Hd2 & He2 & Hg2 & Hh2).
      assert (Hgrows : consumer_grows st st2).
      { split; [congruence|]. split; [congruence|]. split; [by rewrite Hh2|].
        rewrite Hp2, Hh1. by apply prefix_app_r. }
      assert (Htotal : ∀ bag_path tts msgs failure,
        json_msg !! "bag_path" = Some bag_path →
        get_topics_types bag_path = Ok tts →
        (∀ t d, (t, d) ∈ tts → is_Some (ros_publishers st !! t) ∨
                                is_Ok (get_data_class d) = true) →
        read_messages bag_path = Ok (msgs, failure) →
        (∀ t m, (t, m) ∈ msgs → t ∈ tts.*1) →
        replays (use_time st) out msgs ∧
        r2 = match failure with Some e => Raise e | None => Ok tt end).
      { intros ? tts msgs failure Hpath' Htts _ Hread Htopics.
        rewrite Hpath in Hpath'. injection Hpath' as <-. rewrite <- Hb1.
        apply Hall2; [done|]. intros t m Htm. eapply Hcover; [done|].
        by eapply Htopics. }
      destruct r2 as [[]|e].
      * rewrite (consumer_bind_Ok _ _ _ _ _ Hrun2).
        exists (Ok tt), (set_clean_up (λ dirs, {[before_last_slash path]} ∪ dirs) st2), out.
        split; [done|]. cbn. split; [by rewrite Hp2, Hh1|]. split; [done|].
        split; [congruence|]. split; [congruence|]. split; [congruence|].
        split; [|done].
        destruct (Hok2 eq_refl) as (msgs & Hread & Hrep).
        exists path, msgs. split; [done|]. split; [done|].
        split; [by rewrite <- Hb1|]. by rewrite Hc2, Hc1.
      * rewrite (consumer_bind_Raise _ _ _ _ _ Hrun2).
        exists (Raise e), st2, out. split; [done|]. split; [by rewrite Hp2, Hh1|].
        split; [done|]. split; [congruence|]. split; [congruence|].
        split; [congruence|]. split; [congruence|done].
    + rewrite (consumer_bind_Raise _ _ _ _ _ Hrun1).
      exists (Raise e), st1, []. split; [done|]. split; [by rewrite app_nil_r|].
      split. { split; [done|]. split; [done|]. split; [done|]. by rewrite Hh1. }
      split; [done|]. split; [done|]. split; [done|]. split; [done|].
      intros ? tts msgs failure Hpath' Htts Hcls _ _.
      rewrite Hpath in Hpath'. injection Hpath' as <-.
      by specialize (Hcls1 tts Htts Hcls).
  - rewrite (consumer_bind_Raise _ _ st e st) by done.
    apply getitem_Raise in Hpath as [Hpath ->].
    exists (Raise KeyError), st, []. split; [done|]. split; [by rewrite app_nil_r|].
    split; [apply consumer_grows_refl|]. do 4 (split; [done|]).
    intros ? ? ? ? Hpath'. by rewrite Hpath in Hpath'.
Qed.

Lemma read_s3_effect st :
  ∃ r st' out, read_s3 st = (r, st') ∧
    published st' = published st ++ out ∧ consumer_grows st st' ∧
    s3_read_req st' = s3_read_req st ∧ s3_read_resp st' = tail (s3_read_resp st) ∧
    clean_up st' = clean_up st ∧
    (r = Ok tt ∨ ∃ e, r = Raise e ∧ is_Exception e = false) ∧
    (s3_delete_req st' = s3_delete_req st ∨
     ∃ resp msgs, head (s3_read_resp st) = Some resp ∧
       s3_delete_req st' = s3_delete_req st ++ [resp] ∧
       read_messages (before_first_space resp) = Ok (msgs, None) ∧
       replays (use_time st) out msgs) ∧
    (s3_read_resp st = [] → r = Ok tt ∧ st' = st) ∧
    (∀ resp tts msgs,
       head (s3_read_resp st) = Some resp →
       get_topics_types (before_first_space resp) = Ok tts →
       (∀ t d, (t, d) ∈ tts → is_Some (ros_publishers st !! t) ∨
                               is_Ok (get_data_class d) = true) →
       read_messages (before_first_space resp) = Ok (msgs, None) →
       (∀ t m, (t, m) ∈ msgs → t ∈ tts.*1) →
       r = Ok tt ∧ s3_delete_req st' = s3_delete_req st ++ [resp] ∧
       replays (use_time st) out msgs).
Proof.
  unfold read_s3, try_log.
  destruct (s3_read_resp st) as [|resp rest] eqn:Hresp.
  - rewrite (consumer_bind_Ok _ _ st [] st) by (unfold gets; by rewrite Hresp).
    cbn. exists (Ok tt), st, []. split; [done|]. split; [by rewrite app_nil_r|].
    split; [apply consumer_grows_refl|]. split; [done|]. split; [done|].
    split; [done|]. split; [by left|]. split; [by left|]. split; [done|].
    by intros.
  - rewrite (consumer_bind_Ok _ _ st (resp :: rest) st) by (unfold gets; by rewrite Hresp).
    set (st0 := set_s3_read_resp (λ _, rest) st).
    rewrite (consumer_bind_Ok _ _ st tt st0) by done.
    destruct (get_ros_publishers_effect (before_first_space resp) st0)
      as (r1 & st1 & Hrun1 & Hf1 & Hsub1 & Hok1 & Hcls1 & _).
    destruct (same_but_publishers_fields _ _ Hf1)
      as (Ha1 & Hb1 & Hc1 & Hd1 & He1 & Hg1 & Hh1 & _).
    cbn in Ha1, Hb1, Hc1, Hd1, He1, Hg1, Hh1, Hsub1.
    destruct r1 as [pubs|e].
    + rewrite (consumer_bind_Ok _ _ _ _ _ Hrun1).
      destruct (Hok1 pubs eq_refl) as [-> Hcover].
      destruct (publish_messages_effect (before_first_space resp) st1)
        as (r2 & st2 & out & Hrun2 & Hf2 & Hp2 & Hok2 & Hall2).
      destruct (same_but_sink_fields _ _ Hf2)
        as (Ha2 & Hb2 & Hc2 & Hd2 & He2 & Hg2 & Hh2).
      assert (Hgrows : consumer_grows st st2).
      { split; [congruence|]. split; [congruence|]. split; [by rewrite Hh2|].
        rewrite Hp2, Hh1. by apply prefix_app_r. }
      destruct r2 as [[]|e].
      * rewrite (consumer_bind_Ok _ _ _ _ _ Hrun2).
        destruct (Hok2 eq_refl) as (msgs & Hread & Hrep). rewrite Hb1 in Hrep.
        exists (Ok tt), (set_s3_delete_req (λ q, q ++ [resp]) st2), out.
        split; [done|]. cbn. split; [by rewrite Hp2, Hh1|]. split; [done|].
        split; [congruence|]. split; [congruence|]. split; [congruence|].
        split; [by left|].
        assert (Hdel : s3_delete_req st2 ++ [resp] = s3_delete_req st ++ [resp])
          by congruence.
        split; [right; by exists resp, msgs|]. split; [done|].
        intros ? tts msgs' [= <-] _ _ Hread' _.
        rewrite Hread in Hread'. by injection Hread' as <-.
      * rewrite (consumer_bind_Raise _ _ _ _ _ Hrun2).
        exists (if is_Exception e then Ok tt else Raise e), st2, out.
        split; [by destruct (is_Exception e)|]. split; [by rewrite Hp2, Hh1|].
        split; [done|]. split; [congruence|]. split; [cbn; congruence|].
        split; [congruence|].
        split; [destruct (is_Exception e) eqn:He; [by left|right; by exists e]|].
        split; [left; congruence|]. split; [done|].
        intros ? tts msgs [= <-] Htts _ Hread Htopics.
        destruct (Hall2 msgs None Hread) as [_ Hr]; [|done].
        intros t m Htm. eapply Hcover; [done|]. by eapply Htopics.
    + rewrite (consumer_bind_Raise _ _ _ _ _ Hrun1).
      exists (if is_Exception e then Ok tt else Raise e), st1, [].
      split; [by destruct (is_Exception e)|]. split; [by rewrite app_nil_r|].
      split. { split; [done|]. split; [done|]. split; [done|]. by rewrite Hh1. }
      split; [done|]. split; [done|]. split; [done|].
      split; [destruct (is_Exception e) eqn:He; [by left|right; by exists e]|].
      split; [by left|]. split; [done|].
      intros ? tts msgs [= <-] Htts Hcls _ _.
      by specialize (Hcls1 tts Htts Hcls).
Qed.

Lemma publish_bag_grows (json_msg : JsonMsg) st :
  ∃ r st', publish_bag json_msg st = (r, st') ∧ consumer_grows st st'.
Proof.
  destruct (s3 st) eqn:Hs3.
  - unfold publish_bag.
    rewrite (consumer_bind_Ok _ _ st true st) by (unfold gets; by rewrite Hs3).
    destruct (getitem json_msg "bag_bucket") as [bucket|e] eqn:Hbucket;
      [rewrite (consumer_bind_Ok _ _ st bucket st) by done
      |rewrite (consumer_bind_Raise _ _ st e st) by done;
       exists (Raise e), st; split; [done|apply consumer_grows_refl]].
    destruct (getitem json_msg "bag_prefix") as [prefix|e] eqn:Hprefix;
      [rewrite (consumer_bind_Ok _ _ st prefix st) by done
      |rewrite (consumer_bind_Raise _ _ st e st) by done;
       exists (Raise e), st; split; [done|apply consumer_grows_refl]].
    destruct (getitem json_msg "bag_name") as [name|e] eqn:Hname;
      [rewrite (consumer_bind_Ok _ _ st name st) by done
      |rewrite (consumer_bind_Raise _ _ st e st) by done;
       exists (Raise e), st; split; [done|apply consumer_grows_refl]].
    set (st0 := set_s3_read_req
      (λ q, q ++ [bucket +:+ " " +:+ prefix +:+ name]) st).
    rewrite (consumer_bind_Ok _ _ st tt st0) by done.
    destruct (read_s3_effect st0) as (r & st' & out & Hrun & _ & Hgrows & _).
    exists r, st'. split; [done|]. exact Hgrows.
  - destruct (publish_bag_local_effect json_msg st Hs3)
      as (r & st' & out & Hrun & _ & Hgrows & _).
    by exists r, st'.
Qed.

Lemma consume_effect (msgs : list (Result JsonMsg)) st :
  ∃ r st', consume msgs st = (r, st') ∧ consumer_grows st st' ∧
    (r = Ok tt ∨ ∃ e, r = Raise e ∧ is_Exception e = false).
Proof.
  revert st. induction msgs as [|msg msgs IH]; intros st.
  - exists (Ok tt), st. split; [done|]. split; [apply consumer_grows_refl|by left].
  - cbn [consume].
    assert (Hstep : ∀ body : CM unit,
      (∃ r st', body st = (r, st') ∧ consumer_grows st st') →
      ∃ r st', bind (try_log body) (λ _, consume msgs) st = (r, st') ∧
        consumer_grows st st' ∧
        (r = Ok tt ∨ ∃ e, r = Raise e ∧ is_Exception e = false)).
    { intros body (r1 & st1 & Hrun1 & Hgrows1). unfold bind, try_log. rewrite Hrun1.
      destruct (IH st1) as (r & st' & Hrun & Hgrows & Hr).
      assert (Hgo : ∃ r0 st0, consume msgs st1 = (r0, st0) ∧ consumer_grows st st0 ∧
        (r0 = Ok tt ∨ ∃ e, r0 = Raise e ∧ is_Exception e = false)).
      { exists r, st'. split; [done|]. split; [|done].
        by eapply consumer_grows_trans. }
      destruct r1 as [[]|e]; [done|].
      destruct (is_Exception e) eqn:He; [done|].
      exists (Raise e), st1. split; [done|]. split; [done|]. right. by exists e. }
    destruct msg as [json_msg|e].
    + destruct (is_close_msg json_msg).
      * exists (Ok tt), st. split; [done|]. split; [apply consumer_grows_refl|by left].
      * apply Hstep, publish_bag_grows.
    + apply Hstep. exists (Raise e), st. split; [done|apply consumer_grows_refl].
Qed.

(** X17. [get_ros_publishers] only adds publishers: every topic that had a
    publisher keeps that very publisher, whether the call returns or raises,
    and nothing else of the consumer changes. *)
Theorem get_ros_publishers_only_adds (bag_path : string) (st : Consumer) :
  ros_publishers st ⊆ ros_publishers (get_ros_publishers bag_path st).2 ∧
  same_but_publishers st (get_ros_publishers bag_path st).2.
Proof.
  destruct (get_ros_publishers_effect bag_path st) as (r & st' & Hrun & Hf & Hsub & _).
  rewrite Hrun. by split.
Qed.

(** X18. When [get_ros_publishers] returns, it returns the consumer's own
    dict, every topic of the bag has a publisher in it, and a second call for
    the same bag returns the same publishers and creates nothing. *)
Theorem get_ros_publishers_covers_and_settles (bag_path : string) (st st' : Consumer)
    (pubs : gmap string string) :
  get_ros_publishers bag_path st = (Ok pubs, st') →
  pubs = ros_publishers st' ∧
  (∀ tts, get_topics_types bag_path = Ok tts → ∀ t, t ∈ tts.*1 → is_Some (pubs !! t)) ∧
  get_ros_publishers bag_path st' = (Ok pubs, st').
Proof.
  intros Hrun.
  destruct (get_ros_publishers_effect bag_path st) as (r & st1 & Hrun1 & _ & _ & Hok & _).
  rewrite Hrun in Hrun1. injection Hrun1 as <- <-.
  destruct (Hok pubs eq_refl) as [Hpubs Hcover]. split; [done|]. split; [done|].
  destruct (get_topics_types bag_path) as [tts|e] eqn:Htts.
  - destruct (get_ros_publishers_effect bag_path st')
      as (r2 & st2 & Hrun2 & _ & _ & _ & Hcls2 & Hin2).
    assert (Hall : ∀ t, t ∈ tts.*1 → is_Some (ros_publishers st' !! t)).
    { intros t Ht. rewrite <- Hpubs. by eapply Hcover. }
    pose proof (Hin2 tts Htts Hall) as Heq. subst st2.
    rewrite Hrun2, Hpubs. f_equal.
    eapply Hcls2; [done|]. intros t d Htd. left. apply Hall.
    apply list_elem_of_fmap. by exists (t, d).
  - unfold get_ros_publishers in Hrun.
    by rewrite (consumer_bind_Raise _ _ st e st) in Hrun by (unfold lift; by rewrite Htts).
Qed.

(** X19. A local bag that can be read to its end is replayed entirely:
    [publish_bag] returns, the messages of the bag are published in file
    order on their topics, each as it is in the bag (but for the stamp of its
    header when the time of reception is used), and the directory of the bag
    is recorded for the clean up. *)
Theorem publish_bag_replays_local_bag (json_msg : JsonMsg) (st : Consumer)
    (dir name : string) (tts : list (string * string)) (msgs : list (string * RosMsg)) :
  s3 st = false →
  json_msg !! "bag_path" = Some (dir +:+ String "/"%char name) →
  after_last_slash name = None →
  get_topics_types (dir +:+ String "/"%char name) = Ok tts →
  Forall (λ td, is_Some (ros_publishers st !! td.1) ∨
                is_Ok (get_data_class td.2) = true) tts →
  read_messages (dir +:+ String "/"%char name) = Ok (msgs, None) →
  Forall (λ tm, tm.1 ∈ tts.*1) msgs →
  ∃ st' out, publish_bag json_msg st = (Ok tt, st') ∧
    published st' = published st ++ out ∧ replays (use_time st) out msgs ∧
    clean_up st' = {[dir]} ∪ clean_up st.
Proof.
  intros Hs3 Hpath Hname Htts Hcls Hread Htopics.
  destruct (publish_bag_local_effect json_msg st Hs3)
    as (r & st' & out & Hrun & Hp & _ & _ & _ & _ & Hr & Htotal).
  destruct (Htotal _ tts msgs None Hpath Htts) as [Hrep ->]; [|done| |].
  { intros t d Htd. by apply (proj1 (Forall_forall _ _) Hcls (t, d)). }
  { intros t m Htm. by apply (proj1 (Forall_forall _ _) Htopics (t, m)). }
  destruct Hr as (path & msgs' & Hpath' & _ & _ & Hclean).
  rewrite Hpath in Hpath'. injection Hpath' as <-.
  rewrite (before_last_slash_of_path dir name Hname) in Hclean.
  by exists st', out.
Qed.

(** X20. In the mode of local files a call of [publish_bag] that raises
    records no directory for the clean up, and takes back neither a message
    published nor a publisher. *)
Theorem failed_local_bag_is_not_recorded (json_msg : JsonMsg) (st st' : Consumer)
    (e : Exn) :
  s3 st = false →
  publish_bag json_msg st = (Raise e, st') →
  clean_up st' = clean_up st ∧ consumer_grows st st'.
Proof.
  intros Hs3 Hrun.
  destruct (publish_bag_local_effect json_msg st Hs3)
    as (r & st1 & out & Hrun1 & _ & Hgrows & _ & _ & _ & Hr & _).
  rewrite Hrun in Hrun1. injection Hrun1 as <- <-. by split.
Qed.

(** X21. A local bag whose reading breaks off: the messages read before the
    failure are published all the same, [publish_bag] raises the failure of
    the reader, and the directory of the bag is not recorded for the clean
    up. *)
Theorem truncated_local_bag_is_published_but_not_recorded (json_msg : JsonMsg)
    (st : Consumer) (bag_path : string) (tts : list (string * string))
    (msgs : list (string * RosMsg)) (e : Exn) :
  s3 st = false →
  json_msg !! "bag_path" = Some bag_path →
  get_topics_types bag_path = Ok tts →
  Forall (λ td, is_Some (ros_publishers st !! td.1) ∨
                is_Ok (get_data_class td.2) = true) tts →
  read_messages bag_path = Ok (msgs, Some e) →
  Forall (λ tm, tm.1 ∈ tts.*1) msgs →
  ∃ st' out, publish_bag json_msg st = (Raise e, st') ∧
    published st' = published st ++ out ∧ replays (use_time st) out msgs ∧
    clean_up st' = clean_up st.
Proof.
  intros Hs3 Hpath Htts Hcls Hread Htopics.
  destruct (publish_bag_local_effect json_msg st Hs3)
    as (r & st' & out & Hrun & Hp & _ & _ & _ & _ & Hr & Htotal).
  destruct (Htotal _ tts msgs (Some e) Hpath Htts) as [Hrep ->]; [|done| |].
  { intros t d Htd. by apply (proj1 (Forall_forall _ _) Hcls (t, d)). }
  { intros t m Htm. by apply (proj1 (Forall_forall _ _) Htopics (t, m)). }
  by exists st', out.
Qed.

(** X22. The loop of [run] ends at a close message: no message that follows
    it on the response topic is processed. *)
Theorem consume_stops_at_close_message (pre post : list (Result JsonMsg))
    (close : JsonMsg) (st : Consumer) :
  is_close_msg close = true →
  consume (pre ++ Ok close :: post) st = consume pre st.
Proof.
  intros Hclose. revert st. induction pre as [|msg pre IH]; intros st.
  - cbn. by rewrite Hclose.
  - cbn [app consume]. destruct msg as [json_msg|e].
    + destruct (is_close_msg json_msg); [done|].
      unfold bind. destruct (try_log (publish_bag json_msg) st) as [[[]|e] st1]; [|done].
      apply IH.
    + unfold bind. destruct (try_log (lift (Raise e)) st) as [[[]|e'] st1]; [|done].
      apply IH.
Qed.

(** X23. No [Exception] ends the loop of [run]: whatever the messages, the
    loop returns or passes on an exception that is not an [Exception]; and it
    never changes the mode or the choice of the time, nor takes back a
    publisher or a message published. *)
Theorem consume_survives_exceptions (msgs : list (Result JsonMsg)) (st : Consumer) :
  ((consume msgs st).1 = Ok tt ∨
   ∃ e, (consume msgs st).1 = Raise e ∧ is_Exception e = false) ∧
  consumer_grows st (consume msgs st).2.
Proof.
  destruct (consume_effect msgs st) as (r & st' & Hrun & Hgrows & Hr).
  rewrite Hrun. by split.
Qed.

(** X24. A message of the response topic without the keys of its mode is
    passed over with no effect at all: the loop goes on with the next message
    from the same state. *)
Theorem consume_skips_message_without_keys (json_msg : JsonMsg)
    (rest : list (Result JsonMsg)) (st : Consumer) :
  is_close_msg json_msg = false →
  lacks_keys st json_msg →
  consume (Ok json_msg :: rest) st = consume rest st.
Proof.
  intros Hclose Hkeys. cbn [consume]. rewrite Hclose.
  assert (Hrun : publish_bag json_msg st = (Raise KeyError, st)).
  { unfold lacks_keys in Hkeys. unfold publish_bag.
    destruct (s3 st) eqn:Hs3.
    - rewrite (consumer_bind_Ok _ _ st true st) by (unfold gets; by rewrite Hs3).
      unfold bind, lift, getitem.
      destruct (json_msg !! "bag_bucket"); [|done].
      destruct (json_msg !! "bag_prefix"); [|done].
      destruct (json_msg !! "bag_name"); [|done].
      by destruct Hkeys as [?|[?|?]].
    - rewrite (consumer_bind_Ok _ _ st false st) by (unfold gets; by rewrite Hs3).
      unfold bind, lift, getitem. by rewrite Hkeys. }
  unfold bind, try_log. by rewrite Hrun.
Qed.

(** X25. In the mode of S3 [publish_bag] first queues the read request
    "bucket prefix+name" and then takes at most the response at the head of
    the response queue.  A delete request is queued only for that response,
    and only after every message of its bag was published; with no response
    waiting, nothing is published and nothing is queued for deletion. *)
Theorem publish_bag_s3_requests_then_reads_head (json_msg : JsonMsg) (st : Consumer)
    (bag_bucket bag_prefix bag_name : string) :
  s3 st = true →
  json_msg !! "bag_bucket" = Some bag_bucket →
  json_msg !! "bag_prefix" = Some bag_prefix →
  json_msg !! "bag_name" = Some bag_name →
  ∃ r st' out, publish_bag json_msg st = (r, st') ∧
    s3_read_req st' = s3_read_req st ++ [bag_bucket +:+ " " +:+ bag_prefix +:+ bag_name] ∧
    s3_read_resp st' = tail (s3_read_resp st) ∧
    published st' = published st ++ out ∧
    (s3_delete_req st' = s3_delete_req st ∨
     ∃ resp msgs, head (s3_read_resp st) = Some resp ∧
       s3_delete_req st' = s3_delete_req st ++ [resp] ∧
       read_messages (before_first_space resp) = Ok (msgs, None) ∧
       replays (use_time st) out msgs) ∧
    (s3_read_resp st = [] → r = Ok tt ∧ out = [] ∧ s3_delete_req st' = s3_delete_req st).
Proof.
  intros Hs3 Hbucket Hprefix Hname. unfold publish_bag.
  rewrite (consumer_bind_Ok _ _ st true st) by (unfold gets; by rewrite Hs3).
  apply getitem_Ok in Hbucket, Hprefix, Hname.
  rewrite (consumer_bind_Ok _ _ st bag_bucket st) by (unfold lift; by rewrite Hbucket).
  rewrite (consumer_bind_Ok _ _ st bag_prefix st) by (unfold lift; by rewrite Hprefix).
  rewrite (consumer_bind_Ok _ _ st bag_name st) by (unfold lift; by rewrite Hname).
  set (st0 := set_s3_read_req
    (λ q, q ++ [bag_bucket +:+ " " +:+ bag_prefix +:+ bag_name]) st).
  rewrite (consumer_bind_Ok _ _ st tt st0) by done.
  destruct (read_s3_effect st0)
    as (r & st' & out & Hrun & Hp & _ & Hreq & Hresp & _ & _ & Hdel & Hempty & _).
  exists r, st', out. split; [done|]. split; [done|]. split; [done|].
  split; [done|]. split; [done|].
  intros Hnil. destruct (Hempty Hnil) as [-> ->]. split; [done|]. split; [|done].
  cbn in Hp. by eapply app_inv_head; rewrite app_nil_r.
Qed.

(** X26. [read_s3] with a response waiting whose bag can be read to its end:
    the response is taken from the queue, the bag named before the first
    space of the response is replayed entirely, and then the response is
    queued for deletion. *)
Theorem read_s3_replays_waiting_bag (st : Consumer) (resp : string) (rest : list string)
    (tts : list (string * string)) (msgs : list (string * RosMsg)) :
  s3_read_resp st = resp :: rest →
  get_topics_types (before_first_space resp) = Ok tts →
  Forall (λ td, is_Some (ros_publishers st !! td.1) ∨
                is_Ok (get_data_class td.2) = true) tts →
  read_messages (before_first_space resp) = Ok (msgs, None) →
  Forall (λ tm, tm.1 ∈ tts.*1) msgs →
  ∃ st' out, read_s3 st = (Ok tt, st') ∧
    s3_read_resp st' = rest ∧
    published st' = published st ++ out ∧ replays (use_time st) out msgs ∧
    s3_delete_req st' = s3_delete_req st ++ [resp].
Proof.
  intros Hresp Htts Hcls Hread Htopics.
  destruct (read_s3_effect st)
    as (r & st' & out & Hrun & Hp & _ & _ & Hresp' & _ & _ & _ & _ & Htotal).
  rewrite Hresp in Hresp', Htotal.
  destruct (Htotal resp tts msgs eq_refl Htts) as (-> & Hdel & Hrep); [|done| |].
  { intros t d Htd. by apply (proj1 (Forall_forall _ _) Hcls (t, d)). }
  { intros t m Htm. by apply (proj1 (Forall_forall _ _) Htopics (t, m)). }
  by exists st', out.
Qed.

End BagConsumer.

Section BagConsumerExamples.
Import RosbagConsumer.

Lemma get_ros_publishers_covers_and_settles_witness :
  let C := example_bags in
  let run := get_ros_publishers "/tmp/a/1.bag" consumer0 in
  run = (Ok (ros_publishers run.2), run.2) ∧
  ros_publishers run.2 = ros_publishers run.2 ∧
  (∀ tts, get_topics_types "/tmp/a/1.bag" = Ok tts →
          ∀ t, t ∈ tts.*1 → is_Some (ros_publishers run.2 !! t)) ∧
  get_ros_publishers "/tmp/a/1.bag" run.2 = (Ok (ros_publishers run.2), run.2).
Proof.
  intros C run.
  assert (Hrun : run = (Ok (ros_publishers run.2), run.2)) by (vm_compute; reflexivity).
  split; [exact Hrun|].
  exact (@get_ros_publishers_covers_and_settles C "/tmp/a/1.bag" consumer0 run.2
           (ros_publishers run.2) Hrun).
Defined.

Lemma publish_bag_replays_local_bag_witness :
  let C := example_bags in
  ∃ st' out, publish_bag (bag_msg "/tmp/a/1.bag") consumer0 = (Ok tt, st') ∧
    published st' = published consumer0 ++ out ∧
    replays (use_time consumer0) out example_bag ∧
    clean_up st' = {["/tmp/a"]} ∪ clean_up consumer0.
Proof.
  intros C.
  assert (H1 : s3 consumer0 = false) by reflexivity.
  assert (H2 : bag_msg "/tmp/a/1.bag" !! "bag_path"
               = Some ("/tmp/a" +:+ String "/"%char "1.bag")) by (vm_compute; reflexivity).
  assert (H3 : after_last_slash "1.bag" = None) by reflexivity.
  assert (H4 : get_topics_types ("/tmp/a" +:+ String "/"%char "1.bag") = Ok example_topics)
    by reflexivity.
  assert (H5 : Forall (λ td, is_Some (ros_publishers consumer0 !! td.1) ∨
                             is_Ok (get_data_class td.2) = true) example_topics)
    by (repeat constructor; right; reflexivity).
  assert (H6 : read_messages ("/tmp/a" +:+ String "/"%char "1.bag") = Ok (example_bag, None))
    by (vm_compute; reflexivity).
  assert (H7 : Forall (λ tm, tm.1 ∈ example_topics.*1) example_bag)
    by (repeat constructor).
  exact (@publish_bag_replays_local_bag C (bag_msg "/tmp/a/1.bag") consumer0
           "/tmp/a" "1.bag" example_topics example_bag H1 H2 H3 H4 H5 H6 H7).
Defined.

Lemma failed_local_bag_is_not_recorded_witness :
  let C := example_bags in
  let run := publish_bag (bag_msg "/broken/1.bag") consumer0 in
  run = (Raise (Failure "truncated bag"), run.2) ∧
  clean_up run.2 = clean_up consumer0 ∧ consumer_grows consumer0 run.2.
Proof.
  intros C run.
  assert (H1 : s3 consumer0 = false) by reflexivity.
  assert (Hrun : run = (Raise (Failure "truncated bag"), run.2))
    by (vm_compute; reflexivity).
  split; [exact Hrun|].
  exact (@failed_local_bag_is_not_recorded C (bag_msg "/broken/1.bag") consumer0 run.2
           (Failure "truncated bag") H1 Hrun).
Defined.

Lemma truncated_local_bag_is_published_but_not_recorded_witness :
  let C := example_bags in
  ∃ st' out, publish_bag (bag_msg "/broken/1.bag") consumer0
             = (Raise (Failure "truncated bag"), st') ∧
    published st' = published consumer0 ++ out ∧
    replays (use_time consumer0) out [("/a2d2/cam", img_a)] ∧
    clean_up st' = clean_up consumer0.
Proof.
  intros C.
  assert (H1 : s3 consumer0 = false) by reflexivity.
  assert (H2 : bag_msg "/broken/1.bag" !! "bag_path" = Some "/broken/1.bag")
    by (vm_compute; reflexivity).
  assert (H3 : get_topics_types "/broken/1.bag" = Ok example_topics) by reflexivity.
  assert (H4 : Forall (λ td, is_Some (ros_publishers consumer0 !! td.1) ∨
                             is_Ok (get_data_class td.2) = true) example_topics)
    by (repeat constructor; right; reflexivity).
  assert (H5 : read_messages "/broken/1.bag"
               = Ok ([("/a2d2/cam", img_a)], Some (Failure "truncated bag")))
    by (vm_compute; reflexivity).
  assert (H6 : Forall (λ tm, tm.1 ∈ example_topics.*1) [("/a2d2/cam", img_a)])
    by (repeat constructor).
  exact (@truncated_local_bag_is_published_but_not_recorded C (bag_msg "/broken/1.bag")
           consumer0 "/broken/1.bag" example_topics [("/a2d2/cam", img_a)]
           (Failure "truncated bag") H1 H2 H3 H4 H5 H6).
Defined.

Lemma consume_stops_at_close_message_witness :
  let C := example_bags in
  is_close_msg close_msg = true ∧
  consume ([Ok (bag_msg "/tmp/a/1.bag")] ++ Ok close_msg :: [Ok (bag_msg "/tmp/a/2.bag")])
    consumer0
  = consume [Ok (bag_msg "/tmp/a/1.bag")] consumer0.
Proof.
  intros C.
  assert (H1 : is_close_msg close_msg = true) by (vm_compute; reflexivity).
  split; [exact H1|].
  exact (@consume_stops_at_close_message C [Ok (bag_msg "/tmp/a/1.bag")]
           [Ok (bag_msg "/tmp/a/2.bag")] close_msg consumer0 H1).
Defined.

Lemma consume_skips_message_without_keys_witness :
  let C := example_bags in
  lacks_keys consumer0 s3_msg ∧
  consume [Ok s3_msg; Ok (bag_msg "/tmp/a/1.bag")] consumer0
  = consume [Ok (bag_msg "/tmp/a/1.bag")] consumer0.
Proof.
  intros C.
  assert (H1 : is_close_msg s3_msg = false) by (vm_compute; reflexivity).
  assert (H2 : lacks_keys consumer0 s3_msg) by (vm_compute; reflexivity).
  split; [exact H2|].
  exact (@consume_skips_message_without_keys C s3_msg [Ok (bag_msg "/tmp/a/1.bag")]
           consumer0 H1 H2).
Defined.

Lemma publish_bag_s3_requests_then_reads_head_witness :
  let C := example_bags in
  ∃ r st' out, publish_bag s3_msg consumer_s3 = (r, st') ∧
    s3_read_req st' = s3_read_req consumer_s3 ++ ["b" +:+ " " +:+ "p/" +:+ "1.bag"] ∧
    s3_read_resp st' = tail (s3_read_resp consumer_s3) ∧
    published st' = published consumer_s3 ++ out ∧
    (s3_delete_req st' = s3_delete_req consumer_s3 ∨
     ∃ resp msgs, head (s3_read_resp consumer_s3) = Some resp ∧
       s3_delete_req st' = s3_delete_req consumer_s3 ++ [resp] ∧
       read_messages (before_first_space resp) = Ok (msgs, None) ∧
       replays (use_time consumer_s3) out msgs) ∧
    (s3_read_resp consumer_s3 = [] →
     r = Ok tt ∧ out = [] ∧ s3_delete_req st' = s3_delete_req consumer_s3).
Proof.
  intros C.
  assert (H1 : s3 consumer_s3 = true) by reflexivity.
  assert (H2 : s3_msg !! "bag_bucket" = Some "b") by (vm_compute; reflexivity).
  assert (H3 : s3_msg !! "bag_prefix" = Some "p/") by (vm_compute; reflexivity).
  assert (H4 : s3_msg !! "bag_name" = Some "1.bag") by (vm_compute; reflexivity).
  exact (@publish_bag_s3_requests_then_reads_head C s3_msg consumer_s3 "b" "p/" "1.bag"
           H1 H2 H3 H4).
Defined.

Lemma read_s3_replays_waiting_bag_witness :
  let C := example_bags in
  ∃ st' out, read_s3 consumer_s3 = (Ok tt, st') ∧
    s3_read_resp st' = [] ∧
    published st' = published consumer_s3 ++ out ∧
    replays (use_time consumer_s3) out example_bag ∧
    s3_delete_req st' = s3_delete_req consumer_s3 ++ ["/tmp/b/1.bag b k"].
Proof.
  intros C.
  assert (H1 : s3_read_resp consumer_s3 = ["/tmp/b/1.bag b k"]) by reflexivity.
  assert (H2 : get_topics_types (before_first_space "/tmp/b/1.bag b k") = Ok example_topics)
    by reflexivity.
  assert (H3 : Forall (λ td, is_Some (ros_publishers consumer_s3 !! td.1) ∨
                             is_Ok (get_data_class td.2) = true) example_topics)
    by (repeat constructor; right; reflexivity).
  assert (H4 : read_messages (before_first_space "/tmp/b/1.bag b k")
               = Ok (example_bag, None)) by (vm_compute; reflexivity).
  assert (H5 : Forall (λ tm, tm.1 ∈ example_topics.*1) example_bag)
    by (repeat constructor).
  exact (@read_s3_replays_waiting_bag C consumer_s3 "/tmp/b/1.bag b k" []
           example_topics example_bag H1 H2 H3 H4 H5).
Defined.

End BagConsumerExamples.
